(** * vitest-bdd: the transform, the runtime and the two plugins

    A shallow embedding of [src/transform.ts], [src/runtime.ts],
    [src/plugin.ts], [src/ts-plugin.ts] and of the test body of
    [src/index.ts].

    - [Ts]: the part of the TypeScript syntax tree the transform inspects
      (a node has a [kind], a text range, and the children that
      [ts.forEachChild] enumerates).
    - [Ms]: the text-edit buffer the transform writes to (magic-string);
      [Buffer]: what the buffer holds for each character of the file.
    - [Transform]: [transform.ts], function by function.
    - [Runtime]: [runtime.ts], with an explicit store for the registration
      contexts, an explicit heap for the values the test callbacks mutate,
      and a trace of the calls an executed case makes.
    - [Execution]: the run of a case as the specification words it, to
      compare [Runtime] with.
    - [Scenario]: whole trees of [__when] and [__it] calls for the runtime.
    - [Js], [Plugin], [TsPlugin]: the vite plugin and the syntactic part of
      the language-service plugin.
    - [Legacy]: the test body that the explicit [given] of [index.ts]
      registers. *)

From Stdlib Require Import String Ascii List Arith NArith Bool Lia.
From Stdlib Require Import Sorting.Sorted Sorting.Permutation.
From stdpp Require Import base list strings gmap.
Import ListNotations.
Set Warnings "-register-all".
Local Open Scope string_scope.
Local Open Scope list_scope.
Local Open Scope nat_scope.

(* ===================================================================== *)
(** ** Syntax trees *)
(* ===================================================================== *)

Module Ts.

(** The node kinds the transform distinguishes.  Every other kind of the
    TypeScript grammar (loops, conditionals, declarations, literals, type
    nodes, ...) is an [OtherKind], told apart by its tag only. *)
Inductive SyntaxKind : Type :=
| SourceFile
| Identifier
| StringLiteral
| CallExpression
| PropertyAccessExpression
| ArrowFunction
| FunctionExpression
| ParameterDeclaration
| Block
| ExpressionStatement
| BinaryExpression
| ObjectLiteralExpression
| AsExpression
| SatisfiesExpression
| ParenthesizedExpression
| SpreadElement
| ImportDeclaration
| ImportClause
| NamedImports
| NamespaceImport
| ImportSpecifier
| EqualsToken
| EqualsGreaterThanToken
| AsyncKeyword
| OtherKind (tag : string).

Definition SyntaxKind_eq_dec (a b : SyntaxKind) : {a = b} + {a <> b}.
Proof. decide equality. apply string_dec. Defined.

Definition kind_eqb (a b : SyntaxKind) : bool :=
  if SyntaxKind_eq_dec a b then true else false.

(** A node: [start] and [end_] are what [getStart()] and [getEnd()] return
    (offsets into the source text, leading trivia excluded); [text] is the
    [text] property of an identifier (empty on other kinds); [children] are
    the nodes [ts.forEachChild] visits, in its order.  Tokens that
    [forEachChild] visits ([=], [=>], [async], [?.]) are leaf children.

    Of a call expression [forEachChild] visits the callee, then the [?.]
    token if the call is an optional call, then the type arguments if it
    has any, then the arguments.  [argumentsOffset] is the number of
    children that stand between the callee and the arguments: 0 for
    [f(a, b)], 1 for [f<T>(a, b)] and for [f?.(a, b)].  It is 0 on every
    node that is not a call. *)
Inductive Node : Type :=
  mkNode {
    kind : SyntaxKind;
    start : nat;
    end_ : nat;
    text : string;
    children : list Node;
    argumentsOffset : nat
  }.

Definition isKind (k : SyntaxKind) (n : Node) : bool := kind_eqb (kind n) k.

(** Induction over a tree whose children sit in a list. *)
Section NodeInd.
Variable P : Node -> Prop.
Hypothesis step : forall k s e t cs o, Forall P cs -> P (mkNode k s e t cs o).

Fixpoint Node_ind' (n : Node) : P n :=
  match n with
  | mkNode k s e t cs o =>
      step k s e t cs o
        ((fix all (l : list Node) : Forall P l :=
            match l with
            | [] => @List.Forall_nil Node P
            | c :: l' => @List.Forall_cons Node P c l' (Node_ind' c) (all l')
            end) cs)
  end.
End NodeInd.

(** *** Typed accessors

    The properties of the typed node interfaces, read off the child list:
    - call: the callee first; the arguments, after what stands between
      the callee and them;
    - property access: object first, name last;
    - binary expression: left, operator token, right;
    - expression statement, [as], [satisfies], parentheses, spread:
      the expression first;
    - arrow function / function expression: modifiers, parameters,
      (the [=>] token,) body last;
    - block and source file: the statements;
    - import declaration: an optional import clause among the children;
      import clause: an optional default name and optional named bindings;
      named imports: the specifiers; import specifier: local name last. *)

Definition expression (n : Node) : option Node := List.hd_error (children n).
Definition arguments (n : Node) : list Node :=
  List.skipn (argumentsOffset n) (List.tl (children n)).
Definition name (n : Node) : option Node := List.hd_error (List.rev (children n)).
Definition left (n : Node) : option Node := List.nth_error (children n) 0.
Definition operatorToken (n : Node) : option Node := List.nth_error (children n) 1.
Definition right (n : Node) : option Node := List.nth_error (children n) 2.
Definition body (n : Node) : option Node := List.hd_error (List.rev (children n)).
Definition statements (n : Node) : list Node := children n.
Definition equalsGreaterThanToken (n : Node) : option Node :=
  List.find (isKind EqualsGreaterThanToken) (children n).
Definition importClause (n : Node) : option Node :=
  List.find (isKind ImportClause) (children n).
Definition namedBindings (n : Node) : option Node :=
  List.find (fun c => isKind NamedImports c || isKind NamespaceImport c) (children n).
Definition elements (n : Node) : list Node := children n.

Definition isSome {A : Type} (o : option A) : bool :=
  match o with Some _ => true | None => false end.

(** The double quote and the line feed, as one-character strings. *)
Definition dq : string := String (Ascii.ascii_of_nat 34) EmptyString.
Definition nl : string := String (Ascii.ascii_of_nat 10) EmptyString.

(** [code.slice(a, b)].  Offsets count characters; the sources considered
    are ASCII, where JavaScript's UTF-16 units and the characters of a
    [string] coincide. *)
Definition slice (code : string) (a b : nat) : string :=
  String.substring a (b - a) code.

End Ts.

(* ===================================================================== *)
(** ** The edit buffer (magic-string) *)
(* ===================================================================== *)

(** [MagicString] is the npm library the transform records its edits in.
    It keeps the original text, split into chunks at the offsets that were
    edited; every edit is addressed by offsets of the ORIGINAL text.  The
    model keeps one cell per original character, which is the library's
    chunk list split as finely as possible:
    - [appendLeft i s] adds [s] to the outro of the chunk that ends at [i]
      (to the buffer's intro when no chunk ends there);
    - [overwrite a b s] puts [s] in place of the characters [a..b) and drops
      what had been inserted inside that range;
    - [remove a b] empties the characters [a..b) and drops what had been
      inserted inside that range;
    - [prepend s] puts [s] in front of everything;
    - [toString] reads the buffer back.
    The library's own argument checks (it throws on a zero-length
    overwrite, and on an edit whose boundary falls strictly inside a chunk
    that was overwritten before) are not part of the model; the source map
    ([generateMap]) is not modelled either. *)
Module Ms.

Record Cell : Type := mkCell { content : string; outro : string }.

Record MagicString : Type := mkMagicString {
  original : string;
  intro : string;
  cells : list Cell
}.

Fixpoint cellsOf (s : string) : list Cell :=
  match s with
  | EmptyString => []
  | String c s' => mkCell (String c EmptyString) "" :: cellsOf s'
  end.

Definition create (s : string) : MagicString := mkMagicString s "" (cellsOf s).

Definition appendLeft (index : nat) (c : string) (s : MagicString) : MagicString :=
  match index with
  | S i =>
      if i <? length (cells s)
      then mkMagicString (original s) (intro s)
             (alter (fun cell => mkCell (content cell) (outro cell +:+ c)) i (cells s))
      else mkMagicString (original s) (intro s +:+ c) (cells s)
  | O => mkMagicString (original s) (intro s +:+ c) (cells s)
  end.

Definition overwrite (a b : nat) (c : string) (s : MagicString) : MagicString :=
  mkMagicString (original s) (intro s)
    (imap (fun i cell =>
             if i =? a then (if a <? b then mkCell c "" else cell)
             else if (a <? i) && (i <? b) then mkCell "" ""
             else cell) (cells s)).

Definition remove (a b : nat) (s : MagicString) : MagicString :=
  mkMagicString (original s) (intro s)
    (imap (fun i cell => if (a <=? i) && (i <? b) then mkCell "" "" else cell)
       (cells s)).

Definition prepend (c : string) (s : MagicString) : MagicString :=
  mkMagicString (original s) (c +:+ intro s) (cells s).

Definition toString (s : MagicString) : string :=
  intro s +:+ String.concat "" (List.map (fun cell => content cell +:+ outro cell) (cells s)).

(** The four kinds of edit the transform issues, as data. *)
Inductive Edit : Type :=
| Remove (a b : nat)
| Overwrite (a b : nat) (c : string)
| AppendLeft (index : nat) (c : string).

Definition apply (s : MagicString) (e : Edit) : MagicString :=
  match e with
  | Remove a b => remove a b s
  | Overwrite a b c => overwrite a b c s
  | AppendLeft i c => appendLeft i c s
  end.

Definition applyAll (es : list Edit) (s : MagicString) : MagicString :=
  List.fold_left apply es s.

End Ms.

(* ===================================================================== *)
(** ** Source fixtures *)
(* ===================================================================== *)

(** Concrete inputs are written once, as a layout: the tokens of the text
    in order, grouped into the nodes they form.  [Fixture.tree] gives the
    syntax tree with the offsets each node has in [Fixture.source], so the
    two cannot drift apart. *)
Module Fixture.
Import Ts.

Inductive Syn : Type :=
| Tok (s : string)                        (* text that forms no node: trivia, punctuation *)
| Leaf (k : SyntaxKind) (s : string)      (* a leaf node and its text *)
| NdAt (k : SyntaxKind) (offset : nat) (parts : list Syn).
                                          (* a node spanning its parts, of which
                                             [offset] nodes stand between the
                                             callee and the arguments *)

Fixpoint build (off : nat) (s : Syn) : list Node * string :=
  match s with
  | Tok t => ([], t)
  | Leaf k t =>
      ([mkNode k off (off + String.length t)
          (if kind_eqb k Identifier then t else "") [] 0], t)
  | NdAt k offset parts =>
      let '(cs, txt) :=
        (fix go (off : nat) (ps : list Syn) : list Node * string :=
           match ps with
           | [] => ([], "")
           | p :: ps' =>
               let '(c1, t1) := build off p in
               let '(c2, t2) := go (off + String.length t1) ps' in
               (c1 ++ c2, t1 +:+ t2)
           end) off parts in
      ([mkNode k off (off + String.length txt) "" cs offset], txt)
  end.

Definition source (s : Syn) : string := snd (build 0 s).
Definition tree (s : Syn) : Node :=
  match fst (build 0 s) with
  | n :: _ => n
  | [] => mkNode SourceFile 0 0 "" [] 0
  end.

(** Shorthands for the shapes the examples use. *)
Definition Nd (k : SyntaxKind) (parts : list Syn) : Syn := NdAt k 0 parts.
Definition id_ (s : string) : Syn := Leaf Identifier s.
Definition str_ (s : string) : Syn := Leaf StringLiteral (dq +:+ s +:+ dq).
Definition num_ (s : string) : Syn := Leaf (OtherKind "NumericLiteral") s.

Fixpoint commaSep (args : list Syn) : list Syn :=
  match args with
  | [] => []
  | [a] => [a]
  | a :: rest => a :: Tok ", " :: commaSep rest
  end.

Definition call_ (callee : Syn) (args : list Syn) : Syn :=
  Nd CallExpression (callee :: Tok "(" :: commaSep args ++ [Tok ")"]).
(** [callee<T1, T2>(a, b)]; each type argument is one node. *)
Definition typedCall_ (callee : Syn) (typeArgs args : list Syn) : Syn :=
  NdAt CallExpression (length typeArgs)
    (callee :: Tok "<" :: commaSep typeArgs ++ Tok ">(" :: commaSep args ++ [Tok ")"]).
Definition typeRef_ (name : string) : Syn := Nd (OtherKind "TypeReference") [id_ name].
Definition dot_ (obj : Syn) (prop : string) : Syn :=
  Nd PropertyAccessExpression [obj; Tok "."; id_ prop].
Definition stmt_ (e : Syn) : Syn := Nd ExpressionStatement [e; Tok ";"].
Definition assign_ (l r : Syn) : Syn :=
  Nd BinaryExpression [l; Tok " "; Leaf EqualsToken "="; Tok " "; r].
(** [{ s1 s2 ... }] on separate lines, indented by [ind]. *)
Definition block_ (ind : string) (stmts : list Syn) : Syn :=
  Nd Block (Tok "{" :: Tok nl ::
            List.flat_map (fun s => [Tok (ind +:+ "  "); s; Tok nl]) stmts
            ++ [Tok ind; Tok "}"]).
Definition arrow_ (body : Syn) : Syn :=
  Nd ArrowFunction [Tok "() "; Leaf EqualsGreaterThanToken "=>"; Tok " "; body].
Definition asyncArrow_ (body : Syn) : Syn :=
  Nd ArrowFunction [Leaf AsyncKeyword "async"; Tok " () ";
                    Leaf EqualsGreaterThanToken "=>"; Tok " "; body].
Definition file_ (stmts : list Syn) : Syn :=
  Nd SourceFile (List.flat_map (fun s => [s; Tok nl]) stmts).

End Fixture.

(* ===================================================================== *)
(** ** transform.ts *)
(* ===================================================================== *)

Module Transform.
Import Ts.
Import Ms.

Inductive BddCallKind : Type := given | when | it.
Inductive CallModifier : Type := skip | only.

Definition BddCallKind_eqb (a b : BddCallKind) : bool :=
  match a, b with
  | given, given | when, when | it, it => true
  | _, _ => false
  end.

Record BddCall : Type := mkBddCall {
  kind : BddCallKind;
  node : Node;
  depth : nat;
  modifier : option CallModifier
}.

Definition kindOfName (s : string) : option BddCallKind :=
  if String.eqb s "given" then Some given
  else if String.eqb s "when" then Some when
  else if String.eqb s "it" then Some it
  else None.

Definition modifierOfName (s : string) : option CallModifier :=
  if String.eqb s "skip" then Some skip
  else if String.eqb s "only" then Some only
  else None.

(** Detect whether a call expression is a BDD call (given/when/it),
    potentially with a [.skip] or [.only] modifier. *)
Definition parseBddCall (node : Node) : option (BddCallKind * option CallModifier) :=
  match expression node with
  | None => None
  | Some expr =>
      if isKind Identifier expr then
        match kindOfName (text expr) with
        | Some k => Some (k, None)
        | None => None
        end
      else if isKind PropertyAccessExpression expr then
        match expression expr, name expr with
        | Some obj, Some prop =>
            if isKind Identifier obj then
              match kindOfName (text obj), modifierOfName (text prop) with
              | Some k, Some m => Some (k, Some m)
              | _, _ => None
              end
            else None
        | _, _ => None
        end
      else None
  end.

(** [ts.isCallExpression(node)] followed by [parseBddCall(node)]. *)
Definition parsedCall (node : Node) : option (BddCallKind * option CallModifier) :=
  if isKind CallExpression node then parseBddCall node else None.

(** Checks if a node references a specific identifier name anywhere in its
    subtree; with [skipItCallbacks], of a BDD call only the first argument
    (the description) is searched. *)
Fixpoint referencesIdentifier (node : Node) (name : string) (skipItCallbacks : bool) : bool :=
  match node with
  | mkNode k _ _ t cs offset =>
      if kind_eqb k Identifier && String.eqb t name then true
      else if skipItCallbacks && isSome (parsedCall node) then
        (* [node.arguments[0]]: the child after the callee and after the
           [offset] children that stand before the arguments *)
        (fix firstArg (i : nat) (l : list Node) {struct l} : bool :=
           match l with
           | [] => false
           | c :: l' =>
               match i with
               | 0 => referencesIdentifier c name skipItCallbacks
               | S i' => firstArg i' l'
               end
           end) (S offset) cs
      else List.existsb (fun child => referencesIdentifier child name skipItCallbacks) cs
  end.

(** The recursive walk of [collectBddCalls]; the calls it pushes, in the
    order it pushes them. *)
Fixpoint visit (node : Node) (depth : nat) (insideGiven : bool) : list BddCall :=
  match node with
  | mkNode _ _ _ _ cs _ =>
      match parsedCall node with
      | Some (k, m) =>
          (if BddCallKind_eqb k given || insideGiven
           then [mkBddCall k node depth m] else [])
          ++ List.flat_map
               (fun child => visit child (depth + 1) (insideGiven || BddCallKind_eqb k given))
               cs
      | None => List.flat_map (fun child => visit child depth insideGiven) cs
      end
  end.

Definition collectBddCalls (sourceFile : Node) : list BddCall :=
  List.flat_map (fun child => visit child 0 false) (children sourceFile).

Definition getNodeText (code : string) (node : Node) : string :=
  slice code (start node) (end_ node).

(** Check if an expression is (or wraps via [as] / [satisfies] /
    parentheses) an object literal. *)
Fixpoint isObjectLiteralLike (node : Node) : bool :=
  match node with
  | mkNode k _ _ _ cs _ =>
      if kind_eqb k ObjectLiteralExpression then true
      else if kind_eqb k AsExpression || kind_eqb k SatisfiesExpression
              || kind_eqb k ParenthesizedExpression then
        match cs with
        | e :: _ => isObjectLiteralLike e
        | [] => false
        end
      else false
  end.

Definition isFunctionLike (arg : Node) : bool :=
  isKind ArrowFunction arg || isKind FunctionExpression arg.

(** The last argument that is an arrow function or function expression. *)
Definition getCallbackArg (node : Node) : option Node :=
  List.find isFunctionLike (List.rev (arguments node)).

(** The body statements of a callback; [None] if the body is a single
    expression (no block). *)
Definition getBodyStatements (callback : Node) : option (list Node) :=
  match body callback with
  | Some b => if isKind Block b then Some (statements b) else None
  | None => None
  end.

(** The end of the callback header: after [=>] for an arrow function, at
    the body block for a function expression. *)
Definition getCallbackHeaderEnd (callback : Node) : nat :=
  if isKind ArrowFunction callback then
    match equalsGreaterThanToken callback with
    | Some tok => end_ tok
    | None => end_ callback
    end
  else
    match body callback with
    | Some b => start b
    | None => end_ callback
    end.

(** [stmt] is [<slot> = EXPR]; gives the binary expression. *)
Definition assignmentTo (slot : string) (stmt : Node) : option Node :=
  if isKind ExpressionStatement stmt then
    match expression stmt with
    | Some expr =>
        if isKind BinaryExpression expr then
          match operatorToken expr, left expr with
          | Some op, Some l =>
              if isKind EqualsToken op && isKind Identifier l && String.eqb (text l) slot
              then Some expr else None
          | _, _ => None
          end
        else None
    | None => None
    end
  else None.

Definition isInputsAssignment (stmt : Node) : bool := isSome (assignmentTo "$inputs" stmt).
Definition isSubjectAssignment (stmt : Node) : bool := isSome (assignmentTo "$subject" stmt).

(** [$inputs.PROP = EXPR] *)
Definition isInputsModifier (stmt : Node) : bool :=
  if isKind ExpressionStatement stmt then
    match expression stmt with
    | Some expr =>
        if isKind BinaryExpression expr then
          match operatorToken expr, left expr with
          | Some op, Some l =>
              isKind EqualsToken op && isKind PropertyAccessExpression l &&
              match expression l with
              | Some obj => isKind Identifier obj && String.eqb (text obj) "$inputs"
              | None => false
              end
          | _, _ => false
          end
        else false
    | None => false
    end
  else false.

(** The statement is an [it()] call (or [it.skip] / [it.only]). *)
Definition isItCall (stmt : Node) : bool :=
  if isKind ExpressionStatement stmt then
    match expression stmt with
    | Some e =>
        match parsedCall e with
        | Some (k, _) => BddCallKind_eqb k it
        | None => false
        end
    | None => false
    end
  else false.

(** The statement references [$subject] (but is not an [it()] call). *)
Definition isPerformStatement (stmt : Node) : bool :=
  if isItCall stmt then false else referencesIdentifier stmt "$subject" true.

(** [while (end < code.length && (code[end] === "\n" || code[end] === "\r")) end++] *)
Fixpoint leadingNewlines (s : string) : nat :=
  match s with
  | String c s' =>
      if (Ascii.eqb c (Ascii.ascii_of_nat 10) || Ascii.eqb c (Ascii.ascii_of_nat 13))%bool
      then S (leadingNewlines s') else 0
  | EmptyString => 0
  end.

Definition skipNewlines (code : string) (e : nat) : nat :=
  e + leadingNewlines (String.substring e (String.length code - e) code).

Definition removeStatement (code : string) (stmt : Node) : Edit :=
  Remove (start stmt) (skipNewlines code (end_ stmt)).

Definition asyncPrefix (callback : Node) : string :=
  if List.existsb (isKind AsyncKeyword) (children callback) then "async " else "".

Definition modifierName (m : CallModifier) : string :=
  match m with skip => "skip" | only => "only" end.

(** The expression-bodied factory text of a right-hand side. *)
Definition factoryBody (code : string) (binExpr : Node) : string :=
  match right binExpr with
  | Some r =>
      let exprText := getNodeText code r in
      if isObjectLiteralLike r then "(" +:+ exprText +:+ ")" else exprText
  | None => ""
  end.

(** The loop of [transformGiven] over the callback's statements:
    [inputsExpr], [subjectExpr] and [stmtsToRemove] after the loop. *)
Definition scanGiven (code : string) (stmts : list Node)
  : option string * option string * list Node :=
  List.fold_left
    (fun '(inputsExpr, subjectExpr, stmtsToRemove) stmt =>
       match assignmentTo "$inputs" stmt with
       | Some binExpr => (Some (factoryBody code binExpr), subjectExpr, stmtsToRemove ++ [stmt])
       | None =>
           match assignmentTo "$subject" stmt with
           | Some binExpr => (inputsExpr, Some (factoryBody code binExpr), stmtsToRemove ++ [stmt])
           | None => (inputsExpr, subjectExpr, stmtsToRemove)
           end
       end)
    stmts (None, None, []).

Definition givenConfigParts (inputsExpr subjectExpr : option string) : list string :=
  (match inputsExpr with Some e => ["inputs: () => " +:+ e] | None => [] end)
  ++ (match subjectExpr with Some e => ["subject: ($inputs) => " +:+ e] | None => [] end).

Definition configObj (configParts : list string) : string :=
  "{ " +:+ String.concat ", " configParts +:+ " }".

(** Offsets of the callee, of the end of the first argument and of the end
    of the last argument of a call.  The defaults are never used on a call
    that has a callee and a callback among its arguments. *)
Definition calleeStart (node : Node) : nat :=
  match expression node with Some e => start e | None => start node end.
Definition calleeEnd (node : Node) : nat :=
  match expression node with Some e => end_ e | None => start node end.
Definition descEnd (node : Node) : nat :=
  match arguments node with a :: _ => end_ a | [] => end_ node end.
Definition lastArgEnd (node : Node) : nat :=
  match List.rev (arguments node) with a :: _ => end_ a | [] => end_ node end.

Definition transformGiven (call : BddCall) (code : string) : list Edit :=
  let node := node call in
  match getCallbackArg node with
  | None => []
  | Some callback =>
      match getBodyStatements callback with
      | None => []
      | Some stmts =>
          let '(inputsExpr, subjectExpr, stmtsToRemove) := scanGiven code stmts in
          List.map (removeStatement code) stmtsToRemove
          ++ [Overwrite (calleeStart node) (calleeEnd node) "__given";
              AppendLeft (descEnd node)
                (", " +:+ configObj (givenConfigParts inputsExpr subjectExpr));
              Overwrite (start callback) (getCallbackHeaderEnd callback)
                (asyncPrefix callback +:+ "(__ctx) =>")]
          ++ match modifier call with
             | Some m => [AppendLeft (lastArgEnd node) (", describe." +:+ modifierName m)]
             | None => []
             end
      end
  end.

(** The classification loop of [transformWhen]:
    [modifierStmts], [performStmts], [bodyStmts]. *)
Definition classifyWhen (stmts : list Node) : list Node * list Node * list Node :=
  List.fold_left
    (fun '(modifierStmts, performStmts, bodyStmts) stmt =>
       if isInputsModifier stmt then (modifierStmts ++ [stmt], performStmts, bodyStmts)
       else if isPerformStatement stmt then (modifierStmts, performStmts ++ [stmt], bodyStmts)
       else (modifierStmts, performStmts, bodyStmts ++ [stmt]))
    stmts ([], [], []).

Definition whenConfigParts (code : string) (modifierStmts performStmts : list Node)
  : list string :=
  (if 0 <? length modifierStmts
   then ["modifier: ($inputs) => { "
         +:+ String.concat " " (List.map (getNodeText code) modifierStmts) +:+ " }"]
   else [])
  ++ (if 0 <? length performStmts
      then ["perform: ($subject) => { "
            +:+ String.concat " " (List.map (getNodeText code) performStmts) +:+ " }"]
      else []).

Definition transformWhen (call : BddCall) (code : string) : list Edit :=
  let node := node call in
  match getCallbackArg node with
  | None => []
  | Some callback =>
      match getBodyStatements callback with
      | None => []
      | Some stmts =>
          let '(modifierStmts, performStmts, _) := classifyWhen stmts in
          List.map (removeStatement code) (modifierStmts ++ performStmts)
          ++ [Overwrite (calleeStart node) (calleeEnd node) "__when";
              AppendLeft (descEnd node)
                (", " +:+ configObj (whenConfigParts code modifierStmts performStmts));
              Overwrite (start callback) (getCallbackHeaderEnd callback)
                (asyncPrefix callback +:+ "(__ctx) =>");
              AppendLeft (lastArgEnd node)
                match modifier call with
                | Some m => ", __ctx, describe." +:+ modifierName m
                | None => ", __ctx"
                end]
      end
  end.

Definition transformIt (call : BddCall) (code : string) : list Edit :=
  let node := node call in
  match getCallbackArg node with
  | None => []
  | Some callback =>
      [Overwrite (calleeStart node) (calleeEnd node) "__it";
       Overwrite (start callback) (getCallbackHeaderEnd callback)
         (asyncPrefix callback +:+ "($subject) =>");
       AppendLeft (lastArgEnd node)
         match modifier call with
         | Some m => ", __ctx, test." +:+ modifierName m
         | None => ", __ctx"
         end]
  end.

(** Does the file explicitly import [given] from a module (a named import
    whose local name is [given])? *)
Definition importsGiven (sourceFile : Node) : bool :=
  List.existsb
    (fun stmt =>
       isKind ImportDeclaration stmt &&
       match importClause stmt with
       | Some clause =>
           match namedBindings clause with
           | Some bindings =>
               isKind NamedImports bindings &&
               List.existsb
                 (fun spec =>
                    match name spec with
                    | Some n => String.eqb (text n) "given"
                    | None => false
                    end)
                 (elements bindings)
           | None => false
           end
       | None => false
       end)
    (statements sourceFile).

(** [calls.sort((a, b) => b.depth - a.depth)]: deepest first, calls of
    equal depth stay in the order they were collected. *)
Fixpoint insertByDepth (c : BddCall) (l : list BddCall) : list BddCall :=
  match l with
  | [] => [c]
  | d :: l' => if depth d <? depth c then c :: d :: l' else d :: insertByDepth c l'
  end.

Definition sortByDepth (calls : list BddCall) : list BddCall :=
  List.fold_left (fun sorted c => insertByDepth c sorted) calls [].

Definition helperName (k : BddCallKind) : string :=
  match k with given => "__given" | when => "__when" | it => "__it" end.

(** The vitest primitive a skip/only call needs imported. *)
Definition vitestImport (call : BddCall) : option string :=
  match modifier call with
  | Some _ => Some (match kind call with it => "test" | _ => "describe" end)
  | None => None
  end.

(** [Set<string>.add] on an insertion-ordered set. *)
Definition setAdd (x : string) (s : list string) : list string :=
  if List.existsb (String.eqb x) s then s else s ++ [x].

(** [Array.from(set).sort()] *)
Fixpoint insertString (x : string) (l : list string) : list string :=
  match l with
  | [] => [x]
  | y :: l' => if String.leb x y then x :: y :: l' else y :: insertString x l'
  end.

Definition sortStrings (l : list string) : list string :=
  List.fold_right insertString [] l.

Definition transformCall (call : BddCall) (code : string) : list Edit :=
  match kind call with
  | given => transformGiven call code
  | when => transformWhen call code
  | it => transformIt call code
  end.

Definition runtimeImport (usedHelpers : list string) : string :=
  "import { " +:+ String.concat ", " (sortStrings usedHelpers) +:+ " } from "
  +:+ dq +:+ "@michaelhelvey/vitest-bdd/runtime" +:+ dq +:+ ";" +:+ nl.

Definition vitestImportLine (usedVitestImports : list string) : string :=
  "import { " +:+ String.concat ", " (sortStrings usedVitestImports) +:+ " } from "
  +:+ dq +:+ "vitest" +:+ dq +:+ ";" +:+ nl.

(** The result object; its [map] (the source map) is not modelled. *)
Record TransformResult : Type := mkResult { code : string }.

(** [sourceFile] stands for [ts.createSourceFile(id, code, ...)]: the
    parser is TypeScript's, so the tree is handed in next to the text it was
    parsed from.  [None] is the [null] the function returns on a file it
    leaves alone. *)
Definition transformBddSyntax (code id : string) (sourceFile : Node)
  : option TransformResult :=
  if importsGiven sourceFile then None
  else
    let calls := collectBddCalls sourceFile in
    if length calls =? 0 then None
    else
      let s := Ms.create code in
      let calls := sortByDepth calls in
      let '(s, usedHelpers, usedVitestImports) :=
        List.fold_left
          (fun '(s, usedHelpers, usedVitestImports) call =>
             (applyAll (transformCall call code) s,
              setAdd (helperName (kind call)) usedHelpers,
              match vitestImport call with
              | Some x => setAdd x usedVitestImports
              | None => usedVitestImports
              end))
          calls (s, [], []) in
      let imports := runtimeImport usedHelpers in
      let imports :=
        if 0 <? length usedVitestImports
        then imports +:+ vitestImportLine usedVitestImports
        else imports in
      let s := prepend (imports +:+ nl) s in
      Some (mkResult (toString s))
  .

(** *** Vocabulary of the statements below *)

(** Every node of a subtree, in the order [ts.forEachChild] reaches them,
    each with its ancestors (nearest first). *)
Fixpoint occurrences (ancestors : list Node) (n : Node) : list (list Node * Node) :=
  match n with
  | mkNode _ _ _ _ cs _ =>
      (ancestors, n) :: List.flat_map (occurrences (n :: ancestors)) cs
  end.

Definition fileOccurrences (sourceFile : Node) : list (list Node * Node) :=
  List.flat_map (occurrences []) (children sourceFile).

(** The node is a recognized call / a recognized [given] call. *)
Definition isRecognized (n : Node) : bool := isSome (parsedCall n).
Definition isGivenCall (n : Node) : bool :=
  match parsedCall n with
  | Some (k, _) => BddCallKind_eqb k given
  | None => false
  end.

(** What [collectBddCalls] records about one node of the file, if it
    records it: a recognized call is recorded when it is a [given] or has a
    recognized [given] call among its ancestors; its depth is the number of
    recognized calls among its ancestors. *)
Definition collectedAt (o : list Node * Node) : option BddCall :=
  let '(ancestors, n) := o in
  match parsedCall n with
  | Some (k, m) =>
      if BddCallKind_eqb k given || List.existsb isGivenCall ancestors
      then Some (mkBddCall k n (length (List.filter isRecognized ancestors)) m)
      else None
  | None => None
  end.

(** [Reaches n d]: the reference scan started at [n] gets to [d].  It goes
    from a node to each of its children, except that from a recognized call
    it goes to the first argument only. *)
Inductive Reaches : Node -> Node -> Prop :=
| reach_here n : Reaches n n
| reach_child n c d :
    isRecognized n = false -> In c (children n) -> Reaches c d -> Reaches n d
| reach_description n a rest d :
    isRecognized n = true -> arguments n = a :: rest -> Reaches a d -> Reaches n d.

Definition isIdentifierNamed (name : string) (n : Node) : bool :=
  isKind Identifier n && String.eqb (text n) name.

(** An object literal, possibly inside [as], [satisfies] or parentheses. *)
Inductive ObjectLiteralLike : Node -> Prop :=
| oll_literal n : Ts.kind n = ObjectLiteralExpression -> ObjectLiteralLike n
| oll_wrapped n e :
    Ts.kind n = AsExpression \/ Ts.kind n = SatisfiesExpression
    \/ Ts.kind n = ParenthesizedExpression ->
    expression n = Some e -> ObjectLiteralLike e -> ObjectLiteralLike n.

(** The class the loop of [transformWhen] puts a statement in. *)
Inductive StatementClass : Type := ModifierStmt | PerformStmt | BodyStmt.

Definition classOf (stmt : Node) : StatementClass :=
  if isInputsModifier stmt then ModifierStmt
  else if negb (isItCall stmt) && referencesIdentifier stmt "$subject" true then PerformStmt
  else BodyStmt.

Definition hasClass (c : StatementClass) (stmt : Node) : bool :=
  match c, classOf stmt with
  | ModifierStmt, ModifierStmt | PerformStmt, PerformStmt | BodyStmt, BodyStmt => true
  | _, _ => false
  end.

(** The reference scan as the specification words it: anywhere in the
    subtree, without descending into the callback (the last function-valued
    argument) of a recognized call.  [skip] is the index, among the
    children, of the child not to descend into. *)
Definition callbackIndex (n : Node) : option nat :=
  if isRecognized n then
    match List.find (fun '(_, a) => isFunctionLike a)
            (List.rev (List.combine
                         (List.seq (S (argumentsOffset n)) (length (arguments n)))
                         (arguments n))) with
    | Some (i, _) => Some i
    | None => None
    end
  else None.

Fixpoint referencesOutsideCallbacks (node : Node) (name : string) : bool :=
  match node with
  | mkNode k _ _ t cs _ =>
      if kind_eqb k Identifier && String.eqb t name then true
      else
        (fix scan (i : nat) (l : list Node) : bool :=
           match l with
           | [] => false
           | c :: l' =>
               (if match callbackIndex node with
                   | Some j => i =? j
                   | None => false
                   end
                then false else referencesOutsideCallbacks c name)
               || scan (S i) l'
           end) 0 cs
  end.

(** The factory body [transformGiven] derives from an assignment statement
    to [slot]. *)
Definition slotBody (code slot : string) (stmt : Node) : string :=
  match assignmentTo slot stmt with
  | Some binExpr => factoryBody code binExpr
  | None => ""
  end.

(** The value a variable holds after a loop that assigns it each of [l] in
    turn, starting from [d]. *)
Definition lastAssigned {A : Type} (d : option A) (l : list A) : option A :=
  List.fold_left (fun _ x => Some x) l d.

(** The file "already imports the internal registration functions", as the
    specification words it: a named import whose local name is [__given],
    [__when] or [__it].  The source has no such check; this is the
    condition the specification names. *)
Definition importsRegistrationFunction (sourceFile : Node) : bool :=
  List.existsb
    (fun stmt =>
       isKind ImportDeclaration stmt &&
       match importClause stmt with
       | Some clause =>
           match namedBindings clause with
           | Some bindings =>
               isKind NamedImports bindings &&
               List.existsb
                 (fun spec =>
                    match name spec with
                    | Some n =>
                        String.eqb (text n) "__given" || String.eqb (text n) "__when"
                        || String.eqb (text n) "__it"
                    | None => false
                    end)
                 (elements bindings)
           | None => false
           end
       | None => false
       end)
    (statements sourceFile).

End Transform.

(* ===================================================================== *)
(** ** runtime.ts *)
(* ===================================================================== *)

Module Runtime.

(** A callback is known by its name; what it does when called is looked up
    in the [Code] of the test file.  Objects live at locations. *)
Abbreviation FnId := string (only parsing).
Abbreviation loc := nat (only parsing).

(** *** Registration time: contexts and their chains

    The chains of a context are JavaScript arrays, so they live in a store
    and a context holds references to them. *)
Record RuntimeContext : Type := mkContext {
  inputs : FnId;
  subject : FnId;
  modifiers : loc;
  performs : loc
}.

Record GivenConfig : Type := mkGivenConfig {
  g_inputs : FnId;
  g_subject : FnId
}.

Record WhenConfig : Type := mkWhenConfig {
  modifier : option FnId;
  perform : option FnId
}.

(** The arrays allocated so far. *)
Abbreviation Store := (list (list string)) (only parsing).

Definition alloc (arr : list FnId) (st : Store) : loc * Store :=
  (length st, st ++ [arr]).

(** Reading an array through a reference (for spreading or iterating);
    every reference a context holds was allocated when it was built. *)
Definition readArr (st : Store) (r : loc) : list FnId :=
  match st !! r with
  | Some arr => arr
  | None => []
  end.

(** [...(config.modifier ? [config.modifier] : [])] *)
Definition optional (o : option FnId) : list FnId :=
  match o with
  | Some f => [f]
  | None => []
  end.

Section WithValues.

(** The values of the objects test callbacks work on. *)
Context {Val : Type}.

(** *** Execution time: a heap of objects, and the log of a case *)

Local Abbreviation Heap := (list Val) (only parsing).

(** What a call of a [perform] or of a test body leaves behind: nothing, or
    a promise, given by the work that remains until it settles. *)
Definition Pending : Type := option (Heap -> Heap).

(** What each callback of the test file does. *)
Record Code : Type := mkCode {
  inputsCode : FnId -> Heap -> loc * Heap;
  modifierCode : FnId -> loc -> Heap -> Heap;
  subjectCode : FnId -> loc -> Heap -> loc * Heap;
  performCode : FnId -> loc -> Heap -> Pending * Heap;
  testCode : FnId -> loc -> Heap -> Pending * Heap
}.

(** The steps an executing case takes. *)
Inductive Step : Type :=
| CallInputs (f : FnId) (ret : loc)
| CallModifier (f : FnId) (arg : loc)
| CallSubject (f : FnId) (arg ret : loc)
| CallPerform (f : FnId) (arg : loc)
| AwaitPerform (f : FnId)
| CallTest (f : FnId) (arg : loc)
| AwaitTest (f : FnId).

(** Each step is logged with the heap it started from. *)
Definition Log : Type := list (Step * Heap).

(** The object a step hands to the callback it calls, as that callback
    sees it when it is entered. *)
Definition seen (entry : Step * Heap) : option Val :=
  match entry with
  | (CallModifier _ arg, h) | (CallSubject _ arg _, h)
  | (CallPerform _ arg, h) | (CallTest _ arg, h) => h !! arg
  | _ => None
  end.

(** [await p]: the rest of the caller runs once [p] has settled. *)
Definition await (p : Pending) (h : Heap) : Heap :=
  match p with
  | Some rest => rest h
  | None => h
  end.

Variable code : Code.

(** [for (const mod of ctx.modifiers) mod(inputs)] *)
Fixpoint runModifiers (mods : list FnId) (inputs : loc) (h : Heap) (log : Log) : Heap * Log :=
  match mods with
  | [] => (h, log)
  | m :: rest =>
      runModifiers rest inputs (modifierCode code m inputs h)
        (log ++ [(CallModifier m inputs, h)])
  end.

(** [for (const perform of ctx.performs) await perform(subject)] *)
Fixpoint runPerforms (perfs : list FnId) (subject : loc) (h : Heap) (log : Log) : Heap * Log :=
  match perfs with
  | [] => (h, log)
  | perform :: rest =>
      let '(p, h1) := performCode code perform subject h in
      let h2 := await p h1 in
      runPerforms rest subject h2
        (log ++ [(CallPerform perform subject, h); (AwaitPerform perform, h1)])
  end.

(** An executable test case: what the host runner calls to execute it, in
    the store and heap of that moment. *)
Definition Exec : Type := Store -> Heap -> Log * Heap.

(** The [async () => { ... }] that [__it] hands to the test runner. *)
Definition itBody (testFn : FnId) (ctx : RuntimeContext) : Exec :=
  fun st h0 =>
    let '(inputs, h1) := inputsCode code (Runtime.inputs ctx) h0 in
    let log := [(CallInputs (Runtime.inputs ctx) inputs, h0)] in
    let '(h2, log) := runModifiers (readArr st (modifiers ctx)) inputs h1 log in
    let '(subject, h3) := subjectCode code (Runtime.subject ctx) inputs h2 in
    let log := log ++ [(CallSubject (Runtime.subject ctx) inputs subject, h2)] in
    let '(h4, log) := runPerforms (readArr st (performs ctx)) subject h3 log in
    let '(p, h5) := testCode code testFn subject h4 in
    let h6 := await p h5 in
    (log ++ [(CallTest testFn subject, h4); (AwaitTest testFn, h5)], h6).

(** *** The host runner

    [describe] and [test] are vitest's.  A registration call runs in the
    store of the moment and reports the tasks it registered; [describe]
    runs its callback at once and groups what the callback registered. *)
Inductive Mode : Type := Normal | Skip | Only.

Inductive Task : Type :=
| Suite (name : string) (mode : Mode) (tasks : list Task)
| TestCase (name : string) (mode : Mode) (fn : Exec).

Definition Reg : Type := Store -> Store * list Task.
Definition DescribeFn : Type := string -> Reg -> Reg.
Definition TestFn : Type := string -> Exec -> Reg.

Definition describeWith (mode : Mode) : DescribeFn :=
  fun name fn st => let '(st', tasks) := fn st in (st', [Suite name mode tasks]).
Definition describe : DescribeFn := describeWith Normal.

Definition testWith (mode : Mode) : TestFn :=
  fun name fn st => (st, [TestCase name mode fn]).
Definition test : TestFn := testWith Normal.

(** Registration calls one after the other, as the statements of a body. *)
Definition seq (a b : Reg) : Reg :=
  fun st => let '(st1, t1) := a st in let '(st2, t2) := b st1 in (st2, t1 ++ t2).

(** The test cases of a task tree, in registration order. *)
Fixpoint cases (t : Task) : list Exec :=
  match t with
  | Suite _ _ tasks => List.flat_map cases tasks
  | TestCase _ _ fn => [fn]
  end.

(** *** The three registration functions *)

(** The context object [__given] builds. *)
Definition givenCtx (config : GivenConfig) (st : Store) : RuntimeContext * Store :=
  let '(mods, st1) := alloc [] st in
  let '(perfs, st2) := alloc [] st1 in
  (mkContext (g_inputs config) (g_subject config) mods perfs, st2).

Definition __given (scenario : string) (config : GivenConfig)
    (body : RuntimeContext -> Reg) (describeFn : DescribeFn) : Reg :=
  describeFn scenario (fun st =>
    let '(ctx, st') := givenCtx config st in
    body ctx st').

(** The context object [__when] builds. *)
Definition whenCtx (config : WhenConfig) (parentCtx : RuntimeContext) (st : Store)
  : RuntimeContext * Store :=
  let '(mods, st1) := alloc (readArr st (modifiers parentCtx) ++ optional (modifier config)) st in
  let '(perfs, st2) := alloc (readArr st1 (performs parentCtx) ++ optional (perform config)) st1 in
  (mkContext (inputs parentCtx) (subject parentCtx) mods perfs, st2).

Definition __when (scenario : string) (config : WhenConfig)
    (body : RuntimeContext -> Reg) (parentCtx : RuntimeContext)
    (describeFn : DescribeFn) : Reg :=
  describeFn scenario (fun st =>
    let '(ctx, st') := whenCtx config parentCtx st in
    body ctx st').

Definition __it (scenario : string) (testFn : FnId) (ctx : RuntimeContext)
    (testRunner : TestFn) : Reg :=
  testRunner scenario (itBody testFn ctx).

(** A [given] whose body is a chain of [when] blocks, one inside the
    other, with one [it] in the innermost. *)
Fixpoint chain (whens : list (string * WhenConfig)) (itName : string) (testFn : FnId)
    (ctx : RuntimeContext) : Reg :=
  match whens with
  | [] => __it itName testFn ctx test
  | (scenario, config) :: inner =>
      __when scenario config (chain inner itName testFn) ctx describe
  end.

(** Contexts along a path of nested [when] blocks: the context each
    block builds from the one above it. *)
Fixpoint descend (path : list WhenConfig) (ctx : RuntimeContext) (st : Store)
  : RuntimeContext * Store :=
  match path with
  | [] => (ctx, st)
  | config :: inner =>
      let '(child, st') := whenCtx config ctx st in
      descend inner child st'
  end.

(** *** Vocabulary of the statements below *)

(** The store only grows. *)
Definition extends (st st' : Store) : Prop := exists more, st' = st ++ more.

(** The steps of one executed case, given the chains of its context and the
    locations the two factories returned. *)
Definition expectedSteps (ctx : RuntimeContext) (mods perfs : list FnId) (testFn : FnId)
    (li ls : loc) : list Step :=
  [CallInputs (inputs ctx) li]
  ++ List.map (fun m => CallModifier m li) mods
  ++ [CallSubject (subject ctx) li ls]
  ++ List.flat_map (fun p => [CallPerform p ls; AwaitPerform p]) perfs
  ++ [CallTest testFn ls; AwaitTest testFn].

(** The inputs factory allocates: a new object, with a value that owes
    nothing to the heap it is allocated in. *)
Definition allocatesFresh (f : Heap -> loc * Heap) : Prop :=
  exists v0, forall h, f h = (length h, h ++ [v0]).

(** The subject factory constructs its result from its argument alone: a
    new object whose value is a function of the value of the argument. *)
Definition constructsFromArg (f : loc -> Heap -> loc * Heap) : Prop :=
  exists mk, forall l h v, h !! l = Some v -> f l h = (length h, h ++ [mk v]).

(** A modifier mutates the object it is given, in place. *)
Definition mutatesArg (f : loc -> Heap -> Heap) : Prop :=
  exists g, forall l h, f l h = alter g l h.

(** A perform or a test body mutates the object it is given, in place, both
    before it returns and while its promise is pending. *)
Definition mutatesArgAsync (f : loc -> Heap -> Pending * Heap) : Prop :=
  exists g (k : option (Val -> Val)),
    forall l h, f l h = (option_map (fun g' => alter g' l) k, alter g l h).

End WithValues.

End Runtime.

(* ===================================================================== *)
(** ** Worked examples *)
(* ===================================================================== *)

(** *** A test file for the runtime: a counter

    The objects are counters ([{ value: n }] and [new Foo(n)]), a value is
    the number they hold.  The callbacks, by name:
    - modifiers: ["set5"] is [inputs.value = 5], any other name doubles;
    - performs: ["inc"] is [subject.inc()], ["incLater"] is an async
      function that increments after a pause;
    - test bodies: ["mutates"] increments the subject, any other name only
      reads it. *)
Module Counter.
Import Runtime.

Definition code : @Code nat :=
  mkCode
    (fun _ h => (length h, h ++ [0]))
    (fun f l h => alter (fun v => if String.eqb f "set5" then 5 else 2 * v) l h)
    (fun _ l h => (length h, h ++ [match h !! l with Some v => v | None => 0 end]))
    (fun f l h =>
       (option_map (fun g' => alter g' l)
          (if String.eqb f "incLater" then Some S else None),
        alter (fun v => if String.eqb f "inc" then S v else v) l h))
    (fun f l h =>
       (option_map (fun g' => alter g' l) None,
        alter (fun v => if String.eqb f "mutates" then S v else v) l h)).

(** The context of [given(...)] after its arrays were allocated, and the
    store then. *)
Definition givenStore : Store := [[]; []].
Definition givenContext : RuntimeContext := mkContext "inputs" "subject" 0 1.

(** A context two [when] blocks down: one modifier, two performs. *)
Definition deepStore : Store := [["set5"]; ["inc"; "incLater"]].
Definition deepContext : RuntimeContext := mkContext "inputs" "subject" 0 1.

End Counter.

(** *** Test files for the transform *)
Module Sources.
Import Ts Fixture.

(** [{ <prop>: <value> }] *)
Definition objLit_ (prop : string) (value : Syn) : Syn :=
  Nd ObjectLiteralExpression
    [Tok "{ "; Nd (OtherKind "PropertyAssignment") [id_ prop; Tok ": "; value]; Tok " }"].
Definition new_ (cls : string) (args : list Syn) : Syn :=
  Nd (OtherKind "NewExpression") (Tok "new " :: id_ cls :: Tok "(" :: commaSep args ++ [Tok ")"]).
Definition import_ (names : list string) (from : string) : Syn :=
  Nd ImportDeclaration
    [Tok "import ";
     Nd ImportClause
       [Nd NamedImports
          (Tok "{ " :: commaSep (List.map (fun n => Nd ImportSpecifier [id_ n]) names)
           ++ [Tok " }"])];
     Tok " from "; str_ from; Tok ";"].
(** [expect(<actual>).toEqual(<expected>);] *)
Definition expect_ (actual expected : Syn) : Syn :=
  stmt_ (call_ (dot_ (call_ (id_ "expect") [actual]) "toEqual") [expected]).

(** Scenario A of the specification, with a [when] block added:
<<
given("a Foo", () => {
  $inputs = { value: 0 };
  $subject = new Foo($inputs.value);
  it("has value 0", () => {
    expect($subject.value).toEqual(0);
  });
  when("the user sets value to 5", () => {
    $inputs.value = 5;
    $subject.inc();
    it("has value 6", async () => {
      expect($subject.value).toEqual(6);
    });
  });
});
>> *)
Definition inputsStmt : Syn := stmt_ (assign_ (id_ "$inputs") (objLit_ "value" (num_ "0"))).
Definition subjectStmt : Syn :=
  stmt_ (assign_ (id_ "$subject") (new_ "Foo" [dot_ (id_ "$inputs") "value"])).
Definition scenarioA : Syn :=
  file_
    [stmt_ (call_ (id_ "given") [str_ "a Foo"; arrow_ (block_ ""
       [inputsStmt;
        subjectStmt;
        stmt_ (call_ (id_ "it") [str_ "has value 0"; arrow_ (block_ "  "
          [expect_ (dot_ (id_ "$subject") "value") (num_ "0")])]);
        stmt_ (call_ (id_ "when") [str_ "the user sets value to 5"; arrow_ (block_ "  "
          [stmt_ (assign_ (dot_ (id_ "$inputs") "value") (num_ "5"));
           stmt_ (call_ (dot_ (id_ "$subject") "inc") []);
           stmt_ (call_ (id_ "it") [str_ "has value 6"; asyncArrow_ (block_ "    "
             [expect_ (dot_ (id_ "$subject") "value") (num_ "6")])])])])])])].



(** A [given] whose inline callback has an expression body:
<<
given("a Foo", () => 1);
>> *)
Definition expressionBody : Syn :=
  file_ [stmt_ (call_ (id_ "given") [str_ "a Foo"; arrow_ (num_ "1")])].

(** The text the transform makes of [expressionBody], laid out again:
<<
import { __given } from "@michaelhelvey/vitest-bdd/runtime";

given("a Foo", () => 1);
>> *)
Definition expressionBodyOutput : Syn :=
  Nd SourceFile
    [import_ ["__given"] "@michaelhelvey/vitest-bdd/runtime"; Tok nl; Tok nl;
     stmt_ (call_ (id_ "given") [str_ "a Foo"; arrow_ (num_ "1")]); Tok nl].

(** A file that imports the internal registration function and still has
    a [given] call:
<<
import { __given } from "@michaelhelvey/vitest-bdd/runtime";
given("a Foo", () => {
  $inputs = { value: 0 };
});
>> *)
Definition importsInternal : Syn :=
  file_
    [import_ ["__given"] "@michaelhelvey/vitest-bdd/runtime";
     stmt_ (call_ (id_ "given") [str_ "a Foo"; arrow_ (block_ "" [inputsStmt])])].

(** An [it] call in the description argument of a [given]:
<<
given(it("named", () => {
}), () => {
});
>> *)
Definition itInDescription : Syn :=
  file_
    [stmt_ (call_ (id_ "given")
       [call_ (id_ "it") [str_ "named"; arrow_ (block_ "" [])];
        arrow_ (block_ "" [])])].

(** A [when] block with a nested [when] call that has [$subject] as its
    third argument:
<<
given("a Foo", () => {
  when("outer", () => {
    when("inner", () => {
    }, $subject);
  });
});
>> *)
Definition thirdArgumentStmt : Syn :=
  stmt_ (call_ (id_ "when") [str_ "inner"; arrow_ (block_ "    " []); id_ "$subject"]).
Definition thirdArgument : Syn :=
  file_
    [stmt_ (call_ (id_ "given") [str_ "a Foo"; arrow_ (block_ ""
       [stmt_ (call_ (id_ "when") [str_ "outer"; arrow_ (block_ "  "
          [thirdArgumentStmt])])])])].

(** Only vitest's own [it], outside any [given]:
<<
describe("plain", () => {
  it("works", () => {
  });
});
>> *)
Definition plainVitest : Syn :=
  file_
    [stmt_ (call_ (id_ "describe") [str_ "plain"; arrow_ (block_ ""
       [stmt_ (call_ (id_ "it") [str_ "works"; arrow_ (block_ "  " [])])])])].

(** vitest's own [it] next to a [given]:
<<
describe("plain", () => {
  it("standalone", () => {
  });
});
given("a Foo", () => {
  $inputs = { value: 0 };
  it("in a scenario", () => {
  });
});
>> *)
Definition mixedFile : Syn :=
  file_
    [stmt_ (call_ (id_ "describe") [str_ "plain"; arrow_ (block_ ""
       [stmt_ (call_ (id_ "it") [str_ "standalone"; arrow_ (block_ "  " [])])])]);
     stmt_ (call_ (id_ "given") [str_ "a Foo"; arrow_ (block_ ""
       [inputsStmt;
        stmt_ (call_ (id_ "it") [str_ "in a scenario"; arrow_ (block_ "  " [])])])])].

(** The calls collected in a test file, by position. *)
Definition collected (file : Syn) (i : nat) : Transform.BddCall :=
  List.nth i (Transform.collectBddCalls (tree file))
    (Transform.mkBddCall Transform.given (tree file) 0 None).

(** The callback of a call. *)
Definition callbackOf (call : Transform.BddCall) : Node :=
  match Transform.getCallbackArg (Transform.node call) with
  | Some callback => callback
  | None => Transform.node call
  end.

(** The direct statements of the callback of a call. *)
Definition callbackStatements (call : Transform.BddCall) : list Node :=
  match Transform.getCallbackArg (Transform.node call) with
  | Some callback =>
      match Transform.getBodyStatements callback with
      | Some stmts => stmts
      | None => []
      end
  | None => []
  end.

End Sources.

(* ===================================================================== *)
(** ** Reading the edit buffer *)
(* ===================================================================== *)

(** The text of the buffer, character by character of the original text,
    and which characters an edit writes to. *)
Module Buffer.
Import Ms.

Definition cellText (cell : Cell) : string := content cell +:+ outro cell.

(** What stands in the output for the [i]-th character of the original
    text: the character itself as long as nothing was done to it, the text
    that replaced it, nothing if it was removed, and after it whatever was
    inserted behind it. *)
Definition textAt (s : MagicString) (i : nat) : string :=
  match cells s !! i with
  | Some cell => cellText cell
  | None => ""
  end.

(** The edit writes to the cell of the [i]-th character. *)
Definition touches (e : Edit) (i : nat) : bool :=
  match e with
  | Remove a b | Overwrite a b _ => (a <=? i) && (i <? b)
  | AppendLeft (S j) _ => j =? i
  | AppendLeft 0 _ => false
  end.

End Buffer.

(* ===================================================================== *)
(** ** Vocabulary for further facts about transform.ts *)
(* ===================================================================== *)

Module TransformTerms.
Import Ts Ms Buffer Transform.

(** [x] stands before [y] in [l]. *)
Definition before {A : Type} (x y : A) (l : list A) : Prop :=
  exists l1 l2 l3, l = l1 ++ x :: l2 ++ y :: l3.

(** Deepest first. *)
Definition deeperFirst (a b : BddCall) : Prop := depth b <= depth a.

(** The calls of one depth, in the order they have in a list. *)
Definition atDepth (d : nat) (calls : list BddCall) : list BddCall :=
  List.filter (fun c => depth c =? d) calls.

(** A line terminator, as the loop after a removed statement tests it. *)
Definition isLineTerminator (c : ascii) : bool :=
  (Ascii.eqb c (Ascii.ascii_of_nat 10) || Ascii.eqb c (Ascii.ascii_of_nat 13))%bool.

(** The usedHelpers and usedVitestImports sets after the loop of
    [transformBddSyntax] over the calls. *)
Definition usedHelpersOf (calls : list BddCall) : list string :=
  List.fold_left (fun used call => setAdd (helperName (kind call)) used) calls [].

Definition usedVitestImportsOf (calls : list BddCall) : list string :=
  List.fold_left
    (fun used call =>
       match vitestImport call with
       | Some x => setAdd x used
       | None => used
       end) calls [].

(** The buffer after the loop of [transformBddSyntax] over the calls. *)
Definition editedBuffer (code : string) (calls : list BddCall) : MagicString :=
  List.fold_left (fun s call => applyAll (transformCall call code) s) calls (create code).

(** The import lines in front of the output. *)
Definition importLines (calls : list BddCall) : string :=
  runtimeImport (usedHelpersOf calls)
  +:+ (if 0 <? length (usedVitestImportsOf calls)
       then vitestImportLine (usedVitestImportsOf calls) else "")
  +:+ nl.

(** No edit of the calls writes to the cell of the [i]-th character. *)
Definition untouchedBy (code : string) (calls : list BddCall) (i : nat) : bool :=
  List.forallb
    (fun call => List.forallb (fun e => negb (touches e i)) (transformCall call code))
    calls.

(** The offsets of a call with an inline callback, as a parsed file has
    them: the callee ends before the first argument does, the first
    argument ends in the text and before the callback starts, the header
    of the callback ends before its statements start, and each statement,
    with the line terminators after it, ends before the last argument
    does. *)
Definition laidOut (code : string) (node callback : Node) (stmts : list Node) : bool :=
  (calleeEnd node <? descEnd node)
  && (descEnd node <=? String.length code)
  && (descEnd node <=? start callback)
  && (start callback <=? getCallbackHeaderEnd callback)
  && (descEnd node <? lastArgEnd node)
  && List.forallb
       (fun stmt =>
          (getCallbackHeaderEnd callback <=? start stmt)
          && (skipNewlines code (end_ stmt) <? lastArgEnd node))
       stmts.

End TransformTerms.

(** *** Further test files for the transform *)
Module MoreSources.
Import Ts Fixture Sources.

(** A skipped [given] that assigns [$inputs] twice, with a focused [it]:
<<
given.skip("a Foo", () => {
  $inputs = { value: 0 };
  $inputs = { value: 1 };
  it.only("has value 1", () => {
  });
});
>> *)
Definition reassigned : Syn :=
  file_
    [stmt_ (call_ (dot_ (id_ "given") "skip") [str_ "a Foo"; arrow_ (block_ ""
       [inputsStmt;
        stmt_ (assign_ (id_ "$inputs") (objLit_ "value" (num_ "1")));
        stmt_ (call_ (dot_ (id_ "it") "only") [str_ "has value 1";
          arrow_ (block_ "  " [])])])])].

(** A [given] with an explicit type argument:
<<
given<Foo>("a Foo", () => {
  $inputs = { value: 0 };
});
>> *)
Definition typedGiven : Syn :=
  file_
    [stmt_ (typedCall_ (id_ "given") [typeRef_ "Foo"]
       [str_ "a Foo"; arrow_ (block_ "" [inputsStmt])])].

(** A [when] with an explicit type argument and [$subject] in its first
    argument, as a statement of a [when] callback:
<<
given("a Foo", () => {
  when("outer", () => {
    when<Foo>($subject.label, () => {
    });
  });
});
>> *)
Definition typedWhenStmt : Syn :=
  stmt_ (typedCall_ (id_ "when") [typeRef_ "Foo"]
    [dot_ (id_ "$subject") "label"; arrow_ (block_ "    " [])]).
Definition typedWhen : Syn :=
  file_
    [stmt_ (call_ (id_ "given") [str_ "a Foo"; arrow_ (block_ ""
       [stmt_ (call_ (id_ "when") [str_ "outer"; arrow_ (block_ "  "
          [typedWhenStmt])])])])].

(** A [given] inside a statement that uses [$subject], in a [when] block:
<<
given("outer", () => {
  when("acts", () => {
    $subject.run(() => {
      given("inner", () => {
        $inputs = { value: 0 };
      });
    });
  });
});
>> *)
Definition givenInPerform : Syn :=
  file_
    [stmt_ (call_ (id_ "given") [str_ "outer"; arrow_ (block_ ""
       [stmt_ (call_ (id_ "when") [str_ "acts"; arrow_ (block_ "  "
          [stmt_ (call_ (dot_ (id_ "$subject") "run") [arrow_ (block_ "    "
             [stmt_ (call_ (id_ "given") [str_ "inner"; arrow_ (block_ "      "
                [inputsStmt])])])])])])])])].

(** The text the transform makes of Scenario A, laid out again:
<<
import { __given, __it, __when } from "@michaelhelvey/vitest-bdd/runtime";

__given("a Foo", { inputs: () => ({ value: 0 }), subject: ($inputs) => new Foo($inputs.value) }, (__ctx) => {
      __it("has value 0", ($subject) => {
    expect($subject.value).toEqual(0);
  }, __ctx);
  __when("the user sets value to 5", { modifier: ($inputs) => { $inputs.value = 5; }, perform: ($subject) => { $subject.inc(); } }, (__ctx) => {
            __it("has value 6", async ($subject) => {
      expect($subject.value).toEqual(6);
    }, __ctx);
  }, __ctx);
});
>> *)
Definition param_ (name : string) : Syn := Nd ParameterDeclaration [id_ name].
Definition arrowOf_ (params : list Syn) (body : Syn) : Syn :=
  Nd ArrowFunction
    (Tok "(" :: commaSep params ++ [Tok ") "; Leaf EqualsGreaterThanToken "=>"; Tok " "; body]).
Definition asyncArrowOf_ (params : list Syn) (body : Syn) : Syn :=
  Nd ArrowFunction
    (Leaf AsyncKeyword "async" :: Tok " (" :: commaSep params
     ++ [Tok ") "; Leaf EqualsGreaterThanToken "=>"; Tok " "; body]).
Definition prop_ (name : string) (value : Syn) : Syn :=
  Nd (OtherKind "PropertyAssignment") [id_ name; Tok ": "; value].
Definition object_ (props : list Syn) : Syn :=
  Nd ObjectLiteralExpression (Tok "{ " :: commaSep props ++ [Tok " }"]).
Definition paren_ (e : Syn) : Syn := Nd ParenthesizedExpression [Tok "("; e; Tok ")"].
(** [{ s1 s2 }] on one line. *)
Definition inlineBlock_ (stmts : list Syn) : Syn :=
  Nd Block (Tok "{ " :: List.flat_map (fun s => [s; Tok " "]) stmts ++ [Tok "}"]).
(** A block whose statements stand behind the white space given with each. *)
Definition blockOf_ (stmts : list (string * Syn)) (ind : string) : Syn :=
  Nd Block (Tok "{" :: Tok nl ::
            List.flat_map (fun s => [Tok (fst s); snd s; Tok nl]) stmts
            ++ [Tok ind; Tok "}"]).

Definition scenarioAOutput : Syn :=
  Nd SourceFile
    [import_ ["__given"; "__it"; "__when"] "@michaelhelvey/vitest-bdd/runtime";
     Tok nl; Tok nl;
     stmt_ (call_ (id_ "__given")
       [str_ "a Foo";
        object_
          [prop_ "inputs" (arrowOf_ [] (paren_ (objLit_ "value" (num_ "0"))));
           prop_ "subject"
             (arrowOf_ [param_ "$inputs"] (new_ "Foo" [dot_ (id_ "$inputs") "value"]))];
        arrowOf_ [param_ "__ctx"] (blockOf_
          [("      ",
            stmt_ (call_ (id_ "__it")
              [str_ "has value 0";
               arrowOf_ [param_ "$subject"] (block_ "  "
                 [expect_ (dot_ (id_ "$subject") "value") (num_ "0")]);
               id_ "__ctx"]));
           ("  ",
            stmt_ (call_ (id_ "__when")
              [str_ "the user sets value to 5";
               object_
                 [prop_ "modifier"
                    (arrowOf_ [param_ "$inputs"] (inlineBlock_
                       [stmt_ (assign_ (dot_ (id_ "$inputs") "value") (num_ "5"))]));
                  prop_ "perform"
                    (arrowOf_ [param_ "$subject"] (inlineBlock_
                       [stmt_ (call_ (dot_ (id_ "$subject") "inc") [])]))];
               arrowOf_ [param_ "__ctx"] (blockOf_
                 [("            ",
                   stmt_ (call_ (id_ "__it")
                     [str_ "has value 6";
                      asyncArrowOf_ [param_ "$subject"] (block_ "    "
                        [expect_ (dot_ (id_ "$subject") "value") (num_ "6")]);
                      id_ "__ctx"]))] "  ");
               id_ "__ctx"]))] "")]);
     Tok nl].

(** The nodes of a test file with their ancestors, by position. *)
Definition occurrence (file : Syn) (i : nat) : list Node * Node :=
  List.nth i (Transform.fileOccurrences (tree file)) ([], tree file).

(** The ancestor of an occurrence at a position, and the ancestors on
    either side of it. *)
Definition ancestor (o : list Node * Node) (i : nat) : Node :=
  List.nth i (fst o) (snd o).

(** The result of the transform on a test file. *)
Definition outputOf (file : Syn) : Transform.TransformResult :=
  match Transform.transformBddSyntax (source file) "a.test.ts" (tree file) with
  | Some result => result
  | None => Transform.mkResult ""
  end.

End MoreSources.

(* ===================================================================== *)
(** ** The run of a case, step by step *)
(* ===================================================================== *)

(** The five steps of an executed case, written out from its chains: who
    is called, on which object, and on which heap, that is, after which
    earlier calls have done their work.  This is what the closure of
    [__it] is compared with. *)
Module Execution.
Import Runtime.

Section WithValues.
Context {Val : Type}.
Variable code : @Code Val.

(** The heap once a promise has settled. *)
Definition settled (p : @Pending Val) (h : list Val) : list Val :=
  match p with
  | Some rest => rest h
  | None => h
  end.

(** The heap after each of [mods] was called, in turn, on [input]. *)
Definition afterModifiers (mods : list string) (input : nat) (h : list Val) : list Val :=
  List.fold_left (fun h m => modifierCode code m input h) mods h.

(** The heap after each of [perfs] was called on [subject] and the promise
    it returned has settled, before the next one was called. *)
Definition afterPerforms (perfs : list string) (subject : nat) (h : list Val) : list Val :=
  List.fold_left
    (fun h p => settled (fst (performCode code p subject h)) (snd (performCode code p subject h)))
    perfs h.

(** The log and the final heap of a case with the factories [inputsFn] and
    [subjectFn], the chains [mods] and [perfs] and the test function
    [testFn], started in [h0]:
    - the inputs factory is called in [h0] and returns [input];
    - the [k]-th modifier is called on [input], in the heap the [k]
      modifiers before it have left;
    - the subject factory is called on [input], in the heap all modifiers
      have left, and returns [subject];
    - the [k]-th perform is called on [subject], in the heap in which the
      [k] performs before it were called and have settled; it is awaited in
      the heap its call has left;
    - the test function is called on [subject], in the heap in which all
      performs have settled, and awaited in the heap its call has left;
    - the case ends in the heap in which the test's promise has settled. *)
Definition expectedRun (inputsFn subjectFn : string) (mods perfs : list string)
    (testFn : string) (h0 : list Val) : @Log Val * list Val :=
  let input := fst (inputsCode code inputsFn h0) in
  let h1 := snd (inputsCode code inputsFn h0) in
  let h2 := afterModifiers mods input h1 in
  let subject := fst (subjectCode code subjectFn input h2) in
  let h3 := snd (subjectCode code subjectFn input h2) in
  let h4 := afterPerforms perfs subject h3 in
  let h5 := snd (testCode code testFn subject h4) in
  ([(CallInputs inputsFn input, h0)]
   ++ imap (fun k m => (CallModifier m input, afterModifiers (take k mods) input h1)) mods
   ++ [(CallSubject subjectFn input subject, h2)]
   ++ List.concat
        (imap (fun k p =>
                 let h := afterPerforms (take k perfs) subject h3 in
                 [(CallPerform p subject, h);
                  (AwaitPerform p, snd (performCode code p subject h))]) perfs)
   ++ [(CallTest testFn subject, h4); (AwaitTest testFn, h5)],
   settled (fst (testCode code testFn subject h4)) h5).

End WithValues.

End Execution.

(* ===================================================================== *)
(** ** Whole scenarios for the runtime *)
(* ===================================================================== *)

(** What the transform makes of the body of a [given] callback, as far as
    the runtime sees it: [__it] and [__when] calls, each [__when] with
    such calls in its own callback, one statement after the other. *)
Module Scenario.
Import Runtime.

Inductive Block : Type :=
| ItBlock (name : string) (mode : Mode) (testFn : string)
| WhenBlock (name : string) (mode : Mode) (config : WhenConfig) (body : list Block).

Section BlockInd.
Variable P : Block -> Prop.
Hypothesis P_it : forall name mode testFn, P (ItBlock name mode testFn).
Hypothesis P_when : forall name mode config body,
  List.Forall P body -> P (WhenBlock name mode config body).

Fixpoint Block_ind' (b : Block) : P b :=
  match b with
  | ItBlock name mode testFn => P_it name mode testFn
  | WhenBlock name mode config body =>
      P_when name mode config body
        ((fix all (bs : list Block) : List.Forall P bs :=
            match bs with
            | [] => @List.Forall_nil Block P
            | b' :: bs' => @List.Forall_cons Block P b' bs' (Block_ind' b') (all bs')
            end) body)
  end.
End BlockInd.

Section WithValues.
Context {Val : Type}.
Variable code : @Code Val.

(** An empty body registers nothing. *)
Definition nothing : @Reg Val := fun st => (st, []).

(** The calls a block stands for, made in the context handed to the
    callback they are in. *)
Fixpoint register (b : Block) (ctx : RuntimeContext) {struct b} : @Reg Val :=
  match b with
  | ItBlock name mode testFn => __it code name testFn ctx (testWith mode)
  | WhenBlock name mode config body =>
      __when name config
        (fun inner =>
           (fix all (bs : list Block) : @Reg Val :=
              match bs with
              | [] => nothing
              | b' :: bs' => seq (register b' inner) (all bs')
              end) body)
        ctx (describeWith mode)
  end.

Definition registerAll (body : list Block) (ctx : RuntimeContext) : @Reg Val :=
  (fix all (bs : list Block) : @Reg Val :=
     match bs with
     | [] => nothing
     | b' :: bs' => seq (register b' ctx) (all bs')
     end) body.

End WithValues.

(** The [it] blocks of a block, in order, each with the configs of the
    [when] blocks around it, outermost first. *)
Fixpoint paths (b : Block) : list (list WhenConfig * string) :=
  match b with
  | ItBlock _ _ testFn => [([], testFn)]
  | WhenBlock _ _ config body =>
      List.map (fun '(path, testFn) => (config :: path, testFn)) (List.flat_map paths body)
  end.

(** The modifiers and the performs along a path. *)
Definition modifiersOf (path : list WhenConfig) : list string :=
  List.flat_map (fun c => optional (modifier c)) path.
Definition performsOf (path : list WhenConfig) : list string :=
  List.flat_map (fun c => optional (perform c)) path.

(** The names and modes of the suites and cases a registration reports,
    as a tree. *)
Inductive Outline : Type :=
| SuiteOutline (name : string) (mode : Mode) (inner : list Outline)
| CaseOutline (name : string) (mode : Mode).

Fixpoint outline {Val : Type} (t : @Task Val) : Outline :=
  match t with
  | Suite name mode tasks => SuiteOutline name mode (List.map outline tasks)
  | TestCase name mode _ => CaseOutline name mode
  end.

Fixpoint blockOutline (b : Block) : Outline :=
  match b with
  | ItBlock name mode _ => CaseOutline name mode
  | WhenBlock name mode _ body => SuiteOutline name mode (List.map blockOutline body)
  end.

End Scenario.

(* ===================================================================== *)
(** ** JavaScript's string methods *)
(* ===================================================================== *)

(** The methods of [String.prototype] that plugin.ts and ts-plugin.ts
    call, and the one shape of regular expression they test file names
    against. *)
Module Js.

(** [s.endsWith(suffix)] *)
Definition endsWith (s suffix : string) : bool :=
  (String.length suffix <=? String.length s)
  && String.eqb
       (String.substring (String.length s - String.length suffix) (String.length suffix) s)
       suffix.

(** [s.includes(sub)] *)
Fixpoint includes (s sub : string) : bool :=
  String.prefix sub s
  || match s with
     | String _ s' => includes s' sub
     | EmptyString => false
     end.

(** [s.substring(a, b)]: both indices are clamped to the length of [s],
    and the smaller of the two is the start. *)
Definition substring (a b : nat) (s : string) : string :=
  let a := Nat.min a (String.length s) in
  let b := Nat.min b (String.length s) in
  String.substring (Nat.min a b) (Nat.max a b - Nat.min a b) s.

(** [/\.(k1|k2|...)\.(e1|e2|...)$/.test(s)]: the pattern is anchored at
    the end only, so it matches when [s] ends with a dot, one of the first
    alternatives, a dot and one of the second alternatives. *)
Definition testDottedSuffix (firsts seconds : list string) (s : string) : bool :=
  List.existsb
    (fun k => List.existsb (fun e => endsWith s ("." +:+ k +:+ "." +:+ e)) seconds)
    firsts.

(** [found ??= f(child)] over the children in turn: the first result that
    is not undefined; [f] is not called again once there is one. *)
Fixpoint firstDefined {A B : Type} (f : A -> option B) (l : list A) : option B :=
  match l with
  | [] => None
  | x :: l' =>
      match f x with
      | Some r => Some r
      | None => firstDefined f l'
      end
  end.

End Js.

(* ===================================================================== *)
(** ** plugin.ts *)
(* ===================================================================== *)

Module Plugin.
Import Ts Transform.

(** [/\.(spec|test)\.(ts|tsx|js|jsx)$/.test(id)] *)
Definition isTestFile (id : string) : bool :=
  Js.testDottedSuffix ["spec"; "test"] ["ts"; "tsx"; "js"; "jsx"] id.

(** The [transform] hook of [vitestBddPlugin()].  [sourceFile] is the tree
    [transformBddSyntax] parses [code] into. *)
Definition transform (code id : string) (sourceFile : Node) : option TransformResult :=
  if negb (isTestFile id) then None
  else transformBddSyntax code id sourceFile.

End Plugin.

(* ===================================================================== *)
(** ** ts-plugin.ts *)
(* ===================================================================== *)

(** The language-service plugin, as far as it works on the syntax tree and
    on the text: the filter of the diagnostics and the lookups by cursor
    position.  What it asks of TypeScript's type checker (the inferred
    types, the property lists) is not modelled. *)
Module TsPlugin.
Import Ts.

(** [/\.(spec|test)\.(ts|tsx)$/] *)
Definition TEST_FILE_PATTERN (fileName : string) : bool :=
  Js.testDottedSuffix ["spec"; "test"] ["ts"; "tsx"] fileName.

Definition SUPPRESSED_CODES : list nat := [2304; 2552; 2580; 2362; 2363; 2322].
Definition MAGIC_GLOBALS : list string := ["$inputs"; "$subject"].

(** A diagnostic, as far as the plugin reads it: its code and its message,
    which is a string or the head of a chain of messages. *)
Inductive DiagnosticMessageChain : Type :=
| mkChain (chainText : string) (next : list DiagnosticMessageChain).

Inductive MessageText : Type :=
| Plain (s : string)
| Chained (chain : DiagnosticMessageChain).

Record Diagnostic : Type := mkDiagnostic {
  code : nat;
  messageText : MessageText
}.

Definition quoted (name : string) : string := "'" +:+ name +:+ "'".

Definition diagnosticMentionsMagicGlobal (diagnostic : Diagnostic) : bool :=
  let msg :=
    match messageText diagnostic with
    | Plain s => s
    | Chained (mkChain s _) => s
    end in
  List.existsb (fun name => Js.includes msg (quoted name)) MAGIC_GLOBALS.

(** [original] is what the wrapped language service reports for the
    file. *)
Definition getFilteredDiagnostics (original : list Diagnostic) (fileName : string)
  : list Diagnostic :=
  if negb (TEST_FILE_PATTERN fileName) then original
  else
    List.filter
      (fun d =>
         if List.existsb (Nat.eqb (code d)) SUPPRESSED_CODES && diagnosticMentionsMagicGlobal d
         then false else true)
      original.

(** The base name of the callee of a call: of [given] and of [given.skip]
    it is [given]. *)
Definition getCallName (node : Node) : option string :=
  match expression node with
  | Some callee =>
      if isKind Identifier callee then Some (text callee)
      else if isKind PropertyAccessExpression callee then
        match expression callee with
        | Some obj => if isKind Identifier obj then Some (text obj) else None
        | None => None
        end
      else None
  | None => None
  end.

Definition isNamed (name : string) (o : option string) : bool :=
  match o with
  | Some s => String.eqb s name
  | None => false
  end.

Definition contains (position : nat) (node : Node) : bool :=
  (start node <=? position) && (position <? end_ node).

(** The [walk] of [findEnclosingGivenCallback].  It recurses into the
    children of a node and into the children of the body of a callback,
    which lie deeper; [fuel] bounds the depth it can go to. *)
Fixpoint walk (position : nat) (fuel : nat) (node : Node) : option Node :=
  match fuel with
  | 0 => None
  | S fuel =>
      let found := Js.firstDefined (walk position fuel) (children node) in
      if isKind CallExpression node && isNamed "given" (getCallName node)
         && (2 <=? length (arguments node)) && contains position node
      then
        match List.nth_error (arguments node) 1 with
        | Some callback =>
            if Transform.isFunctionLike callback && contains position callback then
              match Js.firstDefined (walk position fuel)
                      (match body callback with
                       | Some b => children b
                       | None => []
                       end) with
              | Some deeper => Some deeper
              | None => Some callback
              end
            else found
        | None => found
        end
      else found
  end.

(** The number of levels of a tree. *)
Fixpoint height (node : Node) : nat :=
  match node with
  | mkNode _ _ _ _ cs _ => S (List.list_max (List.map height cs))
  end.

Definition findEnclosingGivenCallback (sourceFile : Node) (position : nat) : option Node :=
  walk position (height sourceFile) sourceFile.

(** The loop of [findMagicAssignmentStatement]. *)
Fixpoint firstAssignment (stmts : list Node) (globalName : string) : option Node :=
  match stmts with
  | [] => None
  | stmt :: rest =>
      if negb (isKind ExpressionStatement stmt) then firstAssignment rest globalName
      else
        match expression stmt with
        | Some expr =>
            if negb (isKind BinaryExpression expr) then firstAssignment rest globalName
            else
              match operatorToken expr, left expr with
              | Some op, Some l =>
                  if negb (isKind EqualsToken op) then firstAssignment rest globalName
                  else if isKind Identifier l && String.eqb (text l) globalName
                  then Some expr
                  else firstAssignment rest globalName
              | _, _ => firstAssignment rest globalName
              end
        | None => firstAssignment rest globalName
        end
  end.

Definition findMagicAssignmentStatement (callbackBody : Node) (globalName : string)
  : option Node :=
  if negb (isKind Block callbackBody) then None
  else firstAssignment (statements callbackBody) globalName.

Definition findMagicAssignment (callbackBody : Node) (globalName : string) : option Node :=
  match findMagicAssignmentStatement callbackBody globalName with
  | Some expr => right expr
  | None => None
  end.

(** [text] is [sourceFile.text]. *)
Definition getMagicGlobalAtDot (text : string) (position : nat) : option string :=
  let textBefore := Js.substring (position - String.length "$subject.") position text in
  List.find (fun name => Js.endsWith textBefore (name +:+ ".")) MAGIC_GLOBALS.

Definition isMagicIdentifierAt (position : nat) (node : Node) : bool :=
  isKind Identifier node && List.existsb (String.eqb (text node)) MAGIC_GLOBALS
  && contains position node.

Fixpoint findAtPosition (position : nat) (node : Node) : option Node :=
  match node with
  | mkNode _ _ _ _ cs _ =>
      if isMagicIdentifierAt position node then Some node
      else Js.firstDefined (findAtPosition position) cs
  end.

Definition getMagicGlobalAtPosition (sourceFile : Node) (position : nat) : option string :=
  match findAtPosition position sourceFile with
  | Some ident => Some (text ident)
  | None => None
  end.

(** *** Vocabulary of the statements below *)

(** [Inside n d]: [d] is [n] or lies below it. *)
Inductive Inside : Node -> Node -> Prop :=
| inside_here n : Inside n n
| inside_child n c d : In c (children n) -> Inside c d -> Inside n d.

(** The nodes of a tree, in the order [ts.forEachChild] reaches them. *)
Fixpoint preorder (n : Node) : list Node :=
  match n with
  | mkNode _ _ _ _ cs _ => n :: List.flat_map preorder cs
  end.

(** [node] is a call of [given] (or [given.<something>]) with at least two
    arguments, the second of them an inline function, and [position] lies
    in the call and in that function. *)
Definition enclosesAsGiven (position : nat) (node : Node) : bool :=
  isKind CallExpression node && isNamed "given" (getCallName node)
  && (2 <=? length (arguments node)) && contains position node
  && match List.nth_error (arguments node) 1 with
     | Some callback => Transform.isFunctionLike callback && contains position callback
     | None => false
     end.

(** The nodes the search goes on to below a callback: those below the
    children of its body. *)
Definition belowBody (callback d : Node) : Prop :=
  exists b c, body callback = Some b /\ In c (children b) /\ Inside c d.

End TsPlugin.

(** Vocabulary for the facts about the diagnostics. *)
Module TsPluginTerms.
Import TsPlugin.

(** The message the filter reads: the message itself, or the head of its
    chain. *)
Definition headText (d : Diagnostic) : string :=
  match messageText d with
  | Plain s => s
  | Chained (mkChain s _) => s
  end.

(** The message quotes one of the magic globals. *)
Definition quotesMagicGlobal (msg : string) : Prop :=
  exists name pre post, In name MAGIC_GLOBALS /\ msg = pre +:+ quoted name +:+ post.

(** The name a kind of call is written with. *)
Definition nameOfKind (k : Transform.BddCallKind) : string :=
  match k with
  | Transform.given => "given"
  | Transform.when => "when"
  | Transform.it => "it"
  end.

End TsPluginTerms.

(* ===================================================================== *)
(** ** index.ts: the test body of the explicit [given] *)
(* ===================================================================== *)

(** [given(scenario, inputs, createWorldState, tests)] of index.ts hands
    [when] to its callback, [when(scenario, modifier, tests)] hands [it],
    and [it(name, testFn)] registers the test body modelled here.  The
    modifier is the caller's code; what matters of it is which of the
    helpers it is handed it uses, in which order, and what it does with
    what they return, so a modifier is the tree of its helper calls.  A
    modifier is taken not to catch what a helper throws, and the perform,
    test and cleanup functions are taken to return normally. *)
Module Legacy.

Section WithValues.

(** The values of input properties, and the world states. *)
Context {V W : Type}.

Inductive Modifier : Type :=
| Return                                                     (* the modifier returns *)
| SetInput (prop : string) (value : V) (next : Modifier)     (* [$.inputs.prop = value] *)
| GetInput (prop : string) (next : option V -> Modifier)     (* [$.inputs.prop] *)
| GetState (next : W -> Modifier)                            (* [$.state] *)
| Perform (performFn : string) (next : Modifier).            (* [$.perform(performFn)] *)

(** The three errors the helpers throw. *)
Inductive Error : Type :=
| InputsModifiedAfterState
| PerformAfterState
| PerformCalledTwice.

(** What a test body calls of the caller's code. *)
Inductive Event : Type :=
| CreateWorldState (testInputs : gmap string V)
| RunPerform (performFn : string)
| RunTest (testFn : string) (worldState : W)
| RunCleanup (cleanupFn : string).

(** The variables of a running test body.  [worldState] and
    [stateCreated] are one field: [Some w] once the state was created,
    with value [w]. *)
Record Vars : Type := mkVars {
  testInputs : gmap string V;
  worldState : option W;
  _performFn : option string;
  events : list Event
}.

Variable createWorldState : gmap string V -> W.

Definition getState (vars : Vars) : W * Vars :=
  match worldState vars with
  | Some w => (w, vars)
  | None =>
      let w := createWorldState (testInputs vars) in
      (w, mkVars (testInputs vars) (Some w) (_performFn vars)
            (events vars ++ [CreateWorldState (testInputs vars)]))
  end.

(** [await modifier({ inputs: inputsProxy, get state() {...}, perform })] *)
Fixpoint runModifier (modifier : Modifier) (vars : Vars) : Error * list Event + Vars :=
  match modifier with
  | Return => inr vars
  | SetInput prop value next =>
      match worldState vars with
      | Some _ => inl (InputsModifiedAfterState, events vars)
      | None =>
          runModifier next
            (mkVars (<[prop := value]> (testInputs vars)) (worldState vars)
               (_performFn vars) (events vars))
      end
  | GetInput prop next => runModifier (next (testInputs vars !! prop)) vars
  | GetState next => let '(w, vars') := getState vars in runModifier (next w) vars'
  | Perform performFn next =>
      match worldState vars with
      | Some _ => inl (PerformAfterState, events vars)
      | None =>
          match _performFn vars with
          | Some _ => inl (PerformCalledTwice, events vars)
          | None =>
              runModifier next
                (mkVars (testInputs vars) (worldState vars) (Some performFn) (events vars))
          end
      end
  end.

Inductive Outcome : Type :=
| Threw (error : Error) (events : list Event)
| Finished (events : list Event).

Definition called (make : string -> Event) (fn : option string) : list Event :=
  match fn with
  | Some f => [make f]
  | None => []
  end.

(** The [async () => { ... }] that [it] hands to [test]; [_cleanupFn] is
    the cleanup function registered by the time the test runs. *)
Definition testBody (inputs : gmap string V) (modifier : Modifier)
    (_cleanupFn : option string) (testFn : string) : Outcome :=
  let vars := mkVars inputs None None [] in
  match runModifier modifier vars with
  | inl (error, events) => Threw error events
  | inr vars =>
      let '(finalState, vars) := getState vars in
      Finished
        (events vars ++ called RunPerform (_performFn vars)
         ++ [RunTest testFn finalState] ++ called RunCleanup _cleanupFn)
  end.

(** *** Vocabulary of the statements below *)

(** The modifier only reads: it neither sets an input nor calls
    [perform], whatever the helpers return to it. *)
Inductive ReadsOnly : Modifier -> Prop :=
| reads_return : ReadsOnly Return
| reads_input prop next : (forall v, ReadsOnly (next v)) -> ReadsOnly (GetInput prop next)
| reads_state next : (forall w, ReadsOnly (next w)) -> ReadsOnly (GetState next).

(** The modifier sets inputs and calls [perform] at most once before it
    first reads the state, and only reads from then on. *)
Inductive WellOrdered : bool -> Modifier -> Prop :=
| ordered_return performed : WellOrdered performed Return
| ordered_set performed prop value next :
    WellOrdered performed next -> WellOrdered performed (SetInput prop value next)
| ordered_get performed prop next :
    (forall v, WellOrdered performed (next v)) -> WellOrdered performed (GetInput prop next)
| ordered_state performed next :
    (forall w, ReadsOnly (next w)) -> WellOrdered performed (GetState next)
| ordered_perform performFn next :
    WellOrdered true next -> WellOrdered false (Perform performFn next).


End WithValues.

Arguments Modifier : clear implicits.
Arguments Event : clear implicits.
Arguments Vars : clear implicits.
Arguments Outcome : clear implicits.

End Legacy.

(* ===================================================================== *)
(** ** Facts about JavaScript's string methods *)
(* ===================================================================== *)

Module JsFacts.
Import Js.

Lemma append_cons c a s : String c a +:+ s = String c (a +:+ s).
Proof. reflexivity. Qed.

Lemma length_append a b : String.length (a +:+ b) = String.length a + String.length b.
Proof.
  induction a as [|c a IH]; [done|].
  rewrite append_cons. cbn [String.length]. by rewrite IH.
Qed.

Lemma append_assoc (a b c : string) : (a +:+ b) +:+ c = a +:+ (b +:+ c).
Proof.
  induction a as [|x a IH]; [done|].
  rewrite !append_cons. by rewrite IH.
Qed.

Lemma prefix_iff a : forall s, String.prefix a s = true <-> exists post, s = a +:+ post.
Proof.
  induction a as [|c a IH]; intros s.
  - split; [intros _; by exists s | by destruct s].
  - destruct s as [|d s]; cbn [String.prefix].
    + split; [done | intros [post H]; by rewrite append_cons in H].
    + destruct (Ascii.ascii_dec c d) as [-> | Hne].
      * rewrite IH. split; intros [post H]; exists post.
        -- rewrite append_cons. by rewrite H.
        -- rewrite append_cons in H. by injection H.
      * split; [done|]. intros [post H]. rewrite append_cons in H. by injection H.
Qed.

Lemma substring_all s : String.substring 0 (String.length s) s = s.
Proof.
  induction s as [|c s IH]; [done|].
  cbn [String.length String.substring]. by rewrite IH.
Qed.

Lemma substring_append_skip a : forall s n,
  String.substring (String.length a) n (a +:+ s) = String.substring 0 n s.
Proof.
  induction a as [|c a IH]; intros s n; [done|].
  rewrite append_cons. cbn [String.length String.substring]. apply IH.
Qed.

Lemma substring_split s : forall n, n <= String.length s ->
  s = String.substring 0 n s +:+ String.substring n (String.length s - n) s.
Proof.
  induction s as [|c s IH]; intros n Hn.
  - cbn [String.length] in Hn. by replace n with 0 by lia.
  - destruct n as [|n].
    + cbn [String.substring]. cbn [String.length Nat.sub]. by rewrite substring_all.
    + cbn [String.length] in *. cbn [String.substring Nat.sub]. rewrite append_cons.
      f_equal. apply IH. lia.
Qed.

Lemma length_substring_0 s : forall n, n <= String.length s ->
  String.length (String.substring 0 n s) = n.
Proof.
  induction s as [|c s IH]; intros n Hn.
  - cbn [String.length] in Hn. by replace n with 0 by lia.
  - destruct n as [|n]; [done|]. cbn [String.length] in *.
    cbn [String.substring String.length]. rewrite IH; lia.
Qed.

(** [s.endsWith(suffix)] holds when [s] is some text followed by
    [suffix]. *)
Lemma endsWith_iff s suffix : endsWith s suffix = true <-> exists pre, s = pre +:+ suffix.
Proof.
  unfold endsWith. rewrite andb_true_iff, Nat.leb_le, String.eqb_eq. split.
  - intros [Hlen Hsub]. exists (String.substring 0 (String.length s - String.length suffix) s).
    pose proof (substring_split s (String.length s - String.length suffix)
                  ltac:(lia)) as H.
    replace (String.length s - (String.length s - String.length suffix))
      with (String.length suffix) in H by lia.
    by rewrite Hsub in H.
  - intros [pre ->]. rewrite length_append. split; [lia|].
    replace (String.length pre + String.length suffix - String.length suffix)
      with (String.length pre) by lia.
    rewrite substring_append_skip. apply substring_all.
Qed.

(** [s.includes(sub)] holds when [sub] stands somewhere in [s]. *)
Lemma includes_iff s : forall sub,
  includes s sub = true <-> exists pre post, s = pre +:+ sub +:+ post.
Proof.
  induction s as [|c s IH]; intros sub; cbn [includes]; rewrite orb_true_iff, prefix_iff.
  - split.
    + intros [[post H] | H]; [|done]. by exists "", post.
    + intros (pre & post & H). left. destruct pre; [by exists post|].
      by rewrite append_cons in H.
  - rewrite IH. split.
    + intros [[post H] | (pre & post & H)]; [by exists "", post|].
      exists (String c pre), post. rewrite append_cons. by rewrite H.
    + intros ([|d pre] & post & H); [left; by exists post|].
      right. rewrite append_cons in H. injection H as _ ->. by exists pre, post.
Qed.

Lemma testDottedSuffix_iff firsts seconds s :
  testDottedSuffix firsts seconds s = true
  <-> exists stem k e,
        s = stem +:+ "." +:+ k +:+ "." +:+ e /\ In k firsts /\ In e seconds.
Proof.
  unfold testDottedSuffix. rewrite List.existsb_exists. split.
  - intros (k & Hk & He). apply List.existsb_exists in He as (e & He & Hends).
    apply endsWith_iff in Hends as [stem ->]. by exists stem, k, e.
  - intros (stem & k & e & -> & Hk & He). exists k. split; [done|].
    apply List.existsb_exists. exists e. split; [done|].
    apply endsWith_iff. by exists stem.
Qed.

Lemma firstDefined_None {A B} (f : A -> option B) (l : list A) :
  firstDefined f l = None <-> forall x, In x l -> f x = None.
Proof.
  induction l as [|x l IH]; cbn [firstDefined].
  - split; [by intros _ x [] | done].
  - destruct (f x) as [r|] eqn:E.
    + split; [done|]. intros H. specialize (H x (or_introl eq_refl)). congruence.
    + rewrite IH. split.
      * intros H y [<- | Hy]; [done | by apply H].
      * intros H y Hy. apply H. by right.
Qed.

Lemma firstDefined_Some {A B} (f : A -> option B) (l : list A) (r : B) :
  firstDefined f l = Some r ->
  exists front x back,
    l = front ++ x :: back /\ f x = Some r /\ forall y, In y front -> f y = None.
Proof.
  induction l as [|x l IH]; cbn [firstDefined]; [done|].
  destruct (f x) as [r'|] eqn:E.
  - intros [= ->]. by exists [], x, l.
  - intros H. destruct (IH H) as (front & y & back & -> & Hy & Hfront).
    exists (x :: front), y, back. split; [done|]. split; [done|].
    intros z [<- | Hz]; [done | by apply Hfront].
Qed.

End JsFacts.

(* ===================================================================== *)
(** ** Facts about the edit buffer *)
(* ===================================================================== *)

Module BufferFacts.
Import Ms Buffer.

Lemma length_apply s e : length (cells (apply s e)) = length (cells s).
Proof.
  destruct e as [a b|a b c|[|j] c]; cbn [apply]; unfold remove, overwrite, appendLeft;
    cbn [cells]; rewrite ?length_imap; try done.
  destruct (j <? length (cells s)); cbn [cells]; [apply length_alter | done].
Qed.

Lemma length_applyAll es : forall s, length (cells (applyAll es s)) = length (cells s).
Proof.
  induction es as [|e es IH]; intros s; [done|].
  cbn [applyAll List.fold_left]. unfold applyAll in IH. by rewrite IH, length_apply.
Qed.

Lemma applyAll_app es1 es2 s : applyAll (es1 ++ es2) s = applyAll es2 (applyAll es1 s).
Proof. unfold applyAll. apply List.fold_left_app. Qed.

(** An edit leaves alone the characters it does not write to. *)
Lemma apply_untouched s e i : touches e i = false -> cells (apply s e) !! i = cells s !! i.
Proof.
  destruct e as [a b|a b c|[|j] c]; cbn [apply touches]; unfold remove, overwrite, appendLeft;
    cbn [cells]; intros Ht.
  - rewrite list_lookup_imap, Ht. by destruct (cells s !! i).
  - rewrite list_lookup_imap. destruct (cells s !! i) as [cell|]; [|done].
    cbn [fmap option_fmap option_map]. apply andb_false_iff in Ht.
    destruct (Nat.eqb_spec i a) as [-> | Hne].
    + destruct (a <? b) eqn:Eab; [|done]. rewrite Nat.leb_refl in Ht.
      destruct Ht; congruence.
    + destruct (a <? i) eqn:Eai; [|done]. cbn [andb].
      destruct Ht as [Ht | Ht]; [|by rewrite Ht].
      apply Nat.leb_gt in Ht. apply Nat.ltb_lt in Eai. lia.
  - done.
  - destruct (j <? length (cells s)); cbn [cells]; [|done].
    apply Nat.eqb_neq in Ht. by apply list_lookup_alter_ne.
Qed.

Lemma applyAll_untouched es i : forall s,
  (forall e, In e es -> touches e i = false) ->
  cells (applyAll es s) !! i = cells s !! i.
Proof.
  induction es as [|e es IH]; intros s Hes; [done|].
  cbn [applyAll List.fold_left]. unfold applyAll in IH. rewrite IH.
  - apply apply_untouched. apply Hes. by left.
  - intros e' He'. apply Hes. by right.
Qed.

Lemma textAt_apply_untouched s e i :
  touches e i = false -> textAt (apply s e) i = textAt s i.
Proof. intros H. unfold textAt. by rewrite apply_untouched. Qed.

Lemma textAt_untouched es i s :
  (forall e, In e es -> touches e i = false) ->
  textAt (applyAll es s) i = textAt s i.
Proof. intros H. unfold textAt. by rewrite applyAll_untouched. Qed.

(** A removed character leaves nothing. *)
Lemma remove_clears a b s i :
  a <= i < b -> textAt (remove a b s) i = "".
Proof.
  intros [Ha Hb]. unfold textAt, remove. cbn [cells]. rewrite list_lookup_imap.
  destruct (cells s !! i); [|done]. cbn [fmap option_fmap option_map].
  apply Nat.leb_le in Ha. apply Nat.ltb_lt in Hb. by rewrite Ha, Hb.
Qed.

(** What is appended at an offset comes behind the character before that
    offset, after what was appended there before. *)
Lemma appendLeft_appends j c s :
  j < length (cells s) ->
  textAt (appendLeft (S j) c s) j = textAt s j +:+ c.
Proof.
  intros Hj. unfold textAt, appendLeft. apply Nat.ltb_lt in Hj as Hj'. rewrite Hj'.
  cbn [cells]. rewrite list_lookup_alter_eq.
  destruct (lookup_lt_is_Some_2 (cells s) j Hj) as [cell ->].
  cbn [fmap option_fmap option_map]. unfold cellText. cbn [content outro].
  symmetry. apply JsFacts.append_assoc.
Qed.

Lemma textAt_apply_append j c s :
  j < length (cells s) ->
  textAt (apply s (AppendLeft (S j) c)) j = textAt s j +:+ c.
Proof. apply appendLeft_appends. Qed.

Lemma append_nil_r s : s +:+ "" = s.
Proof.
  induction s as [|c s IH]; [done|]. rewrite JsFacts.append_cons. by rewrite IH.
Qed.

Lemma concat_cons x l : String.concat "" (x :: l) = x +:+ String.concat "" l.
Proof. destruct l; [by rewrite append_nil_r | done]. Qed.

Lemma concat_app l1 l2 :
  String.concat "" (l1 ++ l2) = String.concat "" l1 +:+ String.concat "" l2.
Proof.
  induction l1 as [|x l1 IH]; [done|].
  rewrite <- app_comm_cons, !concat_cons, IH. symmetry. apply JsFacts.append_assoc.
Qed.

(** The text of the buffer, around one of its characters. *)
Lemma toString_around s j :
  j < length (cells s) ->
  toString s
  = (intro s +:+ String.concat "" (List.map cellText (take j (cells s))))
    +:+ textAt s j
    +:+ String.concat "" (List.map cellText (drop (S j) (cells s))).
Proof.
  intros Hj. unfold toString, textAt.
  destruct (lookup_lt_is_Some_2 (cells s) j Hj) as [cell Hcell]. rewrite Hcell.
  rewrite <- (take_drop_middle (cells s) j cell Hcell) at 1.
  rewrite List.map_app, concat_app. cbn [List.map]. rewrite concat_cons.
  fold (cellText cell). by rewrite JsFacts.append_assoc.
Qed.

Lemma toString_textAt s :
  toString s
  = intro s +:+ String.concat "" (List.map (textAt s) (List.seq 0 (length (cells s)))).
Proof.
  unfold toString. f_equal. f_equal. fold cellText.
  apply list_eq. intros i. rewrite !list_lookup_fmap.
  destruct (decide (i < length (cells s))) as [Hi | Hi].
  - rewrite (lookup_seq_lt 0 (length (cells s)) i Hi).
    cbn [fmap option_fmap option_map Nat.add].
    unfold textAt. by destruct (lookup_lt_is_Some_2 (cells s) i Hi) as [cell ->].
  - rewrite lookup_seq_ge by lia. by rewrite lookup_ge_None_2 by lia.
Qed.

Lemma length_cellsOf code : length (cellsOf code) = String.length code.
Proof. induction code as [|c code IH]; [done|]. cbn [cellsOf length String.length]. by rewrite IH. Qed.

(** Before any edit, each character stands for itself. *)
Lemma textAt_create code : forall i,
  i < String.length code -> textAt (create code) i = String.substring i 1 code.
Proof.
  unfold textAt, create. cbn [cells].
  induction code as [|c code IH]; intros i Hi; [cbn [String.length] in Hi; lia|].
  destruct i as [|i].
  - cbn [cellsOf lookup list_lookup]. unfold cellText. cbn [content outro String.substring].
    by destruct code.
  - cbn [cellsOf String.substring]. cbn [String.length] in Hi.
    rewrite <- IH by lia. done.
Qed.

(** Removing a range leaves an empty cell empty. *)
Lemma remove_keeps_empty a b s i : textAt s i = "" -> textAt (remove a b s) i = "".
Proof.
  unfold textAt, remove. cbn [cells]. rewrite list_lookup_imap.
  destruct (cells s !! i) as [cell|]; [|done]. cbn [fmap option_fmap option_map].
  by destruct ((a <=? i) && (i <? b)).
Qed.

Lemma removals_keep_empty (ranges : list (nat * nat)) i : forall s,
  textAt s i = "" ->
  textAt (applyAll (List.map (fun r => Remove (fst r) (snd r)) ranges) s) i = "".
Proof.
  induction ranges as [|[a b] ranges IH]; intros s Hs; [done|].
  cbn [List.map applyAll List.fold_left apply]. apply IH. by apply remove_keeps_empty.
Qed.

(** Of a list of removals of which one covers a character, nothing is left
    of the character. *)
Lemma removals_clear (ranges : list (nat * nat)) i : forall s,
  (exists r, In r ranges /\ fst r <= i < snd r) ->
  textAt (applyAll (List.map (fun r => Remove (fst r) (snd r)) ranges) s) i = "".
Proof.
  induction ranges as [|[a b] ranges IH]; intros s (r & Hin & Hr); [done|].
  cbn [List.map applyAll List.fold_left apply fst snd].
  destruct Hin as [<- | Hin].
  - apply (removals_keep_empty ranges). by apply remove_clears.
  - apply IH. by exists r.
Qed.

(** A range of a text is its characters one after the other. *)
Lemma substring_by_character code : forall a n,
  a + n <= String.length code ->
  String.concat "" (List.map (fun i => String.substring i 1 code) (List.seq a n))
  = String.substring a n code.
Proof.
  induction code as [|c code IH]; intros a n Hlen.
  - cbn [String.length] in Hlen. assert (a = 0) as -> by lia. by assert (n = 0) as -> by lia.
  - cbn [String.length] in Hlen. destruct a as [|a].
    + destruct n as [|n]; [done|].
      cbn [List.seq List.map]. rewrite concat_cons.
      rewrite <- List.seq_shift, List.map_map.
      cbn [String.substring]. rewrite (IH 0 n) by lia.
      by destruct code.
    + rewrite <- List.seq_shift, List.map_map. cbn [String.substring]. apply IH. lia.
Qed.

(** An overwritten range: the new text stands for its first character,
    nothing for the others. *)
Lemma textAt_apply_overwrite a b c s :
  a < b -> a < length (cells s) ->
  textAt (apply s (Overwrite a b c)) a = c
  /\ forall i, a < i < b -> textAt (apply s (Overwrite a b c)) i = "".
Proof.
  intros Hab Ha. unfold textAt. cbn [apply]. unfold overwrite. cbn [cells]. split.
  - rewrite list_lookup_imap.
    destruct (lookup_lt_is_Some_2 (cells s) a Ha) as [cell ->].
    cbn [fmap option_fmap option_map]. rewrite Nat.eqb_refl.
    apply Nat.ltb_lt in Hab as ->. unfold cellText. cbn [content outro].
    apply append_nil_r.
  - intros i [Hai Hib]. rewrite list_lookup_imap.
    destruct (cells s !! i) as [cell|]; [|done].
    cbn [fmap option_fmap option_map].
    assert ((i =? a) = false) as -> by (apply Nat.eqb_neq; lia).
    apply Nat.ltb_lt in Hai as ->. apply Nat.ltb_lt in Hib as ->. done.
Qed.

End BufferFacts.
(* ===================================================================== *)
(** ** The output as the edited text *)
(* ===================================================================== *)

Module OutputFacts.
Import Ts Ms Buffer Transform TransformTerms.

Lemma toString_prepend_any p s : toString (prepend p s) = p +:+ toString s.
Proof. unfold toString, prepend. cbn [intro cells]. apply JsFacts.append_assoc. Qed.

Lemma loop_components code calls : forall s usedHelpers usedVitestImports,
  List.fold_left
    (fun '(s, usedHelpers, usedVitestImports) call =>
       (applyAll (transformCall call code) s,
        setAdd (helperName (kind call)) usedHelpers,
        match vitestImport call with
        | Some x => setAdd x usedVitestImports
        | None => usedVitestImports
        end))
    calls (s, usedHelpers, usedVitestImports)
  = (List.fold_left (fun s call => applyAll (transformCall call code) s) calls s,
     List.fold_left (fun used call => setAdd (helperName (kind call)) used) calls usedHelpers,
     List.fold_left
       (fun used call =>
          match vitestImport call with
          | Some x => setAdd x used
          | None => used
          end) calls usedVitestImports).
Proof.
  induction calls as [|c calls IH]; intros s h v; [done|].
  cbn [List.fold_left]. apply IH.
Qed.




(** The text a transformed file gets: the import lines, then the text of
    the buffer after the edits of every collected call, deepest first. *)
Lemma output_layout code id sourceFile result :
  transformBddSyntax code id sourceFile = Some result ->
  Transform.code result
  = importLines (sortByDepth (collectBddCalls sourceFile))
    +:+ toString (editedBuffer code (sortByDepth (collectBddCalls sourceFile))).
Proof.
  unfold transformBddSyntax, importLines.
  destruct (importsGiven sourceFile); [done|].
  destruct (length (collectBddCalls sourceFile) =? 0); [done|].
  rewrite loop_components. intros [= <-]. cbn zeta. cbn [Transform.code].
  fold (usedHelpersOf (sortByDepth (collectBddCalls sourceFile))).
  fold (usedVitestImportsOf (sortByDepth (collectBddCalls sourceFile))).
  fold (editedBuffer code (sortByDepth (collectBddCalls sourceFile))).
  rewrite toString_prepend_any.
  destruct (0 <? length (usedVitestImportsOf (sortByDepth (collectBddCalls sourceFile)))).
  - by rewrite !JsFacts.append_assoc.
  - by rewrite !JsFacts.append_assoc.
Qed.

Lemma editedBuffer_app code calls1 calls2 :
  editedBuffer code (calls1 ++ calls2)
  = List.fold_left (fun s call => applyAll (transformCall call code) s) calls2
      (editedBuffer code calls1).
Proof. unfold editedBuffer. apply List.fold_left_app. Qed.

Lemma length_edited code calls : forall s,
  length (cells (List.fold_left (fun s call => applyAll (transformCall call code) s) calls s))
  = length (cells s).
Proof.
  induction calls as [|c calls IH]; intros s; [done|].
  cbn [List.fold_left]. by rewrite IH, BufferFacts.length_applyAll.
Qed.

Lemma length_editedBuffer code calls :
  length (cells (editedBuffer code calls)) = String.length code.
Proof.
  unfold editedBuffer. rewrite length_edited. cbn [create cells].
  apply BufferFacts.length_cellsOf.
Qed.

Lemma untouchedBy_spec code calls i :
  untouchedBy code calls i = true
  <-> forall c e, In c calls -> In e (transformCall c code) -> touches e i = false.
Proof.
  unfold untouchedBy. rewrite List.forallb_forall. split.
  - intros H c e Hc He. specialize (H c Hc). rewrite List.forallb_forall in H.
    specialize (H e He). by apply negb_true_iff.
  - intros H c Hc. apply List.forallb_forall. intros e He. apply negb_true_iff. eauto.
Qed.

(** The calls that do not write to a character leave what stands for it. *)
Lemma edited_untouched code calls i : forall s,
  untouchedBy code calls i = true ->
  textAt (List.fold_left (fun s call => applyAll (transformCall call code) s) calls s) i
  = textAt s i.
Proof.
  induction calls as [|c calls IH]; intros s Hu; [done|].
  cbn [List.fold_left]. cbn [untouchedBy List.forallb] in Hu.
  apply andb_true_iff in Hu as [Hc Hrest]. rewrite IH by exact Hrest.
  apply BufferFacts.textAt_untouched. intros e He.
  rewrite List.forallb_forall in Hc. apply negb_true_iff. by apply Hc.
Qed.

(** The output, character by character of the original text. *)
Lemma output_by_character code id sourceFile result :
  transformBddSyntax code id sourceFile = Some result ->
  let calls := sortByDepth (collectBddCalls sourceFile) in
  Transform.code result
  = importLines calls +:+ intro (editedBuffer code calls)
    +:+ String.concat ""
          (List.map (textAt (editedBuffer code calls)) (List.seq 0 (String.length code))).
Proof.
  intros H calls. rewrite (output_layout _ _ _ _ H). fold calls.
  rewrite BufferFacts.toString_textAt, length_editedBuffer. done.
Qed.

End OutputFacts.
(* ===================================================================== *)
(** ** Facts about the transform *)
(* ===================================================================== *)

Module TransformFacts.
Import Ts Ms Transform.

Lemma kind_eqb_eq a b : kind_eqb a b = true <-> a = b.
Proof. unfold kind_eqb. destruct (SyntaxKind_eq_dec a b); split; congruence. Qed.

Lemma kind_eqb_refl a : kind_eqb a a = true.
Proof. apply kind_eqb_eq. reflexivity. Qed.

Lemma BddCallKind_eqb_eq a b : BddCallKind_eqb a b = true <-> a = b.
Proof. destruct a, b; simpl; split; congruence. Qed.

(** *** The edit buffer *)

Lemma concat_cells s :
  String.concat "" (List.map (fun cell => content cell +:+ outro cell) (cellsOf s)) = s.
Proof.
  induction s as [|c s IH]; [done|].
  cbn [cellsOf List.map content outro].
  destruct s as [|c' s']; [done|].
  cbn [cellsOf List.map String.concat] in *. cbn [String.append] in *.
  by rewrite IH.
Qed.

Lemma append_empty_r s : s +:+ "" = s.
Proof.
  induction s as [|c s IH]; [done|].
  change (String c (s +:+ "") = String c s). by rewrite IH.
Qed.

(** A buffer reads back as the text it was created from. *)
Lemma toString_create s : toString (create s) = s.
Proof. unfold toString, create. cbn [intro cells]. by rewrite concat_cells. Qed.

(** With no edit but [prepend], the text follows what was prepended. *)
Lemma toString_prepend p s : toString (prepend p (create s)) = p +:+ s.
Proof.
  change (toString (prepend p (create s)))
    with ((p +:+ "")
          +:+ String.concat ""
                (List.map (fun cell => content cell +:+ outro cell) (cellsOf s))).
  by rewrite concat_cells, append_empty_r.
Qed.

(** *** What [collectBddCalls] collects *)

Lemma omap_flat_map {A B C} (f : B -> option C) (g : A -> list B) (l : list A) :
  omap f (List.flat_map g l) = List.flat_map (fun x => omap f (g x)) l.
Proof.
  induction l as [|x l IH]; simpl; [done|]. by rewrite omap_app, IH.
Qed.

Lemma flat_map_ext_Forall {A B} (f g : A -> list B) (l : list A) :
  Forall (fun x => f x = g x) l -> List.flat_map f l = List.flat_map g l.
Proof. induction 1 as [|x l Hx _ IH]; simpl; congruence. Qed.

(** The walk records exactly the occurrences [collectedAt] describes, in
    the order of the tree. *)
Lemma visit_occurrences n : forall ancestors,
  visit n (length (List.filter isRecognized ancestors))
    (List.existsb isGivenCall ancestors)
  = omap collectedAt (occurrences ancestors n).
Proof.
  induction n as [k s e t cs ao IH] using Node_ind'. intros ancestors.
  set (n := mkNode k s e t cs ao).
  change (occurrences ancestors n)
    with ((ancestors, n) :: List.flat_map (occurrences (n :: ancestors)) cs).
  change (visit n (length (List.filter isRecognized ancestors))
            (List.existsb isGivenCall ancestors))
    with (match parsedCall n with
          | Some (k, m) =>
              (if BddCallKind_eqb k given || List.existsb isGivenCall ancestors
               then [mkBddCall k n (length (List.filter isRecognized ancestors)) m]
               else [])
              ++ List.flat_map
                   (fun child =>
                      visit child (length (List.filter isRecognized ancestors) + 1)
                        (List.existsb isGivenCall ancestors || BddCallKind_eqb k given))
                   cs
          | None =>
              List.flat_map
                (fun child =>
                   visit child (length (List.filter isRecognized ancestors))
                     (List.existsb isGivenCall ancestors)) cs
          end).
  cbn [omap list_omap]. rewrite omap_flat_map.
  assert (Hchildren :
    List.flat_map (fun x => omap collectedAt (occurrences (n :: ancestors) x)) cs
    = List.flat_map
        (fun child =>
           visit child (length (List.filter isRecognized (n :: ancestors)))
             (List.existsb isGivenCall (n :: ancestors))) cs).
  { apply flat_map_ext_Forall. eapply Forall_impl; [exact IH|].
    intros c Hc. cbv beta in Hc. by rewrite Hc. }
  rewrite Hchildren. clear Hchildren.
  cbn [List.filter List.existsb].
  assert (Hrec : isRecognized n = isSome (parsedCall n)) by reflexivity.
  assert (Hgiven : isGivenCall n
                   = match parsedCall n with
                     | Some (k, _) => BddCallKind_eqb k given
                     | None => false
                     end) by reflexivity.
  rewrite Hrec, Hgiven. unfold collectedAt at 1.
  destruct (parsedCall n) as [[kd m]|]; cbn [isSome].
  - cbn [length]. rewrite Nat.add_1_r.
    rewrite (orb_comm (List.existsb isGivenCall ancestors) (BddCallKind_eqb kd given)).
    by destruct (BddCallKind_eqb kd given || List.existsb isGivenCall ancestors).
  - done.
Qed.

Lemma collect_occurrences sourceFile :
  collectBddCalls sourceFile = omap collectedAt (fileOccurrences sourceFile).
Proof.
  unfold collectBddCalls, fileOccurrences. rewrite omap_flat_map.
  apply List.flat_map_ext. intros c. apply (visit_occurrences c []).
Qed.

Lemma omap_nil_iff {A B} (f : A -> option B) (l : list A) :
  omap f l = [] <-> forall x, In x l -> f x = None.
Proof.
  induction l as [|x l IH]; simpl.
  - split; [intros _ ? [] | done].
  - destruct (f x) eqn:Hx.
    + split; [done|]. intros H. specialize (H x (or_introl eq_refl)). congruence.
    + rewrite IH. split.
      * intros H y [<-|Hy]; auto.
      * intros H y Hy. apply H. by right.
Qed.

Lemma In_omap {A B} (f : A -> option B) (l : list A) (y : B) :
  In y (omap f l) <-> exists x, In x l /\ f x = Some y.
Proof.
  rewrite <- list_elem_of_In, list_elem_of_omap.
  split; intros (x & Hx & Hf); exists x; split; auto; by apply list_elem_of_In.
Qed.

(** The ancestors of an occurrence are occurrences themselves. *)
Lemma ancestors_occur n : forall ancestors o a,
  In o (occurrences ancestors n) -> In a (fst o) ->
  In a ancestors \/ exists o', In o' (occurrences ancestors n) /\ snd o' = a.
Proof.
  induction n as [k s e t cs ao IH] using Node_ind'. intros ancestors o a Ho Ha.
  set (n := mkNode k s e t cs ao) in *.
  change (occurrences ancestors n)
    with ((ancestors, n) :: List.flat_map (occurrences (n :: ancestors)) cs) in *.
  destruct Ho as [<-|Ho]; [by left|].
  apply List.in_flat_map in Ho as (c & Hc & Ho).
  rewrite List.Forall_forall in IH.
  destruct (IH c Hc (n :: ancestors) o a Ho Ha) as [[<-|Hin]|(o' & Ho' & <-)].
  - right. exists (ancestors, n). split; [by left | done].
  - by left.
  - right. exists o'. split; [|done]. right. apply List.in_flat_map. eauto.
Qed.

Lemma file_ancestors_occur sourceFile o a :
  In o (fileOccurrences sourceFile) -> In a (fst o) ->
  exists o', In o' (fileOccurrences sourceFile) /\ snd o' = a.
Proof.
  unfold fileOccurrences. intros Ho Ha.
  apply List.in_flat_map in Ho as (c & Hc & Ho).
  destruct (ancestors_occur c [] o a Ho Ha) as [[]|(o' & Ho' & <-)].
  exists o'. split; [|done]. apply List.in_flat_map. eauto.
Qed.

Lemma isGivenCall_parsed n :
  isGivenCall n = true <-> exists m, parsedCall n = Some (given, m).
Proof.
  unfold isGivenCall. destruct (parsedCall n) as [[k m]|].
  - rewrite BddCallKind_eqb_eq. split; [intros ->; eauto | by intros (? & [= -> _])].
  - split; [done | by intros (? & ?)].
Qed.

Lemma existsb_false_iff {A} (f : A -> bool) (l : list A) :
  List.existsb f l = false <-> forall x, In x l -> f x = false.
Proof.
  split.
  - intros H x Hx. destruct (f x) eqn:Hf; [|done].
    assert (List.existsb f l = true) by (apply List.existsb_exists; eauto). congruence.
  - intros H. destruct (List.existsb f l) eqn:He; [|done].
    apply List.existsb_exists in He as (x & Hx & Hf). rewrite (H x Hx) in Hf. done.
Qed.

(** Nothing is collected exactly when no [given] call occurs in the file. *)
Lemma collect_nil_iff sourceFile :
  collectBddCalls sourceFile = []
  <-> forall o, In o (fileOccurrences sourceFile) -> isGivenCall (snd o) = false.
Proof.
  rewrite collect_occurrences, omap_nil_iff. split.
  - intros H [ancestors n] Ho. specialize (H _ Ho). cbn [snd].
    unfold collectedAt in H. unfold isGivenCall.
    destruct (parsedCall n) as [[k m]|]; [|done].
    destruct (BddCallKind_eqb k given); [done|done].
  - intros H [ancestors n] Ho. unfold collectedAt.
    pose proof (H _ Ho) as Hn. cbn [snd] in Hn. unfold isGivenCall in Hn.
    destruct (parsedCall n) as [[k m]|]; [|done]. rewrite Hn. cbn [orb].
    assert (List.existsb isGivenCall ancestors = false) as ->; [|done].
    apply existsb_false_iff. intros a Ha.
    destruct (file_ancestors_occur sourceFile (ancestors, n) a Ho Ha) as (o' & Ho' & <-).
    by apply H.
Qed.

(** [null] is returned at the two early returns and nowhere else. *)
Lemma transform_null_iff code id sourceFile :
  transformBddSyntax code id sourceFile = None
  <-> importsGiven sourceFile = true \/ collectBddCalls sourceFile = [].
Proof.
  unfold transformBddSyntax. destruct (importsGiven sourceFile); [by split; auto|].
  destruct (collectBddCalls sourceFile) as [|c calls]; cbn [length Nat.eqb].
  - split; auto.
  - destruct (List.fold_left _ _ _) as [[s helpers] vitest].
    split; [done | by intros [|]].
Qed.

(** *** Which files are rewritten *)

(** C4, as amended.  [transformBddSyntax] returns [null] exactly on the
    files that have a named import whose local name is [given] and on the
    files in which no [given] call occurs (then nothing is collected:
    [when] and [it] calls outside a [given] do not count); on every other
    file it returns a rewritten result.  Whether the file imports [__given],
    [__when] or [__it] is not looked at. *)
Theorem unmodified_iff :
  forall (code id : string) (sourceFile : Node),
    transformBddSyntax code id sourceFile = None
    <-> (importsGiven sourceFile = true
         \/ forall o, In o (fileOccurrences sourceFile) -> isGivenCall (snd o) = false).
Proof.
  intros code id sourceFile. rewrite transform_null_iff. by rewrite collect_nil_iff.
Qed.

(** A file with vitest's own [it] only is returned unmodified. *)
Lemma unmodified_iff_witness :
  transformBddSyntax (Fixture.source Sources.plainVitest) "plain.test.ts"
    (Fixture.tree Sources.plainVitest) = None.
Proof.
  apply (proj2 (unmodified_iff (Fixture.source Sources.plainVitest) "plain.test.ts"
                  (Fixture.tree Sources.plainVitest))).
  right. apply (proj1 (existsb_false_iff (fun o => isGivenCall (snd o)) _)).
  vm_compute. reflexivity.
Defined.

(** C4 fails as stated: a file that imports [__given] and calls [given] is
    rewritten, not returned unmodified. *)
Lemma registration_import_is_not_checked :
  importsRegistrationFunction (Fixture.tree Sources.importsInternal) = true
  /\ transformBddSyntax (Fixture.source Sources.importsInternal) "a.test.ts"
       (Fixture.tree Sources.importsInternal) <> None.
Proof. split; [vm_compute; reflexivity | vm_compute; discriminate]. Qed.

(** What [collectBddCalls] collects.  The calls it hands to the rewrite are,
    in the order of the tree, the recognized calls that are a [given] or
    have a recognized [given] call among their ancestors, each with the
    number of recognized calls among its ancestors as its depth.  So every
    [given] call is collected wherever it stands; a [when] or [it] call is
    collected if and only if it lies inside a recognized [given] call
    expression (in its callback or in any other child of the call); and a
    file in which no [given] call occurs is returned unmodified, whatever
    [when] and [it] calls it has. *)
Theorem collected_iff_under_given :
  forall sourceFile : Node,
    collectBddCalls sourceFile = omap collectedAt (fileOccurrences sourceFile)
    /\ (forall ancestors n,
          In (ancestors, n) (fileOccurrences sourceFile) ->
          isGivenCall n = true ->
          exists call,
            In call (collectBddCalls sourceFile) /\ node call = n /\ kind call = given)
    /\ (forall ancestors n k m,
          In (ancestors, n) (fileOccurrences sourceFile) ->
          parsedCall n = Some (k, m) -> k <> given ->
          (exists call, collectedAt (ancestors, n) = Some call /\ node call = n)
          <-> (exists g, In g ancestors /\ isGivenCall g = true))
    /\ (forall call,
          In call (collectBddCalls sourceFile) -> kind call <> given ->
          exists ancestors g,
            In (ancestors, node call) (fileOccurrences sourceFile)
            /\ In g ancestors /\ isGivenCall g = true)
    /\ (forall code id,
          (forall o, In o (fileOccurrences sourceFile) -> isGivenCall (snd o) = false) ->
          transformBddSyntax code id sourceFile = None).
Proof.
  intros sourceFile. split; [apply collect_occurrences|]. split; [|split; [|split]].
  - intros ancestors n Ho Hg. apply isGivenCall_parsed in Hg as [m Hp].
    exists (mkBddCall given n (length (List.filter isRecognized ancestors)) m).
    split; [|done]. rewrite collect_occurrences. apply In_omap.
    exists (ancestors, n). split; [done|]. unfold collectedAt. by rewrite Hp.
  - intros ancestors n k m Ho Hp Hk. unfold collectedAt. rewrite Hp.
    assert (BddCallKind_eqb k given = false) as ->.
    { destruct (BddCallKind_eqb k given) eqn:E; [|done].
      apply BddCallKind_eqb_eq in E. done. }
    cbn [orb]. split.
    + intros (call & Hc & _).
      destruct (List.existsb isGivenCall ancestors) eqn:E; [|done].
      apply List.existsb_exists in E. exact E.
    + intros (g & Hg & Hgiven).
      assert (List.existsb isGivenCall ancestors = true) as ->
        by (apply List.existsb_exists; eauto).
      eexists. split; [reflexivity | reflexivity].
  - intros call Hin Hk. rewrite collect_occurrences in Hin.
    apply In_omap in Hin as ([ancestors n] & Ho & Hc).
    unfold collectedAt in Hc. destruct (parsedCall n) as [[k m]|]; [|done].
    destruct (BddCallKind_eqb k given) eqn:Ek.
    + apply BddCallKind_eqb_eq in Ek. subst k. cbn [orb] in Hc.
      injection Hc as <-. done.
    + cbn [orb] in Hc. destruct (List.existsb isGivenCall ancestors) eqn:E; [|done].
      injection Hc as <-. apply List.existsb_exists in E as (g & Hg & Hgiven).
      exists ancestors, g. done.
  - intros code id Hnone. apply transform_null_iff. right. by apply collect_nil_iff.
Qed.

(** In the test file of the specification's scenario, the [when] and the
    two [it] calls are collected, under the [given]. *)
Lemma collected_iff_under_given_witness :
  List.map (fun c => (kind c, depth c))
    (collectBddCalls (Fixture.tree Sources.scenarioA))
  = List.map (fun c => (kind c, depth c))
      (omap collectedAt (fileOccurrences (Fixture.tree Sources.scenarioA)))
  /\ List.map (fun c => (kind c, depth c))
       (collectBddCalls (Fixture.tree Sources.scenarioA))
     = [(given, 0); (it, 1); (when, 1); (it, 2)].
Proof.
  split.
  - exact (f_equal (List.map (fun c => (kind c, depth c)))
             (proj1 (collected_iff_under_given (Fixture.tree Sources.scenarioA)))).
  - vm_compute. reflexivity.
Defined.

(** C5 does not hold of the code.  In
<<
given(it("named", () => {
}), () => {
});
>>
    the [it] call is the description argument of the [given]: it ends
    before the callback of the [given] starts, and no recognized call lies
    inside that callback.  [collectBddCalls] marks every child of a [given]
    call as inside the [given], not its callback alone, so the [it] is
    collected, at depth 1, and rewritten: the output has
    [__it(..., __ctx)] in a place where no [(__ctx) =>] callback encloses
    it. *)
Theorem it_outside_callback_is_rewritten :
  exists g itCall callback,
    collectBddCalls (Fixture.tree Sources.itInDescription) = [g; itCall]
    /\ (kind g = given /\ kind itCall = it /\ depth itCall = 1)
    /\ getCallbackArg (node g) = Some callback
    /\ List.existsb (fun o => isRecognized (snd o)) (occurrences [] callback) = false
    /\ end_ (node itCall) <= start callback
    /\ transformBddSyntax (Fixture.source Sources.itInDescription) "a.test.ts"
         (Fixture.tree Sources.itInDescription)
       = Some (mkResult
           (runtimeImport ["__given"; "__it"] +:+ nl
            +:+ "__given(__it(" +:+ dq +:+ "named" +:+ dq +:+ ", ($subject) => {" +:+ nl
            +:+ "}, __ctx), {  }, (__ctx) => {" +:+ nl
            +:+ "});" +:+ nl)).
Proof.
  eexists. eexists. eexists.
  split; [vm_compute; reflexivity|].
  split; [repeat split; vm_compute; reflexivity|].
  split; [vm_compute; reflexivity|].
  split; [vm_compute; reflexivity|].
  split; [vm_compute; lia|].
  vm_compute. reflexivity.
Qed.

(** *** A second pass *)

Lemma callee_overwritten call code callback :
  getCallbackArg (node call) = Some callback ->
  (kind call = it \/ exists stmts, getBodyStatements callback = Some stmts) ->
  In (Overwrite (calleeStart (node call)) (calleeEnd (node call)) (helperName (kind call)))
     (transformCall call code).
Proof.
  intros Hcb Hbody. unfold transformCall.
  destruct (kind call) eqn:Hk.
  - destruct Hbody as [|[stmts Hs]]; [done|].
    unfold transformGiven. rewrite Hcb, Hs.
    destruct (scanGiven code stmts) as [[inputsExpr subjectExpr] stmtsToRemove].
    apply List.in_or_app. right. apply List.in_or_app. left. by left.
  - destruct Hbody as [|[stmts Hs]]; [done|].
    unfold transformWhen. rewrite Hcb, Hs.
    destruct (classifyWhen stmts) as [[modifierStmts performStmts] bodyStmts].
    apply List.in_or_app. right. by left.
  - unfold transformIt. rewrite Hcb. by left.
Qed.

Lemma helper_not_recognized k n callee :
  expression n = Some callee ->
  isKind Identifier callee = true ->
  text callee = helperName k ->
  parsedCall n = None.
Proof.
  intros He Hi Ht. unfold parsedCall, parseBddCall. rewrite He, Hi, Ht.
  destruct (isKind CallExpression n); [|done]. by destruct k.
Qed.

(** *** Callbacks that are not inline *)


Lemma In_insertByDepth c c' l :
  In c' (insertByDepth c l) <-> c' = c \/ In c' l.
Proof.
  induction l as [|d l IH]; cbn [insertByDepth].
  - split; [intros [<-|[]]; by left | intros [->|[]]; by left].
  - destruct (depth d <? depth c).
    + split; [intros [<-|H]; [by left | by right] | intros [->|H]; [by left | by right]].
    + cbn [In]. rewrite IH. tauto.
Qed.

Lemma In_sortByDepth c calls : In c (sortByDepth calls) <-> In c calls.
Proof.
  unfold sortByDepth.
  assert (H : forall acc,
    In c (List.fold_left (fun sorted c => insertByDepth c sorted) calls acc)
    <-> In c calls \/ In c acc).
  { induction calls as [|d calls IH]; intros acc; cbn [List.fold_left In].
    - tauto.
    - rewrite IH, In_insertByDepth. split; [intros [|[->|]] | intros [[<-|]|]]; tauto. }
  rewrite H. cbn [In]. tauto.
Qed.

Lemma transformCall_no_callback call code :
  getCallbackArg (node call) = None -> transformCall call code = [].
Proof.
  intros H. unfold transformCall, transformGiven, transformWhen, transformIt.
  rewrite H. by destruct (kind call).
Qed.

(** A file in which no collected call has an inline callback comes back
    with nothing but text put in front of it: no edit, and no error. *)
Lemma no_inline_callback_only_prepends code id sourceFile :
  importsGiven sourceFile = false ->
  collectBddCalls sourceFile <> [] ->
  (forall c, In c (collectBddCalls sourceFile) -> getCallbackArg (node c) = None) ->
  exists imports,
    transformBddSyntax code id sourceFile = Some (mkResult (imports +:+ code)).
Proof.
  intros Himp Hne Hall. unfold transformBddSyntax. rewrite Himp.
  destruct (collectBddCalls sourceFile) as [|c0 calls] eqn:Hcalls; [done|].
  cbn [length Nat.eqb].
  assert (Hfold : forall l s helpers vitest,
    (forall c, In c l -> getCallbackArg (node c) = None) ->
    exists helpers' vitest',
      List.fold_left
        (fun '(s, usedHelpers, usedVitestImports) call =>
           (applyAll (transformCall call code) s,
            setAdd (helperName (kind call)) usedHelpers,
            match vitestImport call with
            | Some x => setAdd x usedVitestImports
            | None => usedVitestImports
            end))
        l (s, helpers, vitest)
      = (s, helpers', vitest')).
  { induction l as [|c l IH]; intros s helpers vitest Hl; cbn [List.fold_left].
    - eauto.
    - rewrite transformCall_no_callback by (apply Hl; by left).
      cbn [applyAll List.fold_left]. apply IH. intros c' Hc'. apply Hl. by right. }
  destruct (Hfold (sortByDepth (c0 :: calls)) (create code) [] [])
    as (helpers & vitest & ->).
  { intros c Hc. apply Hall. by apply In_sortByDepth. }
  eexists. by rewrite toString_prepend.
Qed.





(** *** The statements of a [when] callback *)

(** [referencesIdentifier], one level unfolded, through the accessors. *)
Lemma referencesIdentifier_eq n name skipItCallbacks :
  referencesIdentifier n name skipItCallbacks
  = if isIdentifierNamed name n then true
    else if skipItCallbacks && isRecognized n then
      match arguments n with
      | firstArg :: _ => referencesIdentifier firstArg name skipItCallbacks
      | [] => false
      end
    else List.existsb (fun child => referencesIdentifier child name skipItCallbacks)
           (children n).
Proof.
  destruct n as [k s e t cs ao]. cbn [referencesIdentifier].
  unfold isIdentifierNamed, isKind, isRecognized, arguments. cbn [Ts.kind text children].
  destruct (kind_eqb k Identifier && String.eqb t name); [done|].
  destruct (skipItCallbacks && _); [|done].
  assert (Hnth : forall l i,
    (fix firstArg (i : nat) (l : list Node) {struct l} : bool :=
       match l with
       | [] => false
       | c :: l' =>
           match i with
           | 0 => referencesIdentifier c name skipItCallbacks
           | S i' => firstArg i' l'
           end
       end) i l
    = match List.skipn i l with
      | firstArg :: _ => referencesIdentifier firstArg name skipItCallbacks
      | [] => false
      end).
  { induction l as [|c l IH]; intros [|i]; try done; cbn [List.skipn]; apply IH. }
  rewrite Hnth. destruct cs as [|c cs]; cbn [List.tl List.skipn];
    rewrite ?List.skipn_nil; done.
Qed.

(** An argument of a call is one of its children. *)
Lemma argument_is_child n a : In a (arguments n) -> In a (children n).
Proof.
  unfold arguments. intros Ha.
  assert (Htl : In a (List.tl (children n))).
  { rewrite <- (List.firstn_skipn (argumentsOffset n) (List.tl (children n))).
    apply List.in_or_app. by right. }
  destruct (children n); [done | by right].
Qed.

(** The scan finds the name exactly when it gets to an identifier of that
    name. *)
Lemma references_iff_reaches n name :
  referencesIdentifier n name true = true
  <-> exists d, Reaches n d /\ isIdentifierNamed name d = true.
Proof.
  split.
  - induction n as [k s e t cs ao IH] using Node_ind'.
    set (n := mkNode k s e t cs ao) in *. rewrite referencesIdentifier_eq.
    destruct (isIdentifierNamed name n) eqn:Hid.
    { intros _. exists n. split; [constructor | done]. }
    cbn [andb]. destruct (isRecognized n) eqn:Hrec.
    + destruct (arguments n) as [|a rest] eqn:Hargs; [done|].
      intros Ha.
      assert (Hin : In a cs).
      { apply (argument_is_child n). rewrite Hargs. by left. }
      rewrite List.Forall_forall in IH.
      destruct (IH a Hin Ha) as (d & Hd & Hname).
      exists d. split; [|done]. eapply reach_description; eauto.
    + intros Hex. apply List.existsb_exists in Hex as (c & Hc & Href).
      rewrite List.Forall_forall in IH.
      destruct (IH c Hc Href) as (d & Hd & Hname).
      exists d. split; [|done]. eapply reach_child; eauto.
  - intros (d & Hreach & Hname).
    induction Hreach as [n | n c d Hrec Hc _ IH | n a rest d Hrec Hargs _ IH];
      rewrite referencesIdentifier_eq.
    + by rewrite Hname.
    + destruct (isIdentifierNamed name n); [done|]. rewrite Hrec. cbn [andb].
      apply List.existsb_exists. exists c. split; [done | by apply IH].
    + destruct (isIdentifierNamed name n); [done|]. rewrite Hrec, Hargs. cbn [andb].
      by apply IH.
Qed.

Lemma classifyWhen_acc stmts : forall ms ps bs,
  List.fold_left
    (fun '(modifierStmts, performStmts, bodyStmts) stmt =>
       if isInputsModifier stmt then (modifierStmts ++ [stmt], performStmts, bodyStmts)
       else if isPerformStatement stmt then (modifierStmts, performStmts ++ [stmt], bodyStmts)
       else (modifierStmts, performStmts, bodyStmts ++ [stmt]))
    stmts (ms, ps, bs)
  = (ms ++ List.filter (hasClass ModifierStmt) stmts,
     ps ++ List.filter (hasClass PerformStmt) stmts,
     bs ++ List.filter (hasClass BodyStmt) stmts).
Proof.
  induction stmts as [|stmt stmts IH]; intros ms ps bs.
  - cbn. by rewrite !app_nil_r.
  - cbn [List.fold_left List.filter].
    assert (Hstep :
      (if isInputsModifier stmt then (ms ++ [stmt], ps, bs)
       else if isPerformStatement stmt then (ms, ps ++ [stmt], bs)
       else (ms, ps, bs ++ [stmt]))
      = match classOf stmt with
        | ModifierStmt => (ms ++ [stmt], ps, bs)
        | PerformStmt => (ms, ps ++ [stmt], bs)
        | BodyStmt => (ms, ps, bs ++ [stmt])
        end).
    { unfold classOf, isPerformStatement.
      destruct (isInputsModifier stmt); [done|].
      destruct (isItCall stmt); [done|]. cbn [negb andb].
      by destruct (referencesIdentifier stmt "$subject" true). }
    rewrite Hstep. clear Hstep.
    assert (Hm : hasClass ModifierStmt stmt
                 = match classOf stmt with ModifierStmt => true | _ => false end)
      by reflexivity.
    assert (Hp : hasClass PerformStmt stmt
                 = match classOf stmt with PerformStmt => true | _ => false end)
      by reflexivity.
    assert (Hb : hasClass BodyStmt stmt
                 = match classOf stmt with BodyStmt => true | _ => false end)
      by reflexivity.
    rewrite Hm, Hp, Hb.
    destruct (classOf stmt); rewrite IH; by rewrite <- app_assoc.
Qed.

(** The three lists of [transformWhen] are the statements of each class,
    in source order. *)
Lemma classifyWhen_spec stmts :
  classifyWhen stmts
  = (List.filter (hasClass ModifierStmt) stmts,
     List.filter (hasClass PerformStmt) stmts,
     List.filter (hasClass BodyStmt) stmts).
Proof. unfold classifyWhen. by rewrite classifyWhen_acc. Qed.

(** C6, as amended.  The class of a direct statement of a [when] callback
    follows from its own shape, in this precedence: an assignment
    [$inputs.PROP = EXPR] (the left side a property access whose object is
    the identifier [$inputs]) is a modifier; any other statement that is not
    an [it] call and in which the reference scan gets to an identifier
    [$subject] is a perform, where the scan goes through the whole statement
    but, of a recognized given/when/it call, through the first argument
    only; every other statement is body.  The modifier statements, and the
    perform statements, are taken in source order, and their texts, joined
    by a space, make the one generated modifier body and the one generated
    perform body; both kinds of statement are removed from the callback. *)
Theorem when_statements_classified :
  forall (call : BddCall) (code : string) (callback : Node) (stmts : list Node),
    getCallbackArg (node call) = Some callback ->
    getBodyStatements callback = Some stmts ->
    let modifierStmts := List.filter (hasClass ModifierStmt) stmts in
    let performStmts := List.filter (hasClass PerformStmt) stmts in
    (forall stmt, classOf stmt = ModifierStmt <-> isInputsModifier stmt = true)
    /\ (forall stmt,
          classOf stmt = PerformStmt
          <-> isInputsModifier stmt = false /\ isItCall stmt = false
              /\ exists d, Reaches stmt d /\ isIdentifierNamed "$subject" d = true)
    /\ (forall stmt,
          classOf stmt = BodyStmt
          <-> isInputsModifier stmt = false
              /\ (isItCall stmt = true
                  \/ forall d, Reaches stmt d -> isIdentifierNamed "$subject" d = false))
    /\ classifyWhen stmts
       = (modifierStmts, performStmts, List.filter (hasClass BodyStmt) stmts)
    /\ whenConfigParts code modifierStmts performStmts
       = (if 0 <? length modifierStmts
          then ["modifier: ($inputs) => { "
                +:+ String.concat " " (List.map (getNodeText code) modifierStmts)
                +:+ " }"]
          else [])
         ++ (if 0 <? length performStmts
             then ["perform: ($subject) => { "
                   +:+ String.concat " " (List.map (getNodeText code) performStmts)
                   +:+ " }"]
             else [])
    /\ In (AppendLeft (descEnd (node call))
             (", " +:+ configObj (whenConfigParts code modifierStmts performStmts)))
          (transformWhen call code)
    /\ (forall stmt,
          In stmt modifierStmts \/ In stmt performStmts ->
          In (Remove (start stmt) (skipNewlines code (end_ stmt)))
             (transformWhen call code)).
Proof.
  intros call code callback stmts Hcb Hstmts modifierStmts performStmts.
  assert (Hscan : forall stmt,
    referencesIdentifier stmt "$subject" true = false
    <-> forall d, Reaches stmt d -> isIdentifierNamed "$subject" d = false).
  { intros stmt. split.
    - intros Hr d Hd. destruct (isIdentifierNamed "$subject" d) eqn:E; [|done].
      assert (referencesIdentifier stmt "$subject" true = true)
        by (apply references_iff_reaches; eauto).
      congruence.
    - intros Hall. destruct (referencesIdentifier stmt "$subject" true) eqn:E; [|done].
      apply references_iff_reaches in E as (d & Hd & Hn). rewrite (Hall d Hd) in Hn. done. }
  split; [|split; [|split; [|split; [|split; [|split]]]]].
  - intros stmt. unfold classOf. destruct (isInputsModifier stmt); [done|].
    destruct (negb (isItCall stmt) && _); split; done.
  - intros stmt. unfold classOf. destruct (isInputsModifier stmt).
    { split; [done | by intros (? & _)]. }
    destruct (isItCall stmt); cbn [negb andb].
    { split; [done | by intros (_ & ? & _)]. }
    destruct (referencesIdentifier stmt "$subject" true) eqn:E.
    + split; [|done]. intros _. split; [done|]. split; [done|].
      by apply references_iff_reaches.
    + split; [done|]. intros (_ & _ & Hex).
      apply references_iff_reaches in Hex. congruence.
  - intros stmt. unfold classOf. destruct (isInputsModifier stmt).
    { split; [done | by intros (? & _)]. }
    destruct (isItCall stmt); cbn [negb andb].
    { split; [|done]. intros _. split; [done | by left]. }
    destruct (referencesIdentifier stmt "$subject" true) eqn:E.
    + split; [done|]. intros (_ & [|Hall]); [done|].
      apply Hscan in Hall. congruence.
    + split; [|done]. intros _. split; [done|]. right. by apply Hscan.
  - apply classifyWhen_spec.
  - reflexivity.
  - unfold transformWhen. rewrite Hcb, Hstmts, classifyWhen_spec.
    apply List.in_or_app. right. right. by left.
  - intros stmt Hin. unfold transformWhen. rewrite Hcb, Hstmts, classifyWhen_spec.
    apply List.in_or_app. left.
    apply (List.in_map (removeStatement code)). apply List.in_or_app. exact Hin.
Qed.

(** The [when] block of the specification's scenario: one modifier, one
    perform; the nested [it] stays in the body. *)
Lemma when_statements_classified_witness :
  let call := Sources.collected Sources.scenarioA 2 in
  let code := Fixture.source Sources.scenarioA in
  let stmts := Sources.callbackStatements call in
  In (AppendLeft (descEnd (node call))
        (", " +:+ configObj
           (whenConfigParts code (List.filter (hasClass ModifierStmt) stmts)
              (List.filter (hasClass PerformStmt) stmts))))
     (transformWhen call code).
Proof.
  intros call code stmts.
  refine (proj1 (proj2 (proj2 (proj2 (proj2 (proj2
            (when_statements_classified call code (Sources.callbackOf call) stmts
               _ _))))))).
  - vm_compute. reflexivity.
  - vm_compute. reflexivity.
Defined.

(** The classes and the configuration generated for that [when] block. *)
Example when_config_text :
  let stmts := Sources.callbackStatements (Sources.collected Sources.scenarioA 2) in
  List.map classOf stmts = [ModifierStmt; PerformStmt; BodyStmt]
  /\ configObj
       (whenConfigParts (Fixture.source Sources.scenarioA)
          (List.filter (hasClass ModifierStmt) stmts)
          (List.filter (hasClass PerformStmt) stmts))
     = "{ modifier: ($inputs) => { $inputs.value = 5; }, perform: ($subject) => { $subject.inc(); } }".
Proof. vm_compute. split; reflexivity. Qed.

(** C6 fails as stated: [$subject] as the third argument of a nested
    [when] call is a reference outside every callback body, yet the
    statement is classified as body, not as perform. *)
Lemma reference_in_third_argument_is_body :
  exists callback stmt,
    kind (Sources.collected Sources.thirdArgument 1) = when
    /\ getCallbackArg (node (Sources.collected Sources.thirdArgument 1)) = Some callback
    /\ getBodyStatements callback = Some [stmt]
    /\ isInputsModifier stmt = false
    /\ isItCall stmt = false
    /\ referencesOutsideCallbacks stmt "$subject" = true
    /\ classifyWhen [stmt] = ([], [], [stmt]).
Proof.
  eexists. eexists. split; [vm_compute; reflexivity|].
  split; [vm_compute; reflexivity|]. repeat split; vm_compute; reflexivity.
Qed.

(** *** The statements of a [given] callback *)

Lemma isObjectLiteralLike_eq n :
  isObjectLiteralLike n
  = if isKind ObjectLiteralExpression n then true
    else if isKind AsExpression n || isKind SatisfiesExpression n
            || isKind ParenthesizedExpression n then
      match expression n with
      | Some e => isObjectLiteralLike e
      | None => false
      end
    else false.
Proof.
  destruct n as [k s e t cs ao]. cbn [isObjectLiteralLike].
  unfold isKind, expression. cbn [Ts.kind children].
  destruct (kind_eqb k ObjectLiteralExpression); [done|].
  destruct (_ || _ || _); [|done]. by destruct cs.
Qed.

Lemma isObjectLiteralLike_iff n :
  isObjectLiteralLike n = true <-> ObjectLiteralLike n.
Proof.
  split.
  - induction n as [k s e t cs ao IH] using Node_ind'.
    set (n := mkNode k s e t cs ao) in *. rewrite isObjectLiteralLike_eq.
    destruct (isKind ObjectLiteralExpression n) eqn:Hobj.
    { intros _. apply oll_literal. by apply kind_eqb_eq. }
    destruct (isKind AsExpression n || isKind SatisfiesExpression n
              || isKind ParenthesizedExpression n) eqn:Hwrap; [|done].
    destruct (expression n) as [x|] eqn:Hx; [|done].
    intros Hlike. apply (oll_wrapped n x); [|done|].
    + unfold isKind in Hwrap.
      apply orb_true_iff in Hwrap as [Hwrap|Hwrap];
        [apply orb_true_iff in Hwrap as [Hwrap|Hwrap]|];
        apply kind_eqb_eq in Hwrap; auto.
    + rewrite List.Forall_forall in IH. apply IH; [|done].
      unfold expression in Hx. cbn [children n] in Hx.
      destruct cs as [|c cs']; [done|]. injection Hx as ->. by left.
  - induction 1 as [n Hk | n x Hk Hx _ IH]; rewrite isObjectLiteralLike_eq.
    + unfold isKind. rewrite Hk. by rewrite kind_eqb_refl.
    + destruct (isKind ObjectLiteralExpression n); [done|].
      unfold isKind. rewrite Hx.
      destruct Hk as [Hk | [Hk | Hk]]; rewrite Hk; cbn; exact IH.
Qed.

Lemma assignmentTo_slot slot stmt binExpr :
  assignmentTo slot stmt = Some binExpr ->
  exists l, left binExpr = Some l /\ text l = slot.
Proof.
  unfold assignmentTo.
  destruct (isKind ExpressionStatement stmt); [|done].
  destruct (expression stmt) as [expr|]; [|done].
  destruct (isKind BinaryExpression expr); [|done].
  destruct (operatorToken expr) as [op|]; [|done].
  destruct (left expr) as [l|] eqn:Hl; [|done].
  destruct (isKind EqualsToken op && isKind Identifier l && String.eqb (text l) slot)
    eqn:Hc; [|done].
  intros [= <-]. exists l. split; [done|].
  apply andb_true_iff in Hc as [_ Hc]. by apply String.eqb_eq.
Qed.

Lemma assignmentTo_exclusive slot slot' stmt binExpr :
  assignmentTo slot stmt = Some binExpr -> slot <> slot' ->
  assignmentTo slot' stmt = None.
Proof.
  intros H Hne. destruct (assignmentTo slot' stmt) as [b'|] eqn:H'; [|done].
  destruct (assignmentTo_slot _ _ _ H) as (l & Hl & Ht).
  destruct (assignmentTo_slot _ _ _ H') as (l' & Hl' & Ht').
  assert (binExpr = b').
  { unfold assignmentTo in H, H'.
    destruct (isKind ExpressionStatement stmt); [|done].
    destruct (expression stmt) as [expr|]; [|done].
    destruct (isKind BinaryExpression expr); [|done].
    destruct (operatorToken expr) as [op|]; [|done].
    destruct (left expr) as [l0|]; [|done].
    destruct (_ && _ && _) in H; [|done]. destruct (_ && _ && _) in H'; [|done].
    congruence. }
  subst b'. congruence.
Qed.

(** The three variables of [transformGiven] after its loop. *)
Lemma scanGiven_acc code stmts : forall i s r,
  List.fold_left
    (fun '(inputsExpr, subjectExpr, stmtsToRemove) stmt =>
       match assignmentTo "$inputs" stmt with
       | Some binExpr => (Some (factoryBody code binExpr), subjectExpr, stmtsToRemove ++ [stmt])
       | None =>
           match assignmentTo "$subject" stmt with
           | Some binExpr => (inputsExpr, Some (factoryBody code binExpr), stmtsToRemove ++ [stmt])
           | None => (inputsExpr, subjectExpr, stmtsToRemove)
           end
       end)
    stmts (i, s, r)
  = (lastAssigned i (List.map (slotBody code "$inputs") (List.filter isInputsAssignment stmts)),
     lastAssigned s (List.map (slotBody code "$subject") (List.filter isSubjectAssignment stmts)),
     r ++ List.filter (fun stmt => isInputsAssignment stmt || isSubjectAssignment stmt) stmts).
Proof.
  induction stmts as [|stmt stmts IH]; intros i s r.
  - cbn. by rewrite app_nil_r.
  - cbn [List.fold_left List.filter].
    destruct (assignmentTo "$inputs" stmt) as [b|] eqn:Hi.
    + assert (Hs : assignmentTo "$subject" stmt = None)
        by (by apply (assignmentTo_exclusive "$inputs" "$subject" stmt b)).
      assert (isInputsAssignment stmt = true) as ->
        by (unfold isInputsAssignment; by rewrite Hi).
      assert (isSubjectAssignment stmt = false) as ->
        by (unfold isSubjectAssignment; by rewrite Hs).
      cbn [orb List.map]. rewrite IH. unfold lastAssigned. cbn [List.fold_left].
      assert (slotBody code "$inputs" stmt = factoryBody code b) as ->
        by (unfold slotBody; by rewrite Hi).
      by rewrite <- app_assoc.
    + assert (isInputsAssignment stmt = false) as ->
        by (unfold isInputsAssignment; by rewrite Hi).
      destruct (assignmentTo "$subject" stmt) as [b|] eqn:Hs.
      * assert (isSubjectAssignment stmt = true) as ->
          by (unfold isSubjectAssignment; by rewrite Hs).
        cbn [orb List.map]. rewrite IH. unfold lastAssigned. cbn [List.fold_left].
        assert (slotBody code "$subject" stmt = factoryBody code b) as ->
          by (unfold slotBody; by rewrite Hs).
        by rewrite <- app_assoc.
      * assert (isSubjectAssignment stmt = false) as ->
          by (unfold isSubjectAssignment; by rewrite Hs).
        cbn [orb]. by rewrite IH.
Qed.

Lemma scanGiven_spec code stmts :
  scanGiven code stmts
  = (lastAssigned None
       (List.map (slotBody code "$inputs") (List.filter isInputsAssignment stmts)),
     lastAssigned None
       (List.map (slotBody code "$subject") (List.filter isSubjectAssignment stmts)),
     List.filter (fun stmt => isInputsAssignment stmt || isSubjectAssignment stmt) stmts).
Proof. unfold scanGiven. by rewrite scanGiven_acc. Qed.

(** The edits of a [given] call with an inline block-bodied callback. *)
Lemma transformGiven_edits call code callback stmts :
  getCallbackArg (node call) = Some callback ->
  getBodyStatements callback = Some stmts ->
  transformGiven call code
  = List.map (removeStatement code)
      (List.filter (fun stmt => isInputsAssignment stmt || isSubjectAssignment stmt) stmts)
    ++ [Overwrite (calleeStart (node call)) (calleeEnd (node call)) "__given";
        AppendLeft (descEnd (node call))
          (", " +:+ configObj
             (givenConfigParts
                (lastAssigned None
                   (List.map (slotBody code "$inputs")
                      (List.filter isInputsAssignment stmts)))
                (lastAssigned None
                   (List.map (slotBody code "$subject")
                      (List.filter isSubjectAssignment stmts)))));
        Overwrite (start callback) (getCallbackHeaderEnd callback)
          (asyncPrefix callback +:+ "(__ctx) =>")]
    ++ match modifier call with
       | Some m => [AppendLeft (lastArgEnd (node call)) (", describe." +:+ modifierName m)]
       | None => []
       end.
Proof.
  intros Hcb Hstmts. unfold transformGiven. by rewrite Hcb, Hstmts, scanGiven_spec.
Qed.

(** Of several assignments to a slot the last one supplies the factory. *)
Lemma last_assignment_is_factory slot isSlot code stmts earlier stmt binExpr rhs :
  List.filter isSlot stmts = earlier ++ [stmt] ->
  assignmentTo slot stmt = Some binExpr ->
  right binExpr = Some rhs ->
  lastAssigned None (List.map (slotBody code slot) (List.filter isSlot stmts))
  = Some (if isObjectLiteralLike rhs
          then "(" +:+ getNodeText code rhs +:+ ")"
          else getNodeText code rhs).
Proof.
  intros -> Hassign Hright. rewrite List.map_app. unfold lastAssigned.
  rewrite List.fold_left_app. cbn [List.map List.fold_left].
  unfold slotBody. rewrite Hassign. unfold factoryBody. by rewrite Hright.
Qed.

Section GivenText.
Import Buffer TransformTerms.

Variables (call : BddCall) (code : string) (callback : Node) (stmts : list Node).
Hypothesis Hcb : getCallbackArg (node call) = Some callback.
Hypothesis Hstmts : getBodyStatements callback = Some stmts.
Hypothesis Hlayout : laidOut code (node call) callback stmts = true.

Lemma laidOut_offsets :
  calleeEnd (node call) < descEnd (node call)
  /\ descEnd (node call) <= String.length code
  /\ descEnd (node call) <= start callback
  /\ start callback <= getCallbackHeaderEnd callback
  /\ descEnd (node call) < lastArgEnd (node call)
  /\ forall stmt, In stmt stmts ->
       getCallbackHeaderEnd callback <= start stmt
       /\ skipNewlines code (end_ stmt) < lastArgEnd (node call).
Proof.
  unfold laidOut in Hlayout. rewrite !andb_true_iff in Hlayout.
  destruct Hlayout as [[[[[H1 H2] H3] H4] H5] H6].
  apply Nat.ltb_lt in H1. apply Nat.leb_le in H2. apply Nat.leb_le in H3.
  apply Nat.leb_le in H4. apply Nat.ltb_lt in H5.
  repeat (split; [done|]). intros stmt Hin.
  rewrite List.forallb_forall in H6. specialize (H6 stmt Hin).
  apply andb_true_iff in H6 as [Ha Hb].
  apply Nat.leb_le in Ha. apply Nat.ltb_lt in Hb. done.
Qed.

Lemma modifier_untouched i :
  S i < lastArgEnd (node call) ->
  forall e,
    In e match modifier call with
         | Some m => [AppendLeft (lastArgEnd (node call)) (", describe." +:+ modifierName m)]
         | None => []
         end ->
    touches e i = false.
Proof.
  intros Hi e He. destruct (modifier call); [|done].
  destruct He as [<- | []]. cbn [touches].
  destruct (lastArgEnd (node call)) as [|j]; [done|]. apply Nat.eqb_neq. lia.
Qed.

(** After the edits of the call, the character before the end of the
    first argument is followed by the configuration. *)
Lemma given_config_text s :
  length (cells s) = String.length code ->
  textAt (applyAll (transformGiven call code) s) (descEnd (node call) - 1)
  = textAt s (descEnd (node call) - 1)
    +:+ ", "
    +:+ configObj
          (givenConfigParts
             (lastAssigned None
                (List.map (slotBody code "$inputs") (List.filter isInputsAssignment stmts)))
             (lastAssigned None
                (List.map (slotBody code "$subject") (List.filter isSubjectAssignment stmts)))).
Proof.
  intros Hlen. destruct laidOut_offsets as (H1 & H2 & H3 & H4 & H5 & H6).
  rewrite (transformGiven_edits call code callback stmts Hcb Hstmts).
  rewrite !BufferFacts.applyAll_app.
  rewrite BufferFacts.textAt_untouched by (apply modifier_untouched; lia).
  set (removed := applyAll _ s).
  assert (Hremoved : textAt removed (descEnd (node call) - 1)
                     = textAt s (descEnd (node call) - 1)).
  { apply BufferFacts.textAt_untouched. intros e He.
    apply List.in_map_iff in He as (stmt & <- & Hin).
    apply List.filter_In in Hin as [Hin _]. destruct (H6 stmt Hin) as [Ha _].
    cbn [removeStatement touches]. apply andb_false_iff. left. apply Nat.leb_gt. lia. }
  cbn [applyAll List.fold_left].
  destruct (descEnd (node call)) as [|j] eqn:Hj; [lia|].
  replace (S j - 1) with j in * by lia.
  rewrite BufferFacts.textAt_apply_untouched
    by (cbn [touches]; apply andb_false_iff; left; apply Nat.leb_gt; lia).
  rewrite BufferFacts.textAt_apply_append.
  - rewrite BufferFacts.textAt_apply_untouched
      by (cbn [touches]; apply andb_false_iff; right; apply Nat.ltb_ge; lia).
    by rewrite Hremoved.
  - rewrite BufferFacts.length_apply. unfold removed.
    rewrite BufferFacts.length_applyAll. lia.
Qed.

(** After the edits of the call, nothing is left of an assignment to
    [$inputs] or [$subject] nor of the line terminators after it. *)
Lemma given_removed_text s stmt i :
  In stmt stmts ->
  isInputsAssignment stmt || isSubjectAssignment stmt = true ->
  start stmt <= i < skipNewlines code (end_ stmt) ->
  textAt (applyAll (transformGiven call code) s) i = "".
Proof.
  intros Hin Hassign Hi. destruct laidOut_offsets as (H1 & H2 & H3 & H4 & H5 & H6).
  destruct (H6 stmt Hin) as [Ha Hb].
  rewrite (transformGiven_edits call code callback stmts Hcb Hstmts).
  rewrite !BufferFacts.applyAll_app.
  rewrite BufferFacts.textAt_untouched by (apply modifier_untouched; lia).
  rewrite BufferFacts.textAt_untouched.
  - assert (Hmap : forall l,
      List.map (removeStatement code) l
      = List.map (fun r => Remove (fst r) (snd r))
          (List.map (fun stmt => (start stmt, skipNewlines code (end_ stmt))) l)).
    { intros l. by rewrite List.map_map. }
    rewrite Hmap. apply BufferFacts.removals_clear.
    exists (start stmt, skipNewlines code (end_ stmt)). split; [|done].
    apply (List.in_map (fun stmt => (start stmt, skipNewlines code (end_ stmt)))).
    by apply List.filter_In.
  - intros e [<- | [<- | [<- | []]]]; cbn [touches].
    + apply andb_false_iff. right. apply Nat.ltb_ge. lia.
    + destruct (descEnd (node call)) as [|j] eqn:Ej; [done|]. apply Nat.eqb_neq. lia.
    + apply andb_false_iff. right. apply Nat.ltb_ge. lia.
Qed.

(** After the edits of the call, [__given] stands where the callee
    was. *)
Lemma given_callee_text s :
  length (cells s) = String.length code ->
  calleeStart (node call) < calleeEnd (node call) ->
  textAt (applyAll (transformGiven call code) s) (calleeStart (node call)) = "__given"
  /\ forall i,
       calleeStart (node call) < i < calleeEnd (node call) ->
       textAt (applyAll (transformGiven call code) s) i = "".
Proof.
  intros Hlen Hcallee. destruct laidOut_offsets as (H1 & H2 & H3 & H4 & H5 & H6).
  rewrite (transformGiven_edits call code callback stmts Hcb Hstmts).
  rewrite !BufferFacts.applyAll_app. set (removed := applyAll _ s).
  assert (Hlater : forall i,
    i < calleeEnd (node call) ->
    textAt (applyAll
              match modifier call with
              | Some m =>
                  [AppendLeft (lastArgEnd (node call)) (", describe." +:+ modifierName m)]
              | None => []
              end
              (applyAll
                 [Overwrite (calleeStart (node call)) (calleeEnd (node call)) "__given";
                  AppendLeft (descEnd (node call))
                    (", " +:+ configObj
                       (givenConfigParts
                          (lastAssigned None
                             (List.map (slotBody code "$inputs")
                                (List.filter isInputsAssignment stmts)))
                          (lastAssigned None
                             (List.map (slotBody code "$subject")
                                (List.filter isSubjectAssignment stmts)))));
                  Overwrite (start callback) (getCallbackHeaderEnd callback)
                    (asyncPrefix callback +:+ "(__ctx) =>")] removed)) i
    = textAt (apply removed
                (Overwrite (calleeStart (node call)) (calleeEnd (node call)) "__given")) i).
  { intros i Hi.
    rewrite BufferFacts.textAt_untouched by (apply modifier_untouched; lia).
    cbn [applyAll List.fold_left].
    rewrite BufferFacts.textAt_apply_untouched
      by (cbn [touches]; apply andb_false_iff; left; apply Nat.leb_gt; lia).
    apply BufferFacts.textAt_apply_untouched. cbn [touches].
    destruct (descEnd (node call)) as [|j] eqn:Ej; [done|]. apply Nat.eqb_neq. lia. }
  assert (Hlength : calleeStart (node call) < length (cells removed)).
  { unfold removed. rewrite BufferFacts.length_applyAll. lia. }
  destruct (BufferFacts.textAt_apply_overwrite (calleeStart (node call))
              (calleeEnd (node call)) "__given" removed Hcallee Hlength) as [Hfirst Hrest].
  split.
  - rewrite Hlater by lia. exact Hfirst.
  - intros i Hi. rewrite Hlater by lia. by apply Hrest.
Qed.

End GivenText.

(** The entries of the configuration of a [given], as text. *)
Lemma given_config_entries (a b : string) :
  configObj (givenConfigParts (Some a) (Some b))
  = "{ inputs: () => " +:+ a +:+ ", subject: ($inputs) => " +:+ b +:+ " }"
  /\ configObj (givenConfigParts (Some a) None) = "{ inputs: () => " +:+ a +:+ " }"
  /\ configObj (givenConfigParts None (Some b)) = "{ subject: ($inputs) => " +:+ b +:+ " }"
  /\ configObj (givenConfigParts None None) = "{  }".
Proof.
  unfold configObj, givenConfigParts. cbn [app String.concat].
  repeat split; rewrite ?JsFacts.append_assoc; done.
Qed.

(** C7, as amended.  Take a [given] call of a transformed file, with an
    inline callback that has a block body, laid out as a parsed file has
    it.  The configuration the call gets has the entry [inputs: () => EXPR]
    for the last assignment [$inputs = EXPR] among the direct statements of
    the callback, and none if there is no such assignment; likewise the
    entry [subject: ($inputs) => EXPR], a one-parameter factory whose
    parameter is named [$inputs], for the last assignment [$subject = EXPR];
    in both, the text of EXPR is put in parentheses exactly when EXPR is an
    object literal, possibly inside [as], [satisfies] or parentheses.  In
    the output the configuration stands, after a comma, behind what the
    output has for the last character of the first argument, which is that
    character itself unless a call rewritten earlier wrote to it; and of
    every assignment to [$inputs] or [$subject] among the statements, the
    earlier ones included, and of the line terminators after it, nothing is
    in the output.  Both hold of the characters that no call rewritten
    later writes to. *)
Theorem given_factories_extracted :
  forall (code id : string) (sourceFile : Node) (result : TransformResult)
         (earlier later : list BddCall) (call : BddCall)
         (callback : Node) (stmts : list Node),
    transformBddSyntax code id sourceFile = Some result ->
    sortByDepth (collectBddCalls sourceFile) = earlier ++ call :: later ->
    kind call = given ->
    getCallbackArg (node call) = Some callback ->
    getBodyStatements callback = Some stmts ->
    TransformTerms.laidOut code (node call) callback stmts = true ->
    let calls := sortByDepth (collectBddCalls sourceFile) in
    let final := TransformTerms.editedBuffer code calls in
    let body rhs :=
      if isObjectLiteralLike rhs
      then "(" +:+ getNodeText code rhs +:+ ")"
      else getNodeText code rhs in
    exists inputsExpr subjectExpr : option string,
      (forall earlierStmts stmt binExpr rhs,
          List.filter isInputsAssignment stmts = earlierStmts ++ [stmt] ->
          assignmentTo "$inputs" stmt = Some binExpr ->
          right binExpr = Some rhs ->
          inputsExpr = Some (body rhs))
      /\ (List.filter isInputsAssignment stmts = [] -> inputsExpr = None)
      /\ (forall earlierStmts stmt binExpr rhs,
            List.filter isSubjectAssignment stmts = earlierStmts ++ [stmt] ->
            assignmentTo "$subject" stmt = Some binExpr ->
            right binExpr = Some rhs ->
            subjectExpr = Some (body rhs))
      /\ (List.filter isSubjectAssignment stmts = [] -> subjectExpr = None)
      /\ (forall rhs, isObjectLiteralLike rhs = true <-> ObjectLiteralLike rhs)
      /\ (forall a b,
            configObj (givenConfigParts (Some a) (Some b))
            = "{ inputs: () => " +:+ a +:+ ", subject: ($inputs) => " +:+ b +:+ " }"
            /\ configObj (givenConfigParts (Some a) None) = "{ inputs: () => " +:+ a +:+ " }"
            /\ configObj (givenConfigParts None (Some b))
               = "{ subject: ($inputs) => " +:+ b +:+ " }"
            /\ configObj (givenConfigParts None None) = "{  }")
      /\ (TransformTerms.untouchedBy code later (descEnd (node call) - 1) = true ->
          exists kept,
            Buffer.textAt final (descEnd (node call) - 1)
            = kept +:+ ", " +:+ configObj (givenConfigParts inputsExpr subjectExpr)
            /\ (TransformTerms.untouchedBy code earlier (descEnd (node call) - 1) = true ->
                kept = String.substring (descEnd (node call) - 1) 1 code))
      /\ (forall stmt i,
            In stmt stmts ->
            isInputsAssignment stmt || isSubjectAssignment stmt = true ->
            start stmt <= i < skipNewlines code (end_ stmt) ->
            TransformTerms.untouchedBy code later i = true ->
            Buffer.textAt final i = "")
      /\ Transform.code result
         = TransformTerms.importLines calls +:+ intro final
           +:+ String.concat ""
                 (List.map (Buffer.textAt final) (List.seq 0 (String.length code))).
Proof.
  intros code id sourceFile result earlier later call callback stmts
    Hresult Hsorted Hkind Hcb Hstmts Hlayout calls final body.
  assert (Hfinal : final
    = List.fold_left (fun s c => applyAll (transformCall c code) s) later
        (applyAll (transformGiven call code) (TransformTerms.editedBuffer code earlier))).
  { unfold final, calls. rewrite Hsorted, OutputFacts.editedBuffer_app.
    cbn [List.fold_left]. unfold transformCall at 2. by rewrite Hkind. }
  exists (lastAssigned None
            (List.map (slotBody code "$inputs") (List.filter isInputsAssignment stmts))),
         (lastAssigned None
            (List.map (slotBody code "$subject") (List.filter isSubjectAssignment stmts))).
  split; [|split; [|split; [|split; [|split; [|split; [|split; [|split]]]]]]].
  - intros earlierStmts stmt binExpr rhs Hlast Hassign Hright.
    by apply (last_assignment_is_factory "$inputs" isInputsAssignment code stmts
                earlierStmts stmt binExpr rhs).
  - by intros ->.
  - intros earlierStmts stmt binExpr rhs Hlast Hassign Hright.
    by apply (last_assignment_is_factory "$subject" isSubjectAssignment code stmts
                earlierStmts stmt binExpr rhs).
  - by intros ->.
  - apply isObjectLiteralLike_iff.
  - apply given_config_entries.
  - intros Hlater.
    exists (Buffer.textAt (TransformTerms.editedBuffer code earlier) (descEnd (node call) - 1)).
    split.
    + rewrite Hfinal, OutputFacts.edited_untouched by exact Hlater.
      rewrite <- JsFacts.append_assoc.
      rewrite (given_config_text call code callback stmts Hcb Hstmts Hlayout)
        by apply OutputFacts.length_editedBuffer.
      by rewrite !JsFacts.append_assoc.
    + intros Hearlier. unfold TransformTerms.editedBuffer.
      rewrite OutputFacts.edited_untouched by exact Hearlier.
      apply BufferFacts.textAt_create.
      destruct (laidOut_offsets call code callback stmts Hlayout) as (H1 & H2 & _). lia.
  - intros stmt i Hin Hassign Hi Hlater.
    rewrite Hfinal, OutputFacts.edited_untouched by exact Hlater.
    by apply (given_removed_text call code callback stmts Hcb Hstmts Hlayout _ stmt).
  - by apply (OutputFacts.output_by_character code id).
Qed.

(** The [given] of the specification's scenario A: what the output has
    behind the description, and that nothing is left of the first
    assignment. *)
Lemma given_factories_extracted_witness :
  let file := Sources.scenarioA in
  let code := Fixture.source file in
  let calls := sortByDepth (collectBddCalls (Fixture.tree file)) in
  Buffer.textAt (TransformTerms.editedBuffer code calls) 12
  = dq +:+ ", { inputs: () => ({ value: 0 }), "
    +:+ "subject: ($inputs) => new Foo($inputs.value) }"
  /\ Buffer.textAt (TransformTerms.editedBuffer code calls) 25 = "".
Proof.
  intros file code calls.
  pose (call := Sources.collected file 0).
  pose (stmts := Sources.callbackStatements call).
  pose (nthStmt := fun i => List.nth i stmts (node call)).
  pose (binExprOf := fun slot stmt =>
          match assignmentTo slot stmt with Some b => b | None => stmt end).
  pose (rhsOf := fun binExpr => match right binExpr with Some r => r | None => binExpr end).
  destruct (given_factories_extracted code "a.test.ts" (Fixture.tree file)
              (MoreSources.outputOf file)
              (List.firstn 3 calls) [] call (Sources.callbackOf call) stmts)
    as (inputsExpr & subjectExpr & Hinputs & _ & Hsubject & _ & _ & _ & Htext & Hgone & _);
    try (vm_compute; reflexivity).
  destruct (Htext eq_refl) as (kept & Hconfig & Hkept).
  rewrite (Hinputs [] (nthStmt 0) (binExprOf "$inputs" (nthStmt 0))
             (rhsOf (binExprOf "$inputs" (nthStmt 0)))) in Hconfig
    by (vm_compute; reflexivity).
  rewrite (Hsubject [] (nthStmt 1) (binExprOf "$subject" (nthStmt 1))
             (rhsOf (binExprOf "$subject" (nthStmt 1)))) in Hconfig
    by (vm_compute; reflexivity).
  rewrite Hkept in Hconfig by (vm_compute; reflexivity).
  split.
  - etrans; [exact Hconfig|]. vm_compute. reflexivity.
  - apply (Hgone (nthStmt 0) 25).
    + vm_compute. left. reflexivity.
    + vm_compute. reflexivity.
    + vm_compute. lia.
    + reflexivity.
Defined.

(** C7 fails as stated.  Of two assignments to [$inputs] in one [given]
    callback the first, [$inputs = { value: 0 }], gets no factory: the
    configuration has the right-hand side of the second only, and the text
    of the first is nowhere in the output.  And the assignment in the
    callback of a [given] that stands inside a perform statement of a
    [when] gets no factory and is not removed: the statement is copied as
    it was. *)
Lemma some_assignments_get_no_factory :
  (exists stmt binExpr rhs,
      List.nth_error
        (Sources.callbackStatements (Sources.collected MoreSources.reassigned 0)) 0
      = Some stmt
      /\ assignmentTo "$inputs" stmt = Some binExpr
      /\ right binExpr = Some rhs
      /\ getNodeText (Fixture.source MoreSources.reassigned) rhs = "{ value: 0 }"
      /\ Buffer.textAt
           (TransformTerms.editedBuffer (Fixture.source MoreSources.reassigned)
              (sortByDepth (collectBddCalls (Fixture.tree MoreSources.reassigned))))
           17
         = dq +:+ ", { inputs: () => ({ value: 1 }) }"
      /\ Js.includes (Transform.code (MoreSources.outputOf MoreSources.reassigned))
           "{ value: 0 }" = false)
  /\ (exists stmt binExpr,
        kind (Sources.collected MoreSources.givenInPerform 2) = given
        /\ Sources.callbackStatements (Sources.collected MoreSources.givenInPerform 2)
           = [stmt]
        /\ assignmentTo "$inputs" stmt = Some binExpr
        /\ Js.includes (Transform.code (MoreSources.outputOf MoreSources.givenInPerform))
             "inputs: () =>" = false
        /\ Js.includes (Transform.code (MoreSources.outputOf MoreSources.givenInPerform))
             "$inputs = { value: 0 };" = true).
Proof.
  split.
  - eexists. eexists. eexists. split; [vm_compute; reflexivity|].
    repeat split; vm_compute; reflexivity.
  - eexists. eexists. split; [vm_compute; reflexivity|].
    split; [vm_compute; reflexivity|]. repeat split; vm_compute; reflexivity.
Qed.

(** *** The second pass over an output *)

(** C9, as amended.  A second application of [transformBddSyntax], to the
    output of the first parsed again, returns unmodified exactly when that
    file has no recognized [given] call (or imports [given]).  The first
    application puts [__given] in the place of the callee of every [given]
    it rewrites, that is, of every collected [given] with an inline
    callback that has a block body, as long as no call rewritten later
    writes to the callee; and a call whose callee is the identifier
    [__given], [__when] or [__it] is not recognized.  On the output for
    Scenario A of the specification the second application returns
    unmodified. *)
Theorem second_pass_is_noop_without_given :
  (forall code id sourceFile,
      transformBddSyntax code id sourceFile = None
      <-> importsGiven sourceFile = true
          \/ forall o, In o (fileOccurrences sourceFile) -> isGivenCall (snd o) = false)
  /\ (forall code id sourceFile result earlier call later callback stmts,
        transformBddSyntax code id sourceFile = Some result ->
        sortByDepth (collectBddCalls sourceFile) = earlier ++ call :: later ->
        kind call = given ->
        getCallbackArg (node call) = Some callback ->
        getBodyStatements callback = Some stmts ->
        TransformTerms.laidOut code (node call) callback stmts = true ->
        calleeStart (node call) < calleeEnd (node call) ->
        (forall i,
            calleeStart (node call) <= i < calleeEnd (node call) ->
            TransformTerms.untouchedBy code later i = true) ->
        let calls := sortByDepth (collectBddCalls sourceFile) in
        let final := TransformTerms.editedBuffer code calls in
        Buffer.textAt final (calleeStart (node call)) = "__given"
        /\ (forall i,
              calleeStart (node call) < i < calleeEnd (node call) ->
              Buffer.textAt final i = "")
        /\ Transform.code result
           = TransformTerms.importLines calls +:+ intro final
             +:+ String.concat ""
                   (List.map (Buffer.textAt final) (List.seq 0 (String.length code))))
  /\ (forall k n callee,
        expression n = Some callee ->
        isKind Identifier callee = true ->
        text callee = helperName k ->
        parsedCall n = None)
  /\ (transformBddSyntax (Fixture.source Sources.scenarioA) "a.test.ts"
        (Fixture.tree Sources.scenarioA)
      = Some (mkResult (Fixture.source MoreSources.scenarioAOutput))
      /\ transformBddSyntax (Fixture.source MoreSources.scenarioAOutput) "a.test.ts"
           (Fixture.tree MoreSources.scenarioAOutput)
         = None).
Proof.
  split; [|split; [|split; [exact helper_not_recognized|]]].
  - intros code id sourceFile. rewrite transform_null_iff, collect_nil_iff. done.
  - intros code id sourceFile result earlier call later callback stmts
      Hresult Hsorted Hkind Hcb Hstmts Hlayout Hcallee Hlater calls final.
    assert (Hfinal : final
      = List.fold_left (fun s c => applyAll (transformCall c code) s) later
          (applyAll (transformGiven call code) (TransformTerms.editedBuffer code earlier))).
    { unfold final, calls. rewrite Hsorted, OutputFacts.editedBuffer_app.
      cbn [List.fold_left]. unfold transformCall at 2. by rewrite Hkind. }
    destruct (given_callee_text call code callback stmts Hcb Hstmts Hlayout
                (TransformTerms.editedBuffer code earlier)
                (OutputFacts.length_editedBuffer code earlier) Hcallee) as [Hfirst Hrest].
    split; [|split].
    + rewrite Hfinal, OutputFacts.edited_untouched by (apply Hlater; lia). exact Hfirst.
    + intros i Hi. rewrite Hfinal, OutputFacts.edited_untouched by (apply Hlater; lia).
      by apply Hrest.
    + by apply (OutputFacts.output_by_character code id).
  - split; vm_compute; reflexivity.
Qed.

(** The [given] call of the specification's scenario: [__given] stands in
    the place of its callee. *)
Lemma second_pass_is_noop_without_given_witness :
  let file := Sources.scenarioA in
  let calls := sortByDepth (collectBddCalls (Fixture.tree file)) in
  let final := TransformTerms.editedBuffer (Fixture.source file) calls in
  Buffer.textAt final 0 = "__given"
  /\ Buffer.textAt final 1 = ""
  /\ Buffer.textAt final 4 = "".
Proof.
  intros file calls final.
  pose (call := Sources.collected file 0).
  destruct (proj1 (proj2 second_pass_is_noop_without_given)
              (Fixture.source file) "a.test.ts" (Fixture.tree file)
              (MoreSources.outputOf file) (List.firstn 3 calls) call []
              (Sources.callbackOf call) (Sources.callbackStatements call))
    as (Hfirst & Hrest & _);
    [vm_compute; reflexivity | vm_compute; reflexivity | vm_compute; reflexivity
    | vm_compute; reflexivity | vm_compute; reflexivity | vm_compute; reflexivity
    | vm_compute; lia | intros i _; reflexivity |].
  split; [exact Hfirst|]. split; apply Hrest; vm_compute; lia.
Defined.

(** C9 fails as stated: the callee of a [given] whose inline callback has
    an expression body is left as it is, so the output of the first pass,
    import line included, is transformed again by the second. *)
Lemma second_pass_transforms_again :
  exists out,
    transformBddSyntax (Fixture.source Sources.expressionBody) "a.test.ts"
      (Fixture.tree Sources.expressionBody) = Some (mkResult out)
    /\ out = Fixture.source Sources.expressionBodyOutput
    /\ importsRegistrationFunction (Fixture.tree Sources.expressionBodyOutput) = true
    /\ transformBddSyntax out "a.test.ts" (Fixture.tree Sources.expressionBodyOutput)
       <> None.
Proof.
  eexists. split; [vm_compute; reflexivity|].
  split; [vm_compute; reflexivity|]. split; [vm_compute; reflexivity|].
  vm_compute. discriminate.
Qed.

(** Scenario A of the specification: the edits of its [given], and the
    whole output. *)
Example scenarioA_given_edits :
  transformGiven (Sources.collected Sources.scenarioA 0) (Fixture.source Sources.scenarioA)
  = [Remove 25 49; Remove 51 86; Overwrite 0 5 "__given";
     AppendLeft 13
       ", { inputs: () => ({ value: 0 }), subject: ($inputs) => new Foo($inputs.value) }";
     Overwrite 15 20 "(__ctx) =>"].
Proof. vm_compute. reflexivity. Qed.

(** The output for a file with vitest's own [it] next to a [given]: the
    text before the [given] call is carried over as it is. *)
Example mixed_file_output :
  transformBddSyntax (Fixture.source Sources.mixedFile) "a.test.ts"
    (Fixture.tree Sources.mixedFile)
  = Some (mkResult
      (runtimeImport ["__given"; "__it"] +:+ nl
       +:+ String.substring 0 63 (Fixture.source Sources.mixedFile)
       +:+ "__given(" +:+ dq +:+ "a Foo" +:+ dq
       +:+ ", { inputs: () => ({ value: 0 }) }, (__ctx) => {" +:+ nl
       +:+ "    __it(" +:+ dq +:+ "in a scenario" +:+ dq +:+ ", ($subject) => {" +:+ nl
       +:+ "  }, __ctx);" +:+ nl
       +:+ "});" +:+ nl))
  /\ List.map (fun c => (kind c, start (node c)))
       (collectBddCalls (Fixture.tree Sources.mixedFile))
     = [(given, 63); (it, 114)].
Proof. vm_compute. split; reflexivity. Qed.

(** A call with a type argument: the configuration goes behind the first
    argument proper, not behind the type argument. *)
Example typed_given_output :
  List.map (fun a => (start a, end_ a))
    (arguments (node (Sources.collected MoreSources.typedGiven 0)))
  = [(11, 18); (20, 55)]
  /\ transformGiven (Sources.collected MoreSources.typedGiven 0)
       (Fixture.source MoreSources.typedGiven)
     = [Remove 30 54; Overwrite 0 5 "__given";
        AppendLeft 18 ", { inputs: () => ({ value: 0 }) }";
        Overwrite 20 25 "(__ctx) =>"]
  /\ Transform.code (MoreSources.outputOf MoreSources.typedGiven)
     = runtimeImport ["__given"] +:+ nl
       +:+ "__given<Foo>(" +:+ dq +:+ "a Foo" +:+ dq
       +:+ ", { inputs: () => ({ value: 0 }) }, (__ctx) => {" +:+ nl
       +:+ "  });" +:+ nl.
Proof. vm_compute. repeat split; reflexivity. Qed.

(** A nested [when] with a type argument and [$subject] in its first
    argument: the reference scan looks at that argument, so the statement
    is a perform statement. *)
Example typed_when_is_perform :
  List.map classOf
    (Sources.callbackStatements (Sources.collected MoreSources.typedWhen 1))
  = [PerformStmt]
  /\ Transform.code (MoreSources.outputOf MoreSources.typedWhen)
     = runtimeImport ["__given"; "__when"] +:+ nl
       +:+ "__given(" +:+ dq +:+ "a Foo" +:+ dq +:+ ", {  }, (__ctx) => {" +:+ nl
       +:+ "  __when(" +:+ dq +:+ "outer" +:+ dq
       +:+ ", { perform: ($subject) => { when<Foo>($subject.label, () => {" +:+ nl
       +:+ "    }); } }, (__ctx) => {" +:+ nl
       +:+ "      }, __ctx);" +:+ nl
       +:+ "});" +:+ nl.
Proof. vm_compute. split; reflexivity. Qed.

(** A [given] inside a perform statement of a [when]: the edits made for
    it are removed with the statement, whose text is copied into the
    configuration as it was.  The inner [given] stands in the output
    untransformed, its assignment to [$inputs] in place, although every
    callback of the file is inline with a block body. *)
Example given_inside_perform_is_copied :
  List.map (fun c => (kind c, depth c))
    (sortByDepth (collectBddCalls (Fixture.tree MoreSources.givenInPerform)))
  = [(given, 2); (when, 1); (given, 0)]
  /\ Transform.code (MoreSources.outputOf MoreSources.givenInPerform)
     = runtimeImport ["__given"; "__when"] +:+ nl
       +:+ "__given(" +:+ dq +:+ "outer" +:+ dq +:+ ", {  }, (__ctx) => {" +:+ nl
       +:+ "  __when(" +:+ dq +:+ "acts" +:+ dq
       +:+ ", { perform: ($subject) => { $subject.run(() => {" +:+ nl
       +:+ "      given(" +:+ dq +:+ "inner" +:+ dq +:+ ", () => {" +:+ nl
       +:+ "        $inputs = { value: 0 };" +:+ nl
       +:+ "      });" +:+ nl
       +:+ "    }); } }, (__ctx) => {" +:+ nl
       +:+ "      }, __ctx);" +:+ nl
       +:+ "});" +:+ nl.
Proof. vm_compute. split; reflexivity. Qed.

End TransformFacts.

(* ===================================================================== *)
(** ** Facts about the runtime *)
(* ===================================================================== *)

Module RuntimeFacts.
Import Runtime.

Section WithValues.
Context {Val : Type}.
Variable code : @Code Val.
Local Abbreviation Heap := (list Val) (only parsing).

Lemma extends_refl st : extends st st.
Proof. exists []. by rewrite app_nil_r. Qed.

Lemma extends_trans st1 st2 st3 : extends st1 st2 -> extends st2 st3 -> extends st1 st3.
Proof. intros [a ->] [b ->]. exists (a ++ b). by rewrite app_assoc. Qed.

Lemma readArr_extends st st' r :
  extends st st' -> r < length st -> readArr st' r = readArr st r.
Proof.
  intros [more ->] Hr. unfold readArr. by rewrite lookup_app_l.
Qed.

(** The steps of the two loops. *)
Lemma runModifiers_steps mods i h log :
  List.map fst (snd (runModifiers code mods i h log))
  = List.map fst log ++ List.map (fun m => CallModifier m i) mods.
Proof.
  revert h log. induction mods as [|m mods IH]; intros h log; simpl.
  - by rewrite app_nil_r.
  - rewrite IH. rewrite List.map_app. simpl. by rewrite <- app_assoc.
Qed.

Lemma runPerforms_steps perfs s h log :
  List.map fst (snd (runPerforms code perfs s h log))
  = List.map fst log
    ++ List.flat_map (fun p => [CallPerform p s; AwaitPerform p]) perfs.
Proof.
  revert h log. induction perfs as [|p perfs IH]; intros h log; simpl.
  - by rewrite app_nil_r.
  - destruct (performCode code p s h) as [pend h1]. rewrite IH.
    rewrite List.map_app. simpl. by rewrite <- app_assoc.
Qed.

Lemma itBody_steps testFn ctx st h :
  exists li ls,
    List.map fst (fst (itBody code testFn ctx st h))
    = expectedSteps ctx (readArr st (modifiers ctx)) (readArr st (performs ctx)) testFn li ls.
Proof.
  unfold itBody, expectedSteps.
  destruct (inputsCode code (inputs ctx) h) as [li h1] eqn:Ei.
  pose proof (runModifiers_steps (readArr st (modifiers ctx)) li h1
                [(CallInputs (inputs ctx) li, h)]) as Hm.
  destruct (runModifiers code _ li h1 _) as [h2 log2]. simpl in Hm.
  destruct (subjectCode code (subject ctx) li h2) as [ls h3] eqn:Es.
  pose proof (runPerforms_steps (readArr st (performs ctx)) ls h3
                (log2 ++ [(CallSubject (subject ctx) li ls, h2)])) as Hp.
  destruct (runPerforms code _ ls h3 _) as [h4 log4]. simpl in Hp.
  destruct (testCode code testFn ls h4) as [pend h5].
  exists li, ls. simpl.
  rewrite List.map_app, Hp, List.map_app, Hm. simpl.
  by rewrite <- !app_assoc.
Qed.

(** The two loops and the closure of [__it], with the heaps. *)
Lemma runModifiers_run mods : forall i h log,
  runModifiers code mods i h log
  = (Execution.afterModifiers code mods i h,
     log ++ imap (fun k m => (CallModifier m i,
                              Execution.afterModifiers code (take k mods) i h)) mods).
Proof.
  induction mods as [|m mods IH]; intros i h log.
  - cbn. by rewrite app_nil_r.
  - cbn [runModifiers]. rewrite IH. cbn [imap]. rewrite <- app_assoc. done.
Qed.

Lemma runPerforms_run perfs : forall s h log,
  runPerforms code perfs s h log
  = (Execution.afterPerforms code perfs s h,
     log ++ List.concat
              (imap (fun k p =>
                       let h' := Execution.afterPerforms code (take k perfs) s h in
                       [(CallPerform p s, h');
                        (AwaitPerform p, snd (performCode code p s h'))]) perfs)).
Proof.
  induction perfs as [|p perfs IH]; intros s h log.
  - cbn. by rewrite app_nil_r.
  - cbn [runPerforms]. destruct (performCode code p s h) as [pend h1] eqn:Ep.
    rewrite IH.
    assert (Hstep : forall l,
      Execution.afterPerforms code (p :: l) s h
      = Execution.afterPerforms code l s (await pend h1)).
    { intros l. unfold Execution.afterPerforms. cbn [List.fold_left]. by rewrite Ep. }
    rewrite (Hstep perfs). f_equal. rewrite <- app_assoc. f_equal.
    cbn [imap List.concat take].
    change (Execution.afterPerforms code [] s h) with h. rewrite Ep. cbn [snd].
    f_equal. f_equal. apply imap_ext. intros k q _. cbn [take compose].
    by rewrite Hstep.
Qed.

Lemma itBody_run testFn ctx st h :
  itBody code testFn ctx st h
  = Execution.expectedRun code (inputs ctx) (subject ctx)
      (readArr st (modifiers ctx)) (readArr st (performs ctx)) testFn h.
Proof.
  unfold itBody, Execution.expectedRun.
  destruct (inputsCode code (inputs ctx) h) as [li h1]. cbn [fst snd].
  rewrite runModifiers_run.
  destruct (subjectCode code (subject ctx) li _) as [ls h3]. cbn [fst snd].
  rewrite runPerforms_run.
  destruct (testCode code testFn ls _) as [pend h5]. cbn [fst snd].
  unfold await, Execution.settled. by rewrite <- !app_assoc.
Qed.

(** What [whenCtx] allocates and what it leaves alone. *)
Lemma whenCtx_spec config parentCtx st :
  modifiers parentCtx < length st ->
  performs parentCtx < length st ->
  let ctx := fst (whenCtx config parentCtx st) in
  let st' := snd (whenCtx config parentCtx st) in
  extends st st'
  /\ modifiers ctx = length st /\ performs ctx = S (length st)
  /\ length st' = S (S (length st))
  /\ inputs ctx = inputs parentCtx /\ subject ctx = subject parentCtx
  /\ readArr st' (modifiers ctx)
     = readArr st (modifiers parentCtx) ++ optional (modifier config)
  /\ readArr st' (performs ctx)
     = readArr st (performs parentCtx) ++ optional (perform config).
Proof.
  intros Hm Hp. unfold whenCtx, alloc. simpl.
  set (ms := readArr st (modifiers parentCtx) ++ optional (modifier config)).
  assert (Hps : readArr (st ++ [ms]) (performs parentCtx) = readArr st (performs parentCtx)).
  { apply readArr_extends; [by exists [ms] | done]. }
  rewrite Hps.
  set (ps := readArr st (performs parentCtx) ++ optional (perform config)).
  repeat split.
  - exists [ms; ps]. by rewrite <- app_assoc.
  - rewrite length_app. simpl. lia.
  - rewrite !length_app. simpl. lia.
  - unfold readArr. rewrite lookup_app_l by (rewrite length_app; simpl; lia).
    rewrite lookup_app_r by lia. by rewrite Nat.sub_diag.
  - unfold readArr. rewrite length_app. simpl.
    replace (length st + 1) with (length (st ++ [ms])) by (rewrite length_app; simpl; lia).
    rewrite lookup_app_r by lia. by rewrite Nat.sub_diag.
Qed.

Lemma descend_cons config path ctx st :
  descend (config :: path) ctx st
  = descend path (fst (whenCtx config ctx st)) (snd (whenCtx config ctx st)).
Proof. simpl. by destruct (whenCtx config ctx st). Qed.

(** The context at the end of a path of nested [when] blocks. *)
Lemma descend_spec path : forall ctx st,
  modifiers ctx < length st ->
  performs ctx < length st ->
  let ctx' := fst (descend path ctx st) in
  let st' := snd (descend path ctx st) in
  extends st st'
  /\ modifiers ctx' < length st' /\ performs ctx' < length st'
  /\ inputs ctx' = inputs ctx /\ subject ctx' = subject ctx
  /\ readArr st' (modifiers ctx')
     = readArr st (modifiers ctx) ++ List.flat_map (fun c => optional (modifier c)) path
  /\ readArr st' (performs ctx')
     = readArr st (performs ctx) ++ List.flat_map (fun c => optional (perform c)) path.
Proof.
  induction path as [|config path IH]; intros ctx st Hm Hp.
  - simpl. rewrite !app_nil_r. repeat split; auto using extends_refl.
  - rewrite descend_cons.
    destruct (whenCtx_spec config ctx st Hm Hp)
      as (Hext & Hcm & Hcp & Hlen & Hi & Hs & Hrm & Hrp).
    destruct (whenCtx config ctx st) as [child st1] eqn:E. cbn [fst snd] in *.
    cbn [List.flat_map].
    destruct (IH child st1) as (Hext' & Hm' & Hp' & Hi' & Hs' & Hrm' & Hrp'); [lia | lia |].
    split; [exact (extends_trans _ _ _ Hext Hext')|].
    split; [done|]. split; [done|].
    split; [congruence|]. split; [congruence|].
    split.
    + rewrite Hrm', Hrm. by rewrite <- app_assoc.
    + rewrite Hrp', Hrp. by rewrite <- app_assoc.
Qed.

(** A chain of [when] blocks registers one case, under the context at the
    end of the path. *)
Lemma chain_cases whens itName testFn : forall ctx st,
  List.flat_map cases (snd (chain code whens itName testFn ctx st))
  = [itBody code testFn (fst (descend (List.map snd whens) ctx st))]
  /\ fst (chain code whens itName testFn ctx st)
     = snd (descend (List.map snd whens) ctx st).
Proof.
  induction whens as [|[scenario config] whens IH]; intros ctx st.
  - done.
  - cbn [List.map snd]. rewrite descend_cons.
    cbn [chain]. unfold __when, describe, describeWith.
    destruct (whenCtx config ctx st) as [child st1].
    specialize (IH child st1). cbn [fst snd].
    destruct (chain code whens itName testFn child st1) as [st2 tasks].
    cbn [fst snd List.flat_map cases] in *. rewrite app_nil_r. done.
Qed.

Lemma givenCtx_spec config st :
  let ctx := fst (givenCtx config st) in
  let st' := snd (givenCtx config st) in
  extends st st'
  /\ modifiers ctx < length st' /\ performs ctx < length st'
  /\ inputs ctx = g_inputs config /\ subject ctx = g_subject config
  /\ readArr st' (modifiers ctx) = [] /\ readArr st' (performs ctx) = [].
Proof.
  unfold givenCtx, alloc. simpl. repeat split.
  - exists [[]; []]. by rewrite <- app_assoc.
  - rewrite !length_app. simpl. lia.
  - rewrite !length_app. simpl. lia.
  - unfold readArr. rewrite lookup_app_l by (rewrite length_app; simpl; lia).
    rewrite lookup_app_r by lia. by rewrite Nat.sub_diag.
  - unfold readArr. rewrite length_app. simpl.
    replace (length st + 1) with (length (st ++ [[]])) by (rewrite length_app; simpl; lia).
    rewrite lookup_app_r by lia. by rewrite Nat.sub_diag.
Qed.

Lemma chain_modifiers (whens : list (string * FnId * FnId)) :
  List.flat_map (fun c => optional (modifier c))
    (List.map snd
       (List.map (fun '(n, m, p) => (n, mkWhenConfig (Some m) (Some p))) whens))
  = List.map (fun '(_, m, _) => m) whens.
Proof. induction whens as [|[[n m] p] whens IH]; simpl; congruence. Qed.

Lemma chain_performs (whens : list (string * FnId * FnId)) :
  List.flat_map (fun c => optional (perform c))
    (List.map snd
       (List.map (fun '(n, m, p) => (n, mkWhenConfig (Some m) (Some p))) whens))
  = List.map (fun '(_, _, p) => p) whens.
Proof. induction whens as [|[[n m] p] whens IH]; simpl; congruence. Qed.

Lemma expectedRun_steps inputsFn subjectFn mods perfs testFn h :
  let input := fst (inputsCode code inputsFn h) in
  let subject :=
    fst (subjectCode code subjectFn input
           (Execution.afterModifiers code mods input (snd (inputsCode code inputsFn h)))) in
  List.map fst (fst (Execution.expectedRun code inputsFn subjectFn mods perfs testFn h))
  = [CallInputs inputsFn input]
    ++ List.map (fun m => CallModifier m input) mods
    ++ [CallSubject subjectFn input subject]
    ++ List.flat_map (fun p => [CallPerform p subject; AwaitPerform p]) perfs
    ++ [CallTest testFn subject; AwaitTest testFn].
Proof.
  cbn zeta. unfold Execution.expectedRun. cbn [fst].
  rewrite !List.map_app. cbn [List.map fst app]. f_equal. f_equal.
  - generalize (snd (inputsCode code inputsFn h)).
    generalize (fst (inputsCode code inputsFn h)). intros li h1.
    assert (Hgen : forall (f : nat -> list Val) l,
      List.map fst (imap (fun k m => (CallModifier m li, f k)) l)
      = List.map (fun m => CallModifier m li) l).
    { intros f l. revert f. induction l as [|m l IH]; intros f; [done|].
      cbn [imap List.map fst]. f_equal. apply (IH (f ∘ S)). }
    apply (Hgen (fun k => Execution.afterModifiers code (take k mods) li h1)).
  - f_equal. f_equal.
    match goal with |- context [CallPerform _ ?s] => generalize s end. intros ls.
    match goal with |- context [Execution.afterPerforms code _ ls ?h] => generalize h end.
    intros h3.
    assert (Hgen : forall (f : nat -> list Val) l,
      List.map fst
        (List.concat
           (imap (fun k p => [(CallPerform p ls, f k);
                              (AwaitPerform p, snd (performCode code p ls (f k)))]) l))
      = List.flat_map (fun p => [CallPerform p ls; AwaitPerform p]) l).
    { intros f l. revert f. induction l as [|p l IH]; intros f; [done|].
      cbn [imap List.concat List.map fst app List.flat_map]. f_equal. f_equal.
      apply (IH (f ∘ S)). }
    apply (Hgen (fun k => Execution.afterPerforms code (take k perfs) ls h3)).
Qed.

(** C1.  Every execution of a case registered with [__it] is the run of
    [Execution.expectedRun] on the chains of its context: it calls
    [ctx.inputs()] once; then every modifier of the context in chain order
    on the object that call returned, each in the heap the modifiers before
    it have left; then [ctx.subject] once on that object as the modifiers
    have left it; then every perform in chain order on the subject, each
    called only when the performs before it have been called and have
    settled; then the test body on the subject, awaited.  For a [given]
    with a chain of D nested [when] blocks, each with a modifier and a
    perform, around one [it], the one case registered runs the D modifiers
    and the D performs, outermost first. *)
Theorem it_executes_in_order :
  forall (scenario : string) (testFn : FnId) (ctx : RuntimeContext) (testRunner : TestFn),
    __it code scenario testFn ctx testRunner = testRunner scenario (itBody code testFn ctx)
    /\ (forall st h,
          itBody code testFn ctx st h
          = Execution.expectedRun code (inputs ctx) (subject ctx)
              (readArr st (modifiers ctx)) (readArr st (performs ctx)) testFn h)
    /\ (forall inputsFn subjectFn mods perfs h,
          let input := fst (inputsCode code inputsFn h) in
          let subject :=
            fst (subjectCode code subjectFn input
                   (Execution.afterModifiers code mods input
                      (snd (inputsCode code inputsFn h)))) in
          List.map fst
            (fst (Execution.expectedRun code inputsFn subjectFn mods perfs testFn h))
          = [CallInputs inputsFn input]
            ++ List.map (fun m => CallModifier m input) mods
            ++ [CallSubject subjectFn input subject]
            ++ List.flat_map (fun p => [CallPerform p subject; AwaitPerform p]) perfs
            ++ [CallTest testFn subject; AwaitTest testFn])
    /\ (forall (g : string) (config : GivenConfig) (whens : list (string * FnId * FnId))
           (itName : string) (st0 : Store),
          let body :=
            chain code
              (List.map (fun '(n, m, p) => (n, mkWhenConfig (Some m) (Some p))) whens)
              itName testFn in
          let r := __given g config body describe st0 in
          exists fn,
            List.flat_map cases (snd r) = [fn]
            /\ forall h,
                fn (fst r) h
                = Execution.expectedRun code (g_inputs config) (g_subject config)
                    (List.map (fun '(_, m, _) => m) whens)
                    (List.map (fun '(_, _, p) => p) whens) testFn h).
Proof.
  intros scenario testFn ctx testRunner. split; [reflexivity|]. split; [|split].
  - intros st h. apply itBody_run.
  - intros inputsFn subjectFn mods perfs h. apply expectedRun_steps.
  - intros g config whens itName st0 body r. subst body r.
    set (ws := List.map (fun '(n, m, p) => (n, mkWhenConfig (Some m) (Some p))) whens).
    unfold __given, describe, describeWith.
    destruct (givenCtx_spec config st0) as (_ & Hm & Hp & Hi & Hs & Hrm & Hrp).
    destruct (givenCtx config st0) as [ctx0 st1]. cbn [fst snd] in *.
    destruct (chain_cases ws itName testFn ctx0 st1) as [Hcases Hst].
    destruct (descend_spec (List.map snd ws) ctx0 st1 Hm Hp)
      as (_ & _ & _ & Hi' & Hs' & Hrm' & Hrp').
    destruct (chain code ws itName testFn ctx0 st1) as [st2 tasks].
    cbn [fst snd List.flat_map cases] in *. rewrite app_nil_r.
    eexists. split; [exact Hcases|].
    intros h. subst st2. rewrite itBody_run.
    rewrite Hrm', Hrp', Hrm, Hrp, Hi', Hs', Hi, Hs. cbn [app].
    subst ws. by rewrite chain_modifiers, chain_performs.
Qed.

(** C3.  The context [__when] hands to its callback has the parent's
    chains with the optional modifier and perform of the block appended, and
    the parent's two factories.  Its chains are new arrays: no array that
    existed before the call is written, so the parent's chains read as
    before.  Along a path of nested [when] blocks the chains of the parent
    stay a prefix of the chains of every context below it. *)
Theorem when_copies_and_appends :
  forall (config : WhenConfig) (parentCtx : RuntimeContext) (st : Store),
    modifiers parentCtx < length st ->
    performs parentCtx < length st ->
    let ctx := fst (whenCtx config parentCtx st) in
    let st' := snd (whenCtx config parentCtx st) in
    (forall scenario (body : RuntimeContext -> @Reg Val) describeFn,
        exists callback,
          __when scenario config body parentCtx describeFn = describeFn scenario callback
          /\ callback st = body ctx st')
    /\ readArr st' (modifiers ctx)
       = readArr st (modifiers parentCtx) ++ optional (modifier config)
    /\ readArr st' (performs ctx)
       = readArr st (performs parentCtx) ++ optional (perform config)
    /\ inputs ctx = inputs parentCtx
    /\ subject ctx = subject parentCtx
    /\ (forall r, r < length st -> st' !! r = st !! r)
    /\ readArr st' (modifiers parentCtx) = readArr st (modifiers parentCtx)
    /\ readArr st' (performs parentCtx) = readArr st (performs parentCtx)
    /\ modifiers ctx <> modifiers parentCtx
    /\ modifiers ctx <> performs parentCtx
    /\ performs ctx <> modifiers parentCtx
    /\ performs ctx <> performs parentCtx
    /\ (forall path,
          let below := fst (descend path parentCtx st) in
          let st'' := snd (descend path parentCtx st) in
          readArr st'' (modifiers below)
          = readArr st (modifiers parentCtx)
            ++ List.flat_map (fun c => optional (modifier c)) path
          /\ readArr st'' (performs below)
             = readArr st (performs parentCtx)
               ++ List.flat_map (fun c => optional (perform c)) path).
Proof.
  intros config parentCtx st Hm Hp ctx st'.
  destruct (whenCtx_spec config parentCtx st Hm Hp)
    as (Hext & Hcm & Hcp & Hlen & Hi & Hs & Hrm & Hrp).
  fold ctx in Hcm, Hcp, Hi, Hs, Hrm, Hrp. fold st' in Hext, Hlen, Hrm, Hrp.
  split.
  { intros scenario body describeFn. eexists. split; [reflexivity|].
    subst ctx st'. cbv beta. by destruct (whenCtx config parentCtx st). }
  split; [exact Hrm|]. split; [exact Hrp|]. split; [exact Hi|]. split; [exact Hs|].
  split.
  { intros r Hr. destruct Hext as [more ->]. by apply lookup_app_l. }
  split; [by apply readArr_extends|]. split; [by apply readArr_extends|].
  split; [lia|]. split; [lia|]. split; [lia|]. split; [lia|].
  intros path below st''. subst below st''.
  destruct (descend_spec path parentCtx st Hm Hp) as (_ & _ & _ & _ & _ & H1 & H2).
  by split.
Qed.

(** *** Isolation *)

Lemma alter_last {A} (g : A -> A) (pre : list A) (v : A) :
  alter g (length pre) (pre ++ [v]) = pre ++ [g v].
Proof.
  rewrite alter_app_r_alt by lia. by rewrite Nat.sub_diag.
Qed.

Lemma lookup_last {A} (pre : list A) (v : A) : (pre ++ [v]) !! length pre = Some v.
Proof. by apply list_lookup_middle. Qed.

(** On a heap whose last object is the input, modifiers that mutate their
    argument leave the rest of the heap alone; the value they leave in the
    input and the values they saw depend on the input alone. *)
Lemma runModifiers_local mods :
  Forall (fun m => mutatesArg (modifierCode code m)) mods ->
  exists (out : Val -> Val) (views : Val -> list (option Val)),
    forall pre v log, exists entries,
      runModifiers code mods (length pre) (pre ++ [v]) log
      = (pre ++ [out v], log ++ entries)
      /\ List.map seen entries = views v
      /\ List.map fst entries = List.map (fun m => CallModifier m (length pre)) mods.
Proof.
  induction mods as [|m mods IH]; intros Hall.
  - exists (fun v => v), (fun _ => []). intros pre v log. exists [].
    simpl. by rewrite app_nil_r.
  - apply Forall_cons in Hall as [[g Hg] Hall].
    destruct (IH Hall) as (out & views & Hrun).
    exists (fun v => out (g v)), (fun v => Some v :: views (g v)).
    intros pre v log. cbn [runModifiers].
    rewrite Hg, alter_last.
    destruct (Hrun pre (g v) (log ++ [(CallModifier m (length pre), pre ++ [v])]))
      as (entries & -> & Hviews & Hsteps).
    exists ((CallModifier m (length pre), pre ++ [v]) :: entries). split; [|split].
    + by rewrite <- app_assoc.
    + cbn [List.map seen]. by rewrite lookup_last, Hviews.
    + cbn [List.map fst]. by rewrite Hsteps.
Qed.

Lemma runPerforms_local perfs :
  Forall (fun p => mutatesArgAsync (performCode code p)) perfs ->
  exists (out : Val -> Val) (views : Val -> list (option Val)),
    forall pre v log, exists entries,
      runPerforms code perfs (length pre) (pre ++ [v]) log
      = (pre ++ [out v], log ++ entries)
      /\ List.map seen entries = views v
      /\ List.map fst entries
         = List.flat_map (fun p => [CallPerform p (length pre); AwaitPerform p]) perfs.
Proof.
  induction perfs as [|p perfs IH]; intros Hall.
  - exists (fun v => v), (fun _ => []). intros pre v log. exists [].
    simpl. by rewrite app_nil_r.
  - apply Forall_cons in Hall as [(g & k & Hg) Hall].
    destruct (IH Hall) as (out & views & Hrun).
    set (settle := fun v => match k with Some g' => g' (g v) | None => g v end).
    exists (fun v => out (settle v)), (fun v => Some v :: None :: views (settle v)).
    intros pre v log. cbn [runPerforms].
    rewrite Hg, alter_last.
    assert (Hawait : await (option_map (fun g' => alter g' (length pre)) k) (pre ++ [g v])
                     = pre ++ [settle v]).
    { subst settle. destruct k as [g'|]; simpl; [apply alter_last | done]. }
    rewrite Hawait.
    destruct (Hrun pre (settle v)
                (log ++ [(CallPerform p (length pre), pre ++ [v]);
                         (AwaitPerform p, pre ++ [g v])]))
      as (entries & -> & Hviews & Hsteps).
    exists ((CallPerform p (length pre), pre ++ [v])
            :: (AwaitPerform p, pre ++ [g v]) :: entries). split; [|split].
    + by rewrite <- app_assoc.
    + cbn [List.map seen]. by rewrite lookup_last, Hviews.
    + cbn [List.map fst List.flat_map app]. by rewrite Hsteps.
Qed.

(** Under the assumptions of isolation, what a case sees and what
    it leaves on the heap do not depend on the heap it starts from. *)
Lemma itBody_local testFn ctx st :
  allocatesFresh (inputsCode code (inputs ctx)) ->
  constructsFromArg (subjectCode code (subject ctx)) ->
  Forall (fun m => mutatesArg (modifierCode code m)) (readArr st (modifiers ctx)) ->
  Forall (fun p => mutatesArgAsync (performCode code p)) (readArr st (performs ctx)) ->
  mutatesArgAsync (testCode code testFn) ->
  exists (views : list (option Val)) (vi vs : Val),
    forall h,
      List.map seen (fst (itBody code testFn ctx st h)) = views
      /\ snd (itBody code testFn ctx st h) = h ++ [vi; vs]
      /\ List.map fst (fst (itBody code testFn ctx st h))
         = expectedSteps ctx (readArr st (modifiers ctx)) (readArr st (performs ctx))
             testFn (length h) (S (length h)).
Proof.
  intros [v0 Hin] [mk Hsub] Hmods Hperfs (g & k & Htest).
  destruct (runModifiers_local _ Hmods) as (outM & viewsM & HrunM).
  destruct (runPerforms_local _ Hperfs) as (outP & viewsP & HrunP).
  exists ([None] ++ viewsM v0 ++ [Some (outM v0)] ++ viewsP (mk (outM v0))
          ++ [Some (outP (mk (outM v0))); None]),
    (outM v0),
    (match k with
     | Some g' => g' (g (outP (mk (outM v0))))
     | None => g (outP (mk (outM v0)))
     end).
  intros h. unfold itBody. rewrite Hin.
  destruct (HrunM h v0 [(CallInputs (inputs ctx) (length h), h)])
    as (entsM & -> & HvM & HsM).
  rewrite (Hsub (length h) (h ++ [outM v0]) (outM v0) (lookup_last h (outM v0))).
  assert (Hlen : length (h ++ [outM v0]) = S (length h))
    by (rewrite length_app; simpl; lia).
  destruct (HrunP (h ++ [outM v0]) (mk (outM v0))
              (([(CallInputs (inputs ctx) (length h), h)] ++ entsM)
               ++ [(CallSubject (subject ctx) (length h) (length (h ++ [outM v0])),
                    h ++ [outM v0])]))
    as (entsP & -> & HvP & HsP).
  rewrite Htest, alter_last. cbn [fst snd].
  split; [|split].
  - rewrite !List.map_app. cbn [List.map seen].
    rewrite HvM, HvP, !lookup_last. by rewrite <- !app_assoc.
  - destruct k as [g'|]; cbn [option_map await].
    + rewrite alter_last. by rewrite <- app_assoc.
    + by rewrite <- app_assoc.
  - rewrite !List.map_app. cbn [List.map fst].
    rewrite HsM, HsP, Hlen. unfold expectedSteps. by rewrite <- !app_assoc.
Qed.


(** C8.  Take two cases registered under the same context, the second run
    after the first.  If the inputs factory allocates a new object whose
    value owes nothing to the heap, the subject factory builds a new object
    from the value of its argument alone, and the modifiers, the performs
    and the second test body mutate the object they are handed, then the
    second case sees, at each of its calls, the value it would see had the
    first case never run, whatever the first test body did; its input and
    its subject are objects allocated after the first case finished, and it
    leaves every object the first case left behind as it was. *)
Theorem cases_are_isolated :
  forall (ctx : RuntimeContext) (st : Store) (testA testB : FnId) (h0 : Heap),
    allocatesFresh (inputsCode code (inputs ctx)) ->
    constructsFromArg (subjectCode code (subject ctx)) ->
    Forall (fun m => mutatesArg (modifierCode code m)) (readArr st (modifiers ctx)) ->
    Forall (fun p => mutatesArgAsync (performCode code p)) (readArr st (performs ctx)) ->
    mutatesArgAsync (testCode code testB) ->
    let runA := itBody code testA ctx st h0 in
    let runB := itBody code testB ctx st (snd runA) in
    List.map seen (fst runB) = List.map seen (fst (itBody code testB ctx st h0))
    /\ List.map fst (fst runB)
       = expectedSteps ctx (readArr st (modifiers ctx)) (readArr st (performs ctx))
           testB (length (snd runA)) (S (length (snd runA)))
    /\ (forall l, l < length (snd runA) -> snd runB !! l = snd runA !! l).
Proof.
  intros ctx st testA testB h0 Hin Hsub Hmods Hperfs Htest runA runB.
  destruct (itBody_local testB ctx st Hin Hsub Hmods Hperfs Htest)
    as (views & vi & vs & Hlocal).
  destruct (Hlocal (snd runA)) as (HvB & HhB & HsB).
  destruct (Hlocal h0) as (Hv0 & _ & _).
  subst runB. split; [congruence|]. split; [exact HsB|].
  intros l Hl. rewrite HhB. by apply lookup_app_l.
Qed.

End WithValues.

(** A [when] block with a modifier, under the context a [given] builds. *)
Lemma when_copies_and_appends_witness :
  let config := Runtime.mkWhenConfig (Some "set5") None in
  let ctx := fst (whenCtx config Counter.givenContext Counter.givenStore) in
  let st' := snd (whenCtx config Counter.givenContext Counter.givenStore) in
  readArr st' (modifiers ctx) = ["set5"]
  /\ readArr st' (performs ctx) = []
  /\ readArr st' (modifiers Counter.givenContext) = [].
Proof.
  destruct (@when_copies_and_appends nat
              (Runtime.mkWhenConfig (Some "set5") None)
              Counter.givenContext Counter.givenStore)
    as (_ & Hm & Hp & _ & _ & _ & Hpm & _); [simpl; lia | simpl; lia |].
  split; [exact Hm|]. split; [exact Hp|]. exact Hpm.
Defined.

(** The case of the counter two [when] blocks down: its run. *)
Lemma it_executes_in_order_witness :
  itBody Counter.code "reads" Counter.deepContext Counter.deepStore []
  = Execution.expectedRun Counter.code "inputs" "subject" ["set5"] ["inc"; "incLater"]
      "reads" [].
Proof.
  exact (proj1 (proj2 (it_executes_in_order Counter.code "a case" "reads"
                         Counter.deepContext test))
           Counter.deepStore []).
Defined.

(** That run, with the heap at every step: the subject is built from the
    input as the modifier has left it, and the increment that [incLater]
    makes when its promise settles is there before the test body is
    called. *)
Example counter_run :
  itBody Counter.code "reads" Counter.deepContext Counter.deepStore []
  = ([(CallInputs "inputs" 0, []);
      (CallModifier "set5" 0, [0]);
      (CallSubject "subject" 0 1, [5]);
      (CallPerform "inc" 1, [5; 5]); (AwaitPerform "inc", [5; 6]);
      (CallPerform "incLater" 1, [5; 6]); (AwaitPerform "incLater", [5; 6]);
      (CallTest "reads" 1, [5; 7]); (AwaitTest "reads", [5; 7])],
     [5; 7]).
Proof. vm_compute. reflexivity. Qed.

(** Registering a [given] with two nested [when] blocks and one [it]: one
    case, which calls the two modifiers and the two performs, outermost
    first. *)
Example counter_chain :
  let r := __given "a counter" (mkGivenConfig "inputs" "subject")
             (chain Counter.code
                [("set to 5", mkWhenConfig (Some "set5") (Some "inc"));
                 ("doubled", mkWhenConfig (Some "double") (Some "incLater"))]
                "is 12" "reads")
             describe [] in
  List.map (fun fn => List.map fst (fst (fn (fst r) [])))
    (List.flat_map cases (snd r))
  = [[CallInputs "inputs" 0; CallModifier "set5" 0; CallModifier "double" 0;
      CallSubject "subject" 0 1;
      CallPerform "inc" 1; AwaitPerform "inc";
      CallPerform "incLater" 1; AwaitPerform "incLater";
      CallTest "reads" 1; AwaitTest "reads"]]
  /\ List.map (fun fn => snd (fn (fst r) [])) (List.flat_map cases (snd r)) = [[10; 12]].
Proof. vm_compute. split; reflexivity. Qed.

(** An [it] registered after a [when] block, under the same [given]: the
    block built its own chains, the [it] outside it still runs with none. *)
Example counter_siblings :
  let r := __given "a counter" (mkGivenConfig "inputs" "subject")
             (fun ctx =>
                seq (__when "set to 5" (mkWhenConfig (Some "set5") (Some "inc"))
                       (fun inner => __it Counter.code "is 6" "reads" inner test)
                       ctx describe)
                    (__it Counter.code "is 0" "reads" ctx test))
             describe [] in
  List.map (fun fn => List.map fst (fst (fn (fst r) [])))
    (List.flat_map cases (snd r))
  = [[CallInputs "inputs" 0; CallModifier "set5" 0; CallSubject "subject" 0 1;
      CallPerform "inc" 1; AwaitPerform "inc";
      CallTest "reads" 1; AwaitTest "reads"];
     [CallInputs "inputs" 0; CallSubject "subject" 0 1;
      CallTest "reads" 1; AwaitTest "reads"]]
  /\ fst r = [[]; []; ["set5"]; ["inc"]].
Proof. vm_compute. split; reflexivity. Qed.

(** The counter meets the assumptions: a case that mutates its subject,
    then a case that reads it. *)
Lemma cases_are_isolated_witness :
  let runA := itBody Counter.code "mutates" Counter.deepContext Counter.deepStore [] in
  let runB := itBody Counter.code "reads" Counter.deepContext Counter.deepStore (snd runA) in
  List.map seen (fst runB)
  = List.map seen
      (fst (itBody Counter.code "reads" Counter.deepContext Counter.deepStore [])).
Proof.
  refine (proj1 (cases_are_isolated Counter.code Counter.deepContext Counter.deepStore
                   "mutates" "reads" [] _ _ _ _ _)).
  - exists 0. reflexivity.
  - exists (fun v => v). intros l h v H. simpl. rewrite H. reflexivity.
  - repeat constructor; eexists; intros; reflexivity.
  - repeat constructor; eexists; eexists; intros; reflexivity.
  - eexists; eexists; intros; reflexivity.
Defined.

(** What the two cases of the counter see: the second starts from 0 and
    finds 7 in its subject, as the first did. *)
Example counter_cases :
  let runA := itBody Counter.code "mutates" Counter.deepContext Counter.deepStore [] in
  let runB := itBody Counter.code "reads" Counter.deepContext Counter.deepStore (snd runA) in
  List.map seen (fst runA)
  = [None; Some 0; Some 5; Some 5; None; Some 6; None; Some 7; None]
  /\ List.map seen (fst runB) = List.map seen (fst runA)
  /\ snd runA = [5; 8]
  /\ snd runB = [5; 8; 5; 7].
Proof. vm_compute. repeat split. Qed.

End RuntimeFacts.

(* ===================================================================== *)
(** ** Further facts about transform.ts *)
(* ===================================================================== *)

Module MoreTransformFacts.
Import Ts Ms Transform TransformTerms OutputFacts.

(** *** The order in which calls are rewritten *)

Lemma insertByDepth_perm c l : Permutation (c :: l) (insertByDepth c l).
Proof.
  induction l as [|d l IH]; cbn [insertByDepth]; [done|].
  destruct (depth d <? depth c); [done|].
  rewrite perm_swap. by constructor.
Qed.

Lemma insertByDepth_Forall (P : BddCall -> Prop) c l :
  P c -> List.Forall P l -> List.Forall P (insertByDepth c l).
Proof.
  intros Hc Hl. eapply Permutation_Forall; [apply insertByDepth_perm|].
  by constructor.
Qed.

Lemma insertByDepth_sorted c l :
  StronglySorted deeperFirst l -> StronglySorted deeperFirst (insertByDepth c l).
Proof.
  induction l as [|d l IH]; intros Hs; cbn [insertByDepth].
  - repeat constructor.
  - apply StronglySorted_inv in Hs as [Hs Hd].
    destruct (depth d <? depth c) eqn:E.
    + apply Nat.ltb_lt in E. constructor; [by constructor|].
      constructor; [unfold deeperFirst; lia|].
      eapply List.Forall_impl; [|exact Hd]. unfold deeperFirst. intros x Hx. lia.
    + apply Nat.ltb_ge in E. constructor; [by apply IH|].
      apply insertByDepth_Forall; [exact E | exact Hd].
Qed.

Lemma insertByDepth_atDepth d c l :
  StronglySorted deeperFirst l ->
  atDepth d (insertByDepth c l) = atDepth d l ++ atDepth d [c].
Proof.
  unfold atDepth. induction l as [|x l IH]; intros Hs; cbn [insertByDepth].
  - done.
  - apply StronglySorted_inv in Hs as [Hs Hx].
    destruct (depth x <? depth c) eqn:E.
    + apply Nat.ltb_lt in E. cbn [List.filter].
      destruct (depth c =? d) eqn:Ec.
      * apply Nat.eqb_eq in Ec.
        assert (Hnone : List.filter (fun c0 => depth c0 =? d) (x :: l) = []).
        { assert (Hall : List.Forall (fun y => depth y < depth c) (x :: l)).
          { constructor; [exact E|].
            eapply List.Forall_impl; [|exact Hx]. unfold deeperFirst.
            intros y Hy. cbn beta in Hy. lia. }
          clear -Hall Ec. induction Hall as [|y l' Hy _ IH']; [done|].
          cbn [List.filter].
          assert ((depth y =? d) = false) as -> by (apply Nat.eqb_neq; lia). exact IH'. }
        cbn [List.filter] in Hnone. rewrite Hnone. done.
      * by rewrite app_nil_r.
    + cbn [List.filter]. rewrite (IH Hs).
      by destruct (depth x =? d).
Qed.

Lemma sortByDepth_acc calls : forall acc,
  StronglySorted deeperFirst acc ->
  let sorted := List.fold_left (fun sorted c => insertByDepth c sorted) calls acc in
  StronglySorted deeperFirst sorted
  /\ Permutation (acc ++ calls) sorted
  /\ forall d, atDepth d sorted = atDepth d acc ++ atDepth d calls.
Proof.
  induction calls as [|c calls IH]; intros acc Hacc; cbn [List.fold_left].
  - rewrite app_nil_r. split; [done|]. split; [done|]. intros d.
    unfold atDepth. cbn [List.filter]. by rewrite app_nil_r.
  - destruct (IH (insertByDepth c acc) (insertByDepth_sorted c acc Hacc))
      as (Hs & Hp & Hst).
    split; [exact Hs|]. split.
    + rewrite <- Hp. rewrite <- insertByDepth_perm.
      rewrite <- Permutation_middle. done.
    + intros d. rewrite Hst, (insertByDepth_atDepth d c acc Hacc).
      rewrite <- app_assoc. f_equal. unfold atDepth. cbn [List.filter app].
      by destruct (depth c =? d).
Qed.

(** X1.  [calls.sort((a, b) => b.depth - a.depth)] keeps every collected
    call exactly once, puts deeper calls first, and leaves calls of equal
    depth in the order they were collected. *)
Theorem sortByDepth_stable_sort :
  forall calls : list BddCall,
    Permutation calls (sortByDepth calls)
    /\ StronglySorted deeperFirst (sortByDepth calls)
    /\ forall d, atDepth d (sortByDepth calls) = atDepth d calls.
Proof.
  intros calls.
  destruct (sortByDepth_acc calls [] (SSorted_nil _)) as (Hs & Hp & Hst).
  split; [exact Hp|]. split; [exact Hs|]. exact Hst.
Qed.

(** *** Depth and nesting *)

(** The ancestors of an occurrence are occurrences, each with the ancestors
    above it. *)
Lemma occurrences_ancestor n : forall anc0 anc m pre a post,
  In (anc, m) (occurrences anc0 n) ->
  anc = pre ++ a :: post ->
  (exists pre', anc0 = pre' ++ a :: post) \/ In (post, a) (occurrences anc0 n).
Proof.
  induction n as [k s e t cs ao IH] using Node_ind'.
  intros anc0 anc m pre a post Hin Hsplit.
  cbn [occurrences] in Hin. destruct Hin as [Heq | Hin].
  - injection Heq as <- _. left. by exists pre.
  - apply in_flat_map in Hin as (c & Hc & Hin).
    rewrite List.Forall_forall in IH.
    destruct (IH c Hc _ _ _ _ _ _ Hin Hsplit) as [(pre' & Hpre) | Hocc].
    + destruct pre' as [|x pre'].
      * cbn [app] in Hpre. injection Hpre as <- <-.
        right. cbn [occurrences]. by left.
      * cbn [app] in Hpre. injection Hpre as _ ->. left. by exists pre'.
    + right. cbn [occurrences]. right. apply in_flat_map. by exists c.
Qed.

Lemma fileOccurrences_ancestor sourceFile pre a post m :
  In (pre ++ a :: post, m) (fileOccurrences sourceFile) ->
  In (post, a) (fileOccurrences sourceFile).
Proof.
  unfold fileOccurrences. intros Hin.
  apply in_flat_map in Hin as (c & Hc & Hin).
  destruct (occurrences_ancestor c [] _ m pre a post Hin eq_refl) as [(pre' & Habs) | Hocc].
  - by destruct pre'.
  - apply in_flat_map. by exists c.
Qed.

Lemma collectedAt_depth anc n call :
  collectedAt (anc, n) = Some call ->
  depth call = length (List.filter isRecognized anc)
  /\ node call = n /\ isRecognized n = true.
Proof.
  unfold collectedAt, isRecognized. destruct (parsedCall n) as [[k m]|]; [|done].
  destruct (_ || _); [|done]. intros [= <-]. done.
Qed.

Lemma sorted_before x y l :
  StronglySorted deeperFirst l -> In x l -> In y l -> depth y < depth x ->
  before x y l.
Proof.
  induction 1 as [|h t Hs IH Hh]; intros Hx Hy Hlt; [done|].
  destruct Hx as [-> | Hx], Hy as [-> | Hy].
  - lia.
  - apply in_split in Hy as (l2 & l3 & ->). by exists [], l2, l3.
  - rewrite List.Forall_forall in Hh. specialize (Hh _ Hx).
    unfold deeperFirst in Hh. lia.
  - destruct (IH Hx Hy Hlt) as (l1 & l2 & l3 & ->). by exists (h :: l1), l2, l3.
Qed.

(** X2.  A collected call that lies inside another collected call has the
    greater depth, so the inner call is rewritten before the call that
    contains it. *)
Theorem inner_call_is_rewritten_first :
  forall (sourceFile : Node) (pre post : list Node) (outer inner : Node)
         (innerCall outerCall : BddCall),
    In (pre ++ outer :: post, inner) (fileOccurrences sourceFile) ->
    collectedAt (pre ++ outer :: post, inner) = Some innerCall ->
    collectedAt (post, outer) = Some outerCall ->
    In (post, outer) (fileOccurrences sourceFile)
    /\ depth outerCall < depth innerCall
    /\ before innerCall outerCall (sortByDepth (collectBddCalls sourceFile)).
Proof.
  intros sourceFile pre post outer inner innerCall outerCall Hin Hinner Houter.
  pose proof (fileOccurrences_ancestor _ _ _ _ _ Hin) as Hocc.
  assert (Hlt : depth outerCall < depth innerCall).
  { apply collectedAt_depth in Hinner as (-> & _ & _).
    apply collectedAt_depth in Houter as (-> & _ & Hrec).
    rewrite List.filter_app, length_app. cbn [List.filter]. rewrite Hrec.
    cbn [length]. lia. }
  split; [exact Hocc|]. split; [exact Hlt|].
  destruct (sortByDepth_acc (collectBddCalls sourceFile) [] (SSorted_nil _))
    as (Hs & _ & _).
  apply sorted_before; [exact Hs | | | exact Hlt].
  - apply TransformFacts.In_sortByDepth. rewrite TransformFacts.collect_occurrences.
    apply TransformFacts.In_omap. exists (pre ++ outer :: post, inner). by split.
  - apply TransformFacts.In_sortByDepth. rewrite TransformFacts.collect_occurrences.
    apply TransformFacts.In_omap. exists (post, outer). by split.
Qed.

(** X3.  A collected call at depth 0 is a [given]; a [when] or an [it] is
    only ever collected at depth 1 or more, and a collected call of depth
    [d] has exactly [d] recognized calls around it. *)
Theorem top_level_calls_are_given :
  forall (sourceFile : Node) (call : BddCall),
    In call (collectBddCalls sourceFile) ->
    (exists ancestors,
        In (ancestors, node call) (fileOccurrences sourceFile)
        /\ depth call = length (List.filter isRecognized ancestors))
    /\ (depth call = 0 -> kind call = given)
    /\ (kind call <> given -> 1 <= depth call).
Proof.
  intros sourceFile call Hin.
  rewrite TransformFacts.collect_occurrences in Hin.
  apply TransformFacts.In_omap in Hin as ([anc n] & Hocc & Hcoll).
  assert (Hk : kind call <> given -> 1 <= depth call).
  { unfold collectedAt in Hcoll. destruct (parsedCall n) as [[k m]|]; [|done].
    destruct (BddCallKind_eqb k given) eqn:Ek.
    - apply TransformFacts.BddCallKind_eqb_eq in Ek as ->.
      cbn [orb] in Hcoll. injection Hcoll as <-. done.
    - cbn [orb] in Hcoll. destruct (List.existsb isGivenCall anc) eqn:Eg; [|done].
      injection Hcoll as <-. intros _. cbn [depth].
      apply List.existsb_exists in Eg as (g & Hg & Hgiven).
      assert (Hrec : In g (List.filter isRecognized anc)).
      { apply List.filter_In. split; [exact Hg|].
        unfold isRecognized. unfold isGivenCall in Hgiven.
        by destruct (parsedCall g). }
      destruct (List.filter isRecognized anc); [done | cbn [length]; lia]. }
  split; [|split; [|exact Hk]].
  - exists anc. destruct (collectedAt_depth _ _ _ Hcoll) as (Hd & -> & _). done.
  - intros Hz. destruct (kind call) eqn:E; [done | | ];
      (assert (1 <= depth call) by (apply Hk; rewrite ?E; done); lia).
Qed.

(** *** The callback argument *)

Lemma find_last {A} (f : A -> bool) (l : list A) :
  match List.find f (List.rev l) with
  | Some x =>
      exists front back,
        l = front ++ x :: back /\ f x = true
        /\ List.Forall (fun a => f a = false) back
  | None => List.Forall (fun a => f a = false) l
  end.
Proof.
  induction l as [|a l IH] using rev_ind; [by constructor|].
  rewrite List.rev_app_distr. cbn [List.rev app List.find].
  destruct (f a) eqn:Ea.
  - exists l, []. by repeat split.
  - destruct (List.find f (List.rev l)) as [x|].
    + destruct IH as (front & back & -> & Hx & Hback).
      exists front, (back ++ [a]). rewrite <- app_assoc. split; [done|].
      split; [done|]. apply List.Forall_app. split; [done|]. by repeat constructor.
    + apply List.Forall_app. split; [done|]. by repeat constructor.
Qed.

(** X4.  The callback of a call is its last argument that is an arrow
    function or a function expression, wherever it stands among the
    arguments; there is none exactly when no argument is such a function. *)
Theorem callback_is_last_function_argument :
  forall node : Node,
    match getCallbackArg node with
    | Some callback =>
        exists front back,
          arguments node = front ++ callback :: back
          /\ isFunctionLike callback = true
          /\ List.Forall (fun arg => isFunctionLike arg = false) back
    | None => List.Forall (fun arg => isFunctionLike arg = false) (arguments node)
    end.
Proof.
  intros node. unfold getCallbackArg. apply find_last.
Qed.

(** *** What a removed statement takes with it *)

Lemma get_beyond s : forall n, String.length s <= n -> String.get n s = None.
Proof.
  induction s as [|c s IH]; intros n Hn; [by destruct n|].
  destruct n as [|n]; cbn [String.length] in Hn; [lia|].
  cbn [String.get]. apply IH. lia.
Qed.

Lemma leadingNewlines_spec s :
  (forall i, i < leadingNewlines s ->
     exists c, String.get i s = Some c /\ isLineTerminator c = true)
  /\ (forall c, String.get (leadingNewlines s) s = Some c -> isLineTerminator c = false).
Proof.
  induction s as [|c s [IH1 IH2]]; cbn [leadingNewlines].
  - split; [intros i Hi; lia | done].
  - fold (isLineTerminator c). destruct (isLineTerminator c) eqn:Ec.
    + split.
      * intros [|i] Hi; [by exists c|]. cbn [String.get]. apply IH1. lia.
      * intros c'. cbn [String.get]. apply IH2.
    + split; [intros i Hi; lia|]. intros c'. cbn [String.get]. by intros [= <-].
Qed.

(** X5.  The range removed with a statement ends after the line
    terminators that directly follow the statement and nowhere else: it
    never ends before the statement does nor beyond the text, every
    character it takes after the statement is a line feed or a carriage
    return, and the character it stops at is neither. *)
Theorem removal_ends_after_line_terminators :
  forall (code : string) (stmt : Node),
    exists stop,
      removeStatement code stmt = Remove (start stmt) stop
      /\ end_ stmt <= stop
      /\ (end_ stmt <= String.length code -> stop <= String.length code)
      /\ (forall i, end_ stmt <= i < stop ->
            exists c, String.get i code = Some c /\ isLineTerminator c = true)
      /\ (forall c, String.get stop code = Some c -> isLineTerminator c = false).
Proof.
  intros code stmt. exists (skipNewlines code (end_ stmt)).
  split; [done|]. unfold skipNewlines.
  set (e := end_ stmt). set (m := String.length code - e).
  destruct (leadingNewlines_spec (String.substring e m code)) as [H1 H2].
  set (k := leadingNewlines (String.substring e m code)) in *.
  assert (Hk : k <= m).
  { destruct (Nat.le_gt_cases k m) as [Hle | Hgt]; [exact Hle|].
    destruct (H1 m Hgt) as (c & Hc & _).
    by rewrite String.substring_correct2 in Hc. }
  split; [lia|]. split; [lia|]. split.
  - intros i Hi. destruct (H1 (i - e)) as (c & Hc & Hterm); [lia|].
    rewrite String.substring_correct1 in Hc by lia.
    replace (i - e + e) with i in Hc by lia. by exists c.
  - intros c Hc. destruct (Nat.eq_dec k m) as [Heq | Hne].
    + rewrite get_beyond in Hc; [done | lia].
    + apply H2. rewrite String.substring_correct1 by lia.
      by rewrite Nat.add_comm.
Qed.

(** *** The import lines and the layout of the output *)








(** X6.  What the edits do not write to is kept: a range of characters of
    the file that no edit of a collected call writes to stands in the
    output as it stands in the file, after the import lines and what the
    output has for the characters before the range, and before what it has
    for the characters after the range. *)
Theorem untouched_text_is_kept :
  forall (code id : string) (sourceFile : Node) (result : TransformResult) (a n : nat),
    transformBddSyntax code id sourceFile = Some result ->
    a + n <= String.length code ->
    List.forallb (untouchedBy code (collectBddCalls sourceFile)) (List.seq a n) = true ->
    let calls := sortByDepth (collectBddCalls sourceFile) in
    let final := editedBuffer code calls in
    Transform.code result
    = (importLines calls +:+ intro final
       +:+ String.concat "" (List.map (Buffer.textAt final) (List.seq 0 a)))
      +:+ String.substring a n code
      +:+ String.concat ""
            (List.map (Buffer.textAt final) (List.seq (a + n) (String.length code - (a + n)))).
Proof.
  intros code id sourceFile result a n Hresult Hlen Hfree calls final.
  rewrite (OutputFacts.output_by_character code id sourceFile result Hresult).
  fold calls. fold final.
  replace (String.length code) with (a + (n + (String.length code - (a + n)))) at 1 by lia.
  rewrite !List.seq_app, !List.map_app, !BufferFacts.concat_app. cbn [Nat.add].
  assert (Hkept : List.map (Buffer.textAt final) (List.seq a n)
                  = List.map (fun i => String.substring i 1 code) (List.seq a n)).
  { apply List.map_ext_in. intros i Hi.
    rewrite List.forallb_forall in Hfree. specialize (Hfree i Hi).
    apply List.in_seq in Hi. unfold final, editedBuffer.
    rewrite OutputFacts.edited_untouched.
    - apply BufferFacts.textAt_create. lia.
    - apply OutputFacts.untouchedBy_spec. intros c e Hc He.
      apply (proj1 (OutputFacts.untouchedBy_spec code _ i) Hfree c e); [|done].
      by apply (proj1 (TransformFacts.In_sortByDepth c _)). }
  rewrite Hkept, BufferFacts.substring_by_character by lia.
  by rewrite !JsFacts.append_assoc.
Qed.



(** *** The edits of [given] and [when], in full *)

Lemma lastAssigned_last {A} (d : option A) (l : list A) (x : A) :
  lastAssigned d (l ++ [x]) = Some x.
Proof. unfold lastAssigned. by rewrite List.fold_left_app. Qed.

Lemma filter_map_last {A B} (p : A -> bool) (f : A -> B) (l earlier : list A) (x : A) :
  List.filter p l = earlier ++ [x] ->
  lastAssigned None (List.map f (List.filter p l)) = Some (f x).
Proof. intros ->. rewrite List.map_app. apply lastAssigned_last. Qed.

(** X8.  The edits of a [given] call, in full: the assignments to
    [$inputs] and [$subject] among the statements of the callback are
    removed, all of them and nothing else; of several assignments to one
    slot the last supplies the factory; a slot that is never assigned is
    left out of the config, which is [{  }] when neither is. *)
Theorem given_edits_in_general :
  forall (call : BddCall) (src : string) (callback : Node) (stmts : list Node),
    getCallbackArg (node call) = Some callback ->
    getBodyStatements callback = Some stmts ->
    exists inputsExpr subjectExpr,
      transformGiven call src
      = List.map (removeStatement src)
          (List.filter (fun stmt => isInputsAssignment stmt || isSubjectAssignment stmt) stmts)
        ++ [Overwrite (calleeStart (node call)) (calleeEnd (node call)) "__given";
            AppendLeft (descEnd (node call))
              (", " +:+ configObj (givenConfigParts inputsExpr subjectExpr));
            Overwrite (start callback) (getCallbackHeaderEnd callback)
              (asyncPrefix callback +:+ "(__ctx) =>")]
        ++ match modifier call with
           | Some m => [AppendLeft (lastArgEnd (node call)) (", describe." +:+ modifierName m)]
           | None => []
           end
      /\ (List.filter isInputsAssignment stmts = [] -> inputsExpr = None)
      /\ (forall earlier last,
            List.filter isInputsAssignment stmts = earlier ++ [last] ->
            inputsExpr = Some (slotBody src "$inputs" last))
      /\ (List.filter isSubjectAssignment stmts = [] -> subjectExpr = None)
      /\ (forall earlier last,
            List.filter isSubjectAssignment stmts = earlier ++ [last] ->
            subjectExpr = Some (slotBody src "$subject" last))
      /\ configObj (givenConfigParts None None) = "{  }".
Proof.
  intros call src callback stmts Hcb Hbody.
  exists (lastAssigned None
            (List.map (slotBody src "$inputs") (List.filter isInputsAssignment stmts))),
         (lastAssigned None
            (List.map (slotBody src "$subject") (List.filter isSubjectAssignment stmts))).
  split; [|split; [|split; [|split; [|split]]]].
  - unfold transformGiven. rewrite Hcb, Hbody, TransformFacts.scanGiven_spec. done.
  - by intros ->.
  - intros earlier last H. by apply filter_map_last with earlier.
  - by intros ->.
  - intros earlier last H. by apply filter_map_last with earlier.
  - done.
Qed.

Lemma hasClass_iff c stmt : hasClass c stmt = true <-> classOf stmt = c.
Proof. unfold hasClass. by destruct c, (classOf stmt). Qed.

Lemma classes_partition stmts :
  Permutation stmts
    (List.filter (hasClass ModifierStmt) stmts
     ++ List.filter (hasClass PerformStmt) stmts
     ++ List.filter (hasClass BodyStmt) stmts).
Proof.
  induction stmts as [|x l IH]; [done|]. cbn [List.filter].
  assert (Hc : forall c, hasClass c x = true <-> classOf x = c) by (intros c; apply hasClass_iff).
  destruct (hasClass ModifierStmt x) eqn:Em, (hasClass PerformStmt x) eqn:Ep,
    (hasClass BodyStmt x) eqn:Eb;
    try (apply Hc in Em); try (apply Hc in Ep); try (apply Hc in Eb); try congruence.
  - cbn [app]. apply perm_skip, IH.
  - cbn [app]. rewrite <- Permutation_middle. apply perm_skip, IH.
  - rewrite app_assoc, <- Permutation_middle, <- app_assoc. apply perm_skip, IH.
  - pose proof (proj2 (Hc (classOf x)) eq_refl) as H.
    destruct (classOf x); congruence.
Qed.

Lemma it_statement_is_body stmt : isItCall stmt = true -> classOf stmt = BodyStmt.
Proof.
  intros Hit. unfold classOf. rewrite Hit.
  assert (isInputsModifier stmt = false) as ->; [|done].
  unfold isItCall in Hit. unfold isInputsModifier.
  destruct (isKind ExpressionStatement stmt); [|done].
  destruct (expression stmt) as [e|]; [|done].
  unfold parsedCall in Hit. destruct (isKind CallExpression e) eqn:Ecall; [|done].
  unfold isKind in *. apply TransformFacts.kind_eqb_eq in Ecall. by rewrite Ecall.
Qed.

(** X9.  The edits of a [when] call, in full: the statements of the
    callback fall into modifier, perform and body statements, none lost
    and none twice; the modifier and perform statements are removed and
    nothing else is; an [it] call is always a body statement and so stays
    where it is. *)
Theorem when_edits_in_general :
  forall (call : BddCall) (src : string) (callback : Node) (stmts : list Node),
    getCallbackArg (node call) = Some callback ->
    getBodyStatements callback = Some stmts ->
    let modifierStmts := List.filter (hasClass ModifierStmt) stmts in
    let performStmts := List.filter (hasClass PerformStmt) stmts in
    let bodyStmts := List.filter (hasClass BodyStmt) stmts in
    transformWhen call src
    = List.map (removeStatement src) (modifierStmts ++ performStmts)
      ++ [Overwrite (calleeStart (node call)) (calleeEnd (node call)) "__when";
          AppendLeft (descEnd (node call))
            (", " +:+ configObj (whenConfigParts src modifierStmts performStmts));
          Overwrite (start callback) (getCallbackHeaderEnd callback)
            (asyncPrefix callback +:+ "(__ctx) =>");
          AppendLeft (lastArgEnd (node call))
            match modifier call with
            | Some m => ", __ctx, describe." +:+ modifierName m
            | None => ", __ctx"
            end]
    /\ Permutation stmts (modifierStmts ++ performStmts ++ bodyStmts)
    /\ (forall stmt, In stmt bodyStmts -> ~ In stmt (modifierStmts ++ performStmts))
    /\ (forall stmt, In stmt stmts -> isItCall stmt = true -> In stmt bodyStmts).
Proof.
  intros call src callback stmts Hcb Hbody modifierStmts performStmts bodyStmts.
  split; [|split; [|split]].
  - unfold transformWhen. rewrite Hcb, Hbody, TransformFacts.classifyWhen_spec. done.
  - apply classes_partition.
  - intros stmt Hb Hmp. apply List.filter_In in Hb as [_ Hb].
    apply hasClass_iff in Hb.
    apply List.in_app_iff in Hmp as [H | H]; apply List.filter_In in H as [_ H];
      apply hasClass_iff in H; congruence.
  - intros stmt Hin Hit. apply List.filter_In. split; [exact Hin|].
    apply hasClass_iff. by apply it_statement_is_body.
Qed.

(** *** The facts above on the example files *)

(** In Scenario A the [it] inside the [when] block is rewritten before the
    [when] call. *)
Lemma inner_call_is_rewritten_first_witness :
  let file := Sources.scenarioA in
  let o := MoreSources.occurrence file 61 in
  In (List.skipn 4 (fst o), MoreSources.ancestor o 3) (fileOccurrences (Fixture.tree file))
  /\ depth (Sources.collected file 2) < depth (Sources.collected file 3)
  /\ before (Sources.collected file 3) (Sources.collected file 2)
       (sortByDepth (collectBddCalls (Fixture.tree file))).
Proof.
  apply (inner_call_is_rewritten_first (Fixture.tree Sources.scenarioA)
           (List.firstn 3 (fst (MoreSources.occurrence Sources.scenarioA 61)))
           (List.skipn 4 (fst (MoreSources.occurrence Sources.scenarioA 61)))
           (MoreSources.ancestor (MoreSources.occurrence Sources.scenarioA 61) 3)
           (snd (MoreSources.occurrence Sources.scenarioA 61))).
  - apply (List.nth_error_In _ 61). vm_compute. reflexivity.
  - vm_compute. reflexivity.
  - vm_compute. reflexivity.
Defined.

(** In Scenario A the [when] call is collected at depth 1. *)
Lemma top_level_calls_are_given_witness :
  let call := Sources.collected Sources.scenarioA 2 in
  (exists ancestors,
      In (ancestors, node call) (fileOccurrences (Fixture.tree Sources.scenarioA))
      /\ depth call = length (List.filter isRecognized ancestors))
  /\ (depth call = 0 -> kind call = given)
  /\ (kind call <> given -> 1 <= depth call).
Proof.
  apply (top_level_calls_are_given (Fixture.tree Sources.scenarioA)
           (Sources.collected Sources.scenarioA 2)).
  apply (List.nth_error_In _ 2). vm_compute. reflexivity.
Defined.

(** The file with vitest's own [it] next to a [given]: the [describe]
    block in front of the [given], 63 characters, is in the output as it is
    in the file. *)
Lemma untouched_text_is_kept_witness :
  exists rest,
    Transform.code (MoreSources.outputOf Sources.mixedFile)
    = (runtimeImport ["__given"; "__it"] +:+ nl)
      +:+ String.substring 0 63 (Fixture.source Sources.mixedFile)
      +:+ rest.
Proof.
  eexists.
  etrans; [apply (untouched_text_is_kept (Fixture.source Sources.mixedFile) "a.test.ts"
                    (Fixture.tree Sources.mixedFile)
                    (MoreSources.outputOf Sources.mixedFile) 0 63);
           [vm_compute; reflexivity | vm_compute; lia | vm_compute; reflexivity]|].
  f_equal.
Defined.

(** The [given] that assigns [$inputs] twice: the second assignment is the
    factory, both are removed. *)
Lemma given_edits_in_general_witness :
  let file := MoreSources.reassigned in
  let call := Sources.collected file 0 in
  let stmts := Sources.callbackStatements call in
  exists inputsExpr subjectExpr,
    transformGiven call (Fixture.source file)
    = List.map (removeStatement (Fixture.source file))
        (List.filter (fun stmt => isInputsAssignment stmt || isSubjectAssignment stmt) stmts)
      ++ [Overwrite (calleeStart (node call)) (calleeEnd (node call)) "__given";
          AppendLeft (descEnd (node call))
            (", " +:+ configObj (givenConfigParts inputsExpr subjectExpr));
          Overwrite (start (Sources.callbackOf call))
            (getCallbackHeaderEnd (Sources.callbackOf call))
            (asyncPrefix (Sources.callbackOf call) +:+ "(__ctx) =>")]
      ++ match modifier call with
         | Some m => [AppendLeft (lastArgEnd (node call)) (", describe." +:+ modifierName m)]
         | None => []
         end
    /\ inputsExpr = Some (slotBody (Fixture.source file) "$inputs" (List.nth 1 stmts (node call)))
    /\ subjectExpr = None.
Proof.
  destruct (given_edits_in_general
              (Sources.collected MoreSources.reassigned 0)
              (Fixture.source MoreSources.reassigned)
              (Sources.callbackOf (Sources.collected MoreSources.reassigned 0))
              (Sources.callbackStatements (Sources.collected MoreSources.reassigned 0)))
    as (inputsExpr & subjectExpr & Hedits & _ & Hlast & Hnone & _).
  - vm_compute. reflexivity.
  - vm_compute. reflexivity.
  - exists inputsExpr, subjectExpr. split; [exact Hedits|]. split.
    + apply (Hlast
               [List.nth 0 (Sources.callbackStatements
                              (Sources.collected MoreSources.reassigned 0))
                  (node (Sources.collected MoreSources.reassigned 0))]).
      vm_compute. reflexivity.
    + apply Hnone. vm_compute. reflexivity.
Defined.

(** The [when] block of Scenario A: its modifier and perform statements
    are removed, its [it] call stays. *)
Lemma when_edits_in_general_witness :
  let call := Sources.collected Sources.scenarioA 2 in
  let stmts := Sources.callbackStatements call in
  Permutation stmts
    (List.filter (hasClass ModifierStmt) stmts
     ++ List.filter (hasClass PerformStmt) stmts
     ++ List.filter (hasClass BodyStmt) stmts)
  /\ (forall stmt,
        In stmt stmts -> isItCall stmt = true ->
        In stmt (List.filter (hasClass BodyStmt) stmts)).
Proof.
  destruct (when_edits_in_general
              (Sources.collected Sources.scenarioA 2)
              (Fixture.source Sources.scenarioA)
              (Sources.callbackOf (Sources.collected Sources.scenarioA 2))
              (Sources.callbackStatements (Sources.collected Sources.scenarioA 2)))
    as (_ & Hperm & _ & Hit).
  - vm_compute. reflexivity.
  - vm_compute. reflexivity.
  - split; [exact Hperm | exact Hit].
Defined.

(** The output for the file with the skipped [given], as text.  The
    indentation of the two removed statements stays behind, in front of the
    statement that follows them. *)
Example reassigned_output :
  Transform.code (MoreSources.outputOf MoreSources.reassigned)
  = "import { __given, __it } from " +:+ dq +:+ "@michaelhelvey/vitest-bdd/runtime" +:+ dq
    +:+ ";" +:+ nl
    +:+ "import { describe, test } from " +:+ dq +:+ "vitest" +:+ dq +:+ ";" +:+ nl +:+ nl
    +:+ "__given(" +:+ dq +:+ "a Foo" +:+ dq
    +:+ ", { inputs: () => ({ value: 1 }) }, (__ctx) => {" +:+ nl
    +:+ "      __it(" +:+ dq +:+ "has value 1" +:+ dq +:+ ", ($subject) => {" +:+ nl
    +:+ "  }, __ctx, test.only);" +:+ nl
    +:+ "}, describe.skip);" +:+ nl.
Proof. vm_compute. reflexivity. Qed.

End MoreTransformFacts.

(* ===================================================================== *)
(** ** Facts about whole scenarios *)
(* ===================================================================== *)

Module ScenarioFacts.
Import Runtime Scenario.

Section WithValues.
Context {Val : Type}.
Variable code : @Code Val.

Lemma extends_length (st st' : list (list string)) : extends st st' -> length st <= length st'.
Proof. intros [more ->]. rewrite length_app. lia. Qed.

(** The statements of a body, given the fact for each of them. *)
Lemma registerAll_runs body :
  List.Forall
    (fun b => forall ctx st,
       modifiers ctx < length st -> performs ctx < length st ->
       extends st (fst (register code b ctx st))
       /\ Forall2 (fun fn entry =>
                     forall stf, extends (fst (register code b ctx st)) stf ->
                     forall h,
                       fn stf h
                       = Execution.expectedRun code (inputs ctx) (subject ctx)
                           (readArr st (modifiers ctx) ++ modifiersOf (fst entry))
                           (readArr st (performs ctx) ++ performsOf (fst entry))
                           (snd entry) h)
            (List.flat_map cases (snd (register code b ctx st))) (paths b))
    body ->
  forall ctx st,
    modifiers ctx < length st -> performs ctx < length st ->
    extends st (fst (registerAll code body ctx st))
    /\ Forall2 (fun fn entry =>
                  forall stf, extends (fst (registerAll code body ctx st)) stf ->
                  forall h,
                    fn stf h
                    = Execution.expectedRun code (inputs ctx) (subject ctx)
                        (readArr st (modifiers ctx) ++ modifiersOf (fst entry))
                        (readArr st (performs ctx) ++ performsOf (fst entry))
                        (snd entry) h)
         (List.flat_map cases (snd (registerAll code body ctx st)))
         (List.flat_map paths body).
Proof.
  induction 1 as [|b body Hb _ IH]; intros ctx st Hm Hp.
  - split; [apply RuntimeFacts.extends_refl | constructor].
  - assert (Hunfold : registerAll code (b :: body) ctx st
                      = seq (register code b ctx) (registerAll code body ctx) st)
      by reflexivity.
    rewrite Hunfold. unfold seq.
    destruct (Hb ctx st Hm Hp) as [Hext1 Hcases1].
    destruct (register code b ctx st) as [st1 t1] eqn:E1. cbn [fst snd] in *.
    pose proof (extends_length _ _ Hext1) as Hlen.
    destruct (IH ctx st1 ltac:(lia) ltac:(lia)) as [Hext2 Hcases2].
    destruct (registerAll code body ctx st1) as [st2 t2] eqn:E2. cbn [fst snd] in *.
    split; [exact (RuntimeFacts.extends_trans _ _ _ Hext1 Hext2)|].
    rewrite List.flat_map_app. cbn [List.flat_map]. apply Forall2_app.
    + eapply Forall2_impl; [exact Hcases1|]. intros fn entry Hrun stf Hstf.
      apply Hrun. exact (RuntimeFacts.extends_trans _ _ _ Hext2 Hstf).
    + eapply Forall2_impl; [exact Hcases2|]. intros fn entry Hrun stf Hstf h.
      rewrite (Hrun stf Hstf h).
      by rewrite !(RuntimeFacts.readArr_extends st st1) by done.
Qed.

Lemma register_runs b : forall ctx st,
  modifiers ctx < length st -> performs ctx < length st ->
  extends st (fst (register code b ctx st))
  /\ Forall2 (fun fn entry =>
                forall stf, extends (fst (register code b ctx st)) stf ->
                forall h,
                  fn stf h
                  = Execution.expectedRun code (inputs ctx) (subject ctx)
                      (readArr st (modifiers ctx) ++ modifiersOf (fst entry))
                      (readArr st (performs ctx) ++ performsOf (fst entry))
                      (snd entry) h)
       (List.flat_map cases (snd (register code b ctx st))) (paths b).
Proof.
  induction b as [name mode testFn | name mode config body IH] using Block_ind';
    intros ctx st Hm Hp.
  - cbn [register paths]. unfold __it, testWith. cbn [fst snd List.flat_map cases app].
    split; [apply RuntimeFacts.extends_refl|].
    constructor; [|constructor]. intros stf Hstf h.
    rewrite RuntimeFacts.itBody_run. cbn [fst snd].
    unfold modifiersOf, performsOf. cbn [List.flat_map]. rewrite !app_nil_r.
    by rewrite !(RuntimeFacts.readArr_extends st stf) by done.
  - assert (Hunfold : register code (WhenBlock name mode config body) ctx st
                      = __when name config (registerAll code body) ctx (describeWith mode) st)
      by reflexivity.
    rewrite Hunfold. unfold __when, describeWith.
    destruct (RuntimeFacts.whenCtx_spec config ctx st Hm Hp)
      as (Hext & Hmods & Hperfs & Hlen & Hin & Hsub & Hrm & Hrp).
    destruct (whenCtx config ctx st) as [inner st1] eqn:Ew. cbn [fst snd] in *.
    destruct (registerAll_runs body IH inner st1 ltac:(lia) ltac:(lia)) as [Hext2 Hcases].
    destruct (registerAll code body inner st1) as [st2 tasks] eqn:Er. cbn [fst snd] in *.
    split; [exact (RuntimeFacts.extends_trans _ _ _ Hext Hext2)|].
    cbn [List.flat_map cases paths]. rewrite app_nil_r.
    apply Forall2_fmap_r. eapply Forall2_impl; [exact Hcases|].
    intros fn [path testFn] Hrun stf Hstf h.
    rewrite (Hrun stf Hstf h). cbn [fst snd]. rewrite Hrm, Hrp.
    unfold modifiersOf, performsOf. cbn [List.flat_map].
    by rewrite Hin, Hsub, <- !app_assoc.
Qed.

(** X10.  In a scenario of any shape, the run of every [it] is
    [Execution.expectedRun] on the factories of the [given] and on the
    modifiers and performs of the [when] blocks around that [it],
    outermost first: the inputs factory, those modifiers in turn on the
    object it returned, the subject factory on that object as they have
    left it, those performs on the subject, each called when the one
    before it has settled, then its own test function.  Nothing of a
    sibling block or of a block nested deeper takes part. *)
Theorem every_case_runs_its_own_chain :
  forall (scenario : string) (config : GivenConfig) (mode : Mode) (body : list Block)
         (st0 : list (list string)),
    let r := __given scenario config (registerAll code body) (describeWith mode) st0 in
    Forall2
      (fun (fn : @Exec Val) '(path, testFn) =>
         forall h,
           fn (fst r) h
           = Execution.expectedRun code (g_inputs config) (g_subject config)
               (modifiersOf path) (performsOf path) testFn h)
      (List.flat_map cases (snd r)) (List.flat_map paths body).
Proof.
  intros scenario config mode body st0. unfold __given, describeWith. cbn zeta.
  destruct (RuntimeFacts.givenCtx_spec config st0)
    as (Hext & Hm & Hp & Hin & Hsub & Hrm & Hrp).
  destruct (givenCtx config st0) as [ctx st1] eqn:Eg. cbn [fst snd] in *.
  assert (Hall : List.Forall
    (fun b => forall ctx st,
       modifiers ctx < length st -> performs ctx < length st ->
       extends st (fst (register code b ctx st))
       /\ Forall2 (fun fn entry =>
                     forall stf, extends (fst (register code b ctx st)) stf ->
                     forall h,
                       fn stf h
                       = Execution.expectedRun code (inputs ctx) (subject ctx)
                           (readArr st (modifiers ctx) ++ modifiersOf (fst entry))
                           (readArr st (performs ctx) ++ performsOf (fst entry))
                           (snd entry) h)
            (List.flat_map cases (snd (register code b ctx st))) (paths b))
    body).
  { apply List.Forall_forall. intros b _. apply register_runs. }
  destruct (registerAll_runs body Hall ctx st1 Hm Hp) as [_ Hcases].
  destruct (registerAll code body ctx st1) as [st2 tasks] eqn:Er. cbn [fst snd] in *.
  cbn [List.flat_map cases]. rewrite app_nil_r.
  eapply Forall2_impl; [exact Hcases|].
  intros fn [path testFn] Hrun h.
  rewrite (Hrun st2 (RuntimeFacts.extends_refl _) h). cbn [fst snd].
  by rewrite Hrm, Hrp, Hin, Hsub.
Qed.

Lemma registerAll_outline body :
  List.Forall
    (fun b => forall ctx st,
       List.map outline (snd (register code b ctx st)) = [blockOutline b]) body ->
  forall ctx st,
    List.map outline (snd (registerAll code body ctx st)) = List.map blockOutline body.
Proof.
  induction 1 as [|b body Hb _ IH]; intros ctx st; [done|].
  assert (Hunfold : registerAll code (b :: body) ctx st
                    = seq (register code b ctx) (registerAll code body ctx) st)
    by reflexivity.
  rewrite Hunfold. unfold seq. specialize (Hb ctx st).
  destruct (register code b ctx st) as [st1 t1]. specialize (IH ctx st1).
  destruct (registerAll code body ctx st1) as [st2 t2]. cbn [fst snd] in *.
  by rewrite List.map_app, Hb, IH.
Qed.

Lemma register_outline b : forall ctx st,
  List.map outline (snd (register code b ctx st)) = [blockOutline b].
Proof.
  induction b as [name mode testFn | name mode config body IH] using Block_ind';
    intros ctx st; [done|].
  assert (Hunfold : register code (WhenBlock name mode config body) ctx st
                    = __when name config (registerAll code body) ctx (describeWith mode) st)
    by reflexivity.
  rewrite Hunfold. unfold __when, describeWith.
  destruct (whenCtx config ctx st) as [inner st1].
  pose proof (registerAll_outline body IH inner st1) as Hbody.
  destruct (registerAll code body inner st1) as [st2 tasks]. cbn [fst snd] in *.
  cbn [List.map outline blockOutline]. by rewrite Hbody.
Qed.

(** X11.  What a scenario registers mirrors its source: one suite for the
    [given] and for every [when], one case for every [it], nested and
    ordered as the calls are, each under its own name, and each with the
    mode ([skip], [only] or neither) its own call was given. *)
Theorem registered_tasks_mirror_the_blocks :
  forall (scenario : string) (config : GivenConfig) (mode : Mode) (body : list Block)
         (st0 : list (list string)),
    List.map outline
      (snd (__given scenario config (registerAll code body) (describeWith mode) st0))
    = [SuiteOutline scenario mode (List.map blockOutline body)].
Proof.
  intros scenario config mode body st0. unfold __given, describeWith.
  destruct (givenCtx config st0) as [ctx st1].
  assert (Hall : List.Forall
    (fun b => forall ctx st,
       List.map outline (snd (register code b ctx st)) = [blockOutline b]) body).
  { apply List.Forall_forall. intros b _. apply register_outline. }
  pose proof (registerAll_outline body Hall ctx st1) as Hbody.
  destruct (registerAll code body ctx st1) as [st2 tasks]. cbn [fst snd] in *.
  cbn [List.map outline]. by rewrite Hbody.
Qed.

End WithValues.

(** A scenario with two sibling [when] blocks, one of them skipped, on
    the counter. *)
Example counter_scenario :
  let body :=
    [WhenBlock "set to 5" Normal (mkWhenConfig (Some "set5") (Some "inc"))
       [ItBlock "is 6" Normal "reads";
        WhenBlock "doubled" Skip (mkWhenConfig (Some "double") None)
          [ItBlock "is 11" Normal "reads"]];
     WhenBlock "incremented later" Normal (mkWhenConfig None (Some "incLater"))
       [ItBlock "is 1" Only "reads"];
     ItBlock "is 0" Normal "reads"] in
  let r := __given "a counter" (mkGivenConfig "inputs" "subject")
             (registerAll Counter.code body) describe [] in
  List.map (fun fn => snd (fn (fst r) [])) (List.flat_map cases (snd r))
  = [[5; 6]; [10; 11]; [0; 1]; [0; 0]]
  /\ List.flat_map paths body
     = [([mkWhenConfig (Some "set5") (Some "inc")], "reads");
        ([mkWhenConfig (Some "set5") (Some "inc"); mkWhenConfig (Some "double") None],
         "reads");
        ([mkWhenConfig None (Some "incLater")], "reads");
        ([], "reads")].
Proof. vm_compute. done. Qed.

End ScenarioFacts.

(* ===================================================================== *)
(** ** Facts about plugin.ts *)
(* ===================================================================== *)

Module PluginFacts.
Import Ts Transform.

(** X12.  The vite plugin rewrites a file only if its name ends in
    [.spec] or [.test] followed by [.ts], [.tsx], [.js] or [.jsx]; for
    such a file it returns what [transformBddSyntax] returns, so a file is
    rewritten exactly when it has such a name, does not import [given],
    and has a [given] call.  Every file the language-service plugin takes
    for a test file is one for the vite plugin too. *)
Theorem plugin_rewrites_test_files_only :
  forall (src id : string) (sourceFile : Node),
    (Plugin.isTestFile id = true
     <-> exists stem k e,
           id = stem +:+ "." +:+ k +:+ "." +:+ e
           /\ In k ["spec"; "test"] /\ In e ["ts"; "tsx"; "js"; "jsx"])
    /\ (Plugin.isTestFile id = false -> Plugin.transform src id sourceFile = None)
    /\ (Plugin.isTestFile id = true ->
        Plugin.transform src id sourceFile = transformBddSyntax src id sourceFile)
    /\ (Plugin.transform src id sourceFile <> None
        <-> Plugin.isTestFile id = true
            /\ importsGiven sourceFile = false
            /\ exists o, In o (fileOccurrences sourceFile) /\ isGivenCall (snd o) = true)
    /\ (TsPlugin.TEST_FILE_PATTERN id = true -> Plugin.isTestFile id = true).
Proof.
  intros src id sourceFile.
  split; [apply JsFacts.testDottedSuffix_iff|].
  split; [by intros H; unfold Plugin.transform; rewrite H|].
  split; [by intros H; unfold Plugin.transform; rewrite H|].
  split.
  - unfold Plugin.transform. destruct (Plugin.isTestFile id); cbn [negb].
    + pose proof (TransformFacts.transform_null_iff src id sourceFile) as Hnull.
      pose proof (TransformFacts.collect_nil_iff sourceFile) as Hnil.
      split.
      * intros Hsome. split; [done|].
        destruct (importsGiven sourceFile) eqn:Ei.
        { exfalso. apply Hsome, Hnull. by left. }
        split; [done|].
        destruct (List.existsb (fun o => isGivenCall (snd o)) (fileOccurrences sourceFile))
          eqn:Ex.
        { by apply List.existsb_exists in Ex. }
        exfalso. apply Hsome, Hnull. right. apply Hnil.
        by apply TransformFacts.existsb_false_iff.
      * intros (_ & Hi & o & Ho & Hg) Hnone. apply Hnull in Hnone as [H | H].
        { congruence. }
        rewrite (proj1 Hnil H o Ho) in Hg. done.
    + split; [done | by intros [? _]].
  - unfold TsPlugin.TEST_FILE_PATTERN, Plugin.isTestFile.
    rewrite !JsFacts.testDottedSuffix_iff.
    intros (stem & k & e & -> & Hk & He). exists stem, k, e.
    split; [done|]. split; [done|].
    cbn [In] in *. destruct He as [<- | [<- | []]]; auto.
Qed.

End PluginFacts.

(* ===================================================================== *)
(** ** Facts about ts-plugin.ts *)
(* ===================================================================== *)

Module TsPluginFacts.
Import Ts Transform TsPlugin TsPluginTerms.

Lemma mentions_iff d :
  diagnosticMentionsMagicGlobal d = true <-> quotesMagicGlobal (headText d).
Proof.
  unfold diagnosticMentionsMagicGlobal, quotesMagicGlobal. fold (headText d).
  rewrite List.existsb_exists. split.
  - intros (name & Hname & Hinc). apply JsFacts.includes_iff in Hinc as (pre & post & H).
    by exists name, pre, post.
  - intros (name & pre & post & Hname & H). exists name. split; [done|].
    apply JsFacts.includes_iff. by exists pre, post.
Qed.

Lemma suppressed_iff c :
  List.existsb (Nat.eqb c) SUPPRESSED_CODES = true <-> In c SUPPRESSED_CODES.
Proof.
  rewrite List.existsb_exists. split.
  - intros (x & Hx & Heq). apply Nat.eqb_eq in Heq as ->. done.
  - intros H. exists c. split; [done | apply Nat.eqb_refl].
Qed.

Lemma filter_sublist {A} (p : A -> bool) (l : list A) : sublist (List.filter p l) l.
Proof.
  induction l as [|x l IH]; [constructor|]. cbn [List.filter].
  destruct (p x); [by apply sublist_skip | by apply sublist_cons].
Qed.

(** X13.  The diagnostics the language-service plugin passes on are those
    of the wrapped service in their order, without those it hides; it
    hides a diagnostic only in a [.spec] or [.test] TypeScript file, only
    if its code is one of the six listed, and only if its message (the
    head of the chain, for a chained message) quotes ['$inputs'] or
    ['$subject']; and filtering twice hides nothing more. *)
Theorem only_magic_global_diagnostics_are_hidden :
  forall (original : list Diagnostic) (fileName : string),
    let shown := getFilteredDiagnostics original fileName in
    sublist shown original
    /\ (forall d,
          In d shown
          <-> In d original
              /\ ~ (TEST_FILE_PATTERN fileName = true
                    /\ In (TsPlugin.code d) SUPPRESSED_CODES
                    /\ quotesMagicGlobal (headText d)))
    /\ getFilteredDiagnostics shown fileName = shown.
Proof.
  intros original fileName. unfold getFilteredDiagnostics.
  destruct (TEST_FILE_PATTERN fileName); cbn [negb].
  - split; [apply filter_sublist|]. split.
    + intros d. rewrite List.filter_In. apply and_iff_compat_l.
      pose proof (suppressed_iff (TsPlugin.code d)) as Hc.
      pose proof (mentions_iff d) as Hm.
      destruct (List.existsb (Nat.eqb (TsPlugin.code d)) SUPPRESSED_CODES);
        destruct (diagnosticMentionsMagicGlobal d); cbn [andb].
      * split; [done|]. intros H. exfalso. apply H.
        split; [done|]. split; [by apply Hc | by apply Hm].
      * split; [|done]. intros _ (_ & _ & H). apply Hm in H. done.
      * split; [|done]. intros _ (_ & H & _). apply Hc in H. done.
      * split; [|done]. intros _ (_ & H & _). apply Hc in H. done.
    + induction original as [|d l IH]; [done|]. cbn [List.filter].
      destruct (List.existsb (Nat.eqb (TsPlugin.code d)) SUPPRESSED_CODES
                && diagnosticMentionsMagicGlobal d) eqn:E; [exact IH|].
      cbn [List.filter]. rewrite E. by rewrite IH.
  - split; [done|]. split; [|done].
    intros d. split; [|by intros [? _]]. intros H. split; [done|]. by intros [? _].
Qed.

Lemma kindOfName_name s k : kindOfName s = Some k -> s = nameOfKind k.
Proof.
  unfold kindOfName.
  destruct (String.eqb s "given") eqn:Eg; [apply String.eqb_eq in Eg; by intros [= <-]|].
  destruct (String.eqb s "when") eqn:Ew; [apply String.eqb_eq in Ew; by intros [= <-]|].
  destruct (String.eqb s "it") eqn:Ei; [apply String.eqb_eq in Ei; by intros [= <-]|].
  done.
Qed.

(** X14.  A call the transform recognizes as [given], [when] or [it], with
    or without [.skip] or [.only], has that name for the language-service
    plugin as well: the two plugins agree on which calls are [given]
    calls of the transform. *)
Theorem editor_names_every_recognized_call :
  forall (node : Node) (k : BddCallKind) (m : option CallModifier),
    parseBddCall node = Some (k, m) ->
    getCallName node = Some (nameOfKind k).
Proof.
  intros node k m. unfold parseBddCall, getCallName.
  destruct (expression node) as [callee|]; [|done].
  destruct (isKind Identifier callee).
  - destruct (kindOfName (text callee)) as [k'|] eqn:Ek; [|done].
    intros [= <- _]. by rewrite (kindOfName_name _ _ Ek).
  - destruct (isKind PropertyAccessExpression callee); [|done].
    destruct (expression callee) as [obj|]; [|done].
    destruct (name callee) as [prop|]; [|done].
    destruct (isKind Identifier obj); [|done].
    destruct (kindOfName (text obj)) as [k'|] eqn:Ek; [|done].
    destruct (modifierOfName (text prop)); [|done].
    intros [= <- _]. by rewrite (kindOfName_name _ _ Ek).
Qed.

Lemma firstAssignment_cons stmt rest globalName :
  firstAssignment (stmt :: rest) globalName
  = match assignmentTo globalName stmt with
    | Some expr => Some expr
    | None => firstAssignment rest globalName
    end.
Proof.
  cbn [firstAssignment]. unfold assignmentTo.
  destruct (isKind ExpressionStatement stmt); cbn [negb]; [|done].
  destruct (expression stmt) as [expr|]; [|done].
  destruct (isKind BinaryExpression expr); cbn [negb]; [|done].
  destruct (operatorToken expr) as [op|]; [|done].
  destruct (left expr) as [l|]; [|done].
  destruct (isKind EqualsToken op); cbn [negb andb]; [|done].
  destruct (isKind Identifier l); cbn [andb]; [|done].
  by destruct (String.eqb (text l) globalName).
Qed.

Lemma firstAssignment_spec stmts globalName :
  firstAssignment stmts globalName
  = List.hd_error (omap (assignmentTo globalName) stmts).
Proof.
  induction stmts as [|stmt rest IH]; [done|].
  rewrite firstAssignment_cons.
  assert (Hcons : omap (assignmentTo globalName) (stmt :: rest)
                  = match assignmentTo globalName stmt with
                    | Some expr => expr :: omap (assignmentTo globalName) rest
                    | None => omap (assignmentTo globalName) rest
                    end) by reflexivity.
  rewrite Hcons. by destruct (assignmentTo globalName stmt).
Qed.

Lemma omap_filter_single {A B} (f : A -> option B) (l : list A) (x : A) :
  List.filter (fun a => isSome (f a)) l = [x] ->
  List.hd_error (omap f l) = f x.
Proof.
  induction l as [|a l IH]; [done|]. cbn [List.filter].
  assert (Hcons : omap f (a :: l)
                  = match f a with
                    | Some y => y :: omap f l
                    | None => omap f l
                    end) by reflexivity.
  rewrite Hcons. destruct (f a) as [b|] eqn:E; cbn [isSome].
  - intros [= -> _]. by rewrite E.
  - exact IH.
Qed.

(** X15.  The assignment the language-service plugin reads the type of a
    magic global from is the first assignment to it among the statements
    of the callback body, and none when the body is an expression.  When
    the slot is assigned once, that is the assignment the transform makes
    the factory from. *)
Theorem editor_reads_first_assignment :
  forall (callbackBody : Node) (globalName : string),
    findMagicAssignmentStatement callbackBody globalName
    = (if isKind Block callbackBody
       then List.hd_error (omap (assignmentTo globalName) (statements callbackBody))
       else None)
    /\ (forall callback stmts stmt,
          body callback = Some callbackBody ->
          getBodyStatements callback = Some stmts ->
          List.filter (fun s => isSome (assignmentTo globalName s)) stmts = [stmt] ->
          findMagicAssignmentStatement callbackBody globalName
          = assignmentTo globalName stmt).
Proof.
  intros callbackBody globalName.
  assert (Hfirst : findMagicAssignmentStatement callbackBody globalName
    = (if isKind Block callbackBody
       then List.hd_error (omap (assignmentTo globalName) (statements callbackBody))
       else None)).
  { unfold findMagicAssignmentStatement.
    destruct (isKind Block callbackBody); cbn [negb]; [|done].
    apply firstAssignment_spec. }
  split; [exact Hfirst|].
  intros callback stmts stmt Hbody Hstmts Hone. rewrite Hfirst.
  unfold getBodyStatements in Hstmts. rewrite Hbody in Hstmts.
  destruct (isKind Block callbackBody); [|done].
  injection Hstmts as <-. by apply omap_filter_single.
Qed.

(** *** The text before the cursor *)

(** The characters of [text] from [a] up to [b]. *)
Lemma js_substring_window text a b :
  a <= b -> b <= String.length text ->
  exists front back,
    text = front +:+ Js.substring a b text +:+ back
    /\ String.length front = a
    /\ String.length (Js.substring a b text) = b - a.
Proof.
  intros Hab Hb. unfold Js.substring. cbn zeta.
  rewrite (Nat.min_l a) by lia. rewrite (Nat.min_l b) by lia.
  rewrite (Nat.min_l a b) by lia. rewrite (Nat.max_r a b) by lia.
  pose proof (JsFacts.substring_split text a ltac:(lia)) as Hsplit.
  set (rest := String.substring a (String.length text - a) text) in *.
  assert (Hfront : String.length (String.substring 0 a text) = a)
    by (apply JsFacts.length_substring_0; lia).
  assert (Hrest : String.length rest = String.length text - a).
  { apply (f_equal String.length) in Hsplit.
    rewrite JsFacts.length_append, Hfront in Hsplit. lia. }
  pose proof (JsFacts.substring_split rest (b - a) ltac:(lia)) as Hsplit2.
  assert (Hwin : String.substring a (b - a) text = String.substring 0 (b - a) rest).
  { rewrite Hsplit at 1. rewrite <- Hfront at 1. apply JsFacts.substring_append_skip. }
  exists (String.substring 0 a text),
         (String.substring (b - a) (String.length rest - (b - a)) rest).
  rewrite Hwin. split; [|split; [done|]].
  - by rewrite <- Hsplit2.
  - apply JsFacts.length_substring_0. lia.
Qed.

Lemma append_inj_length (a b c d : string) :
  a +:+ b = c +:+ d -> String.length a = String.length c -> a = c /\ b = d.
Proof.
  revert c. induction a as [|x a IH]; intros [|y c] H Hlen; try done.
  rewrite !JsFacts.append_cons in H. injection H as -> H.
  cbn [String.length] in Hlen. destruct (IH c H ltac:(lia)) as [-> ->]. done.
Qed.

Lemma append_split_at (pre : string) (n : nat) :
  n <= String.length pre ->
  exists p1 p2, pre = p1 +:+ p2 /\ String.length p1 = n.
Proof.
  intros Hn. exists (String.substring 0 n pre),
    (String.substring n (String.length pre - n) pre).
  split; [by apply JsFacts.substring_split | by apply JsFacts.length_substring_0].
Qed.

(** Looking at the [window] characters before [position] is enough to see
    whether a text of at most [window] characters ends there. *)
Lemma window_endsWith text position window suffix :
  position <= String.length text ->
  String.length suffix <= window ->
  Js.endsWith (Js.substring (position - window) position text) suffix = true
  <-> exists pre post,
        text = pre +:+ suffix +:+ post
        /\ String.length pre + String.length suffix = position.
Proof.
  intros Hpos Hlen.
  destruct (js_substring_window text (position - window) position ltac:(lia) Hpos)
    as (front & back & Htext & Hfront & Hwin).
  set (w := Js.substring (position - window) position text) in *.
  rewrite JsFacts.endsWith_iff. split.
  - intros [p Hw]. exists (front +:+ p), back. split.
    + rewrite Htext, Hw. by rewrite !JsFacts.append_assoc.
    + rewrite JsFacts.length_append.
      apply (f_equal String.length) in Hw. rewrite JsFacts.length_append in Hw. lia.
  - intros (pre & post & Hpre & Hsum).
    destruct (append_split_at pre (position - window) ltac:(lia))
      as (p1 & p2 & -> & Hp1).
    exists p2. rewrite JsFacts.append_assoc in Hpre. rewrite Htext in Hpre.
    destruct (append_inj_length _ _ _ _ Hpre ltac:(lia)) as [_ Hrest].
    rewrite <- JsFacts.append_assoc in Hrest.
    apply (append_inj_length w back (p2 +:+ suffix) post Hrest).
    rewrite !JsFacts.length_append in *. lia.
Qed.

(** X16.  With the cursor inside the text, completion of a magic global is
    offered exactly when the characters before the cursor are [$inputs.]
    or [$subject.], and for that global: the nine characters the plugin
    looks at are enough for either. *)
Theorem dot_completion_reads_the_text_before_the_cursor :
  forall (text : string) (position : nat) (name : string),
    position <= String.length text ->
    (getMagicGlobalAtDot text position = Some name
     <-> In name MAGIC_GLOBALS
         /\ exists pre post,
              text = pre +:+ (name +:+ ".") +:+ post
              /\ String.length pre + String.length (name +:+ ".") = position).
Proof.
  intros text position name Hpos. unfold getMagicGlobalAtDot. cbn zeta.
  pose proof (window_endsWith text position (String.length "$subject.") "$inputs."
                Hpos ltac:(cbn; lia)) as Hi.
  pose proof (window_endsWith text position (String.length "$subject.") "$subject."
                Hpos ltac:(cbn; lia)) as Hs.
  set (w := Js.substring (position - String.length "$subject.") position text) in *.
  unfold MAGIC_GLOBALS. cbn [List.find].
  change ("$inputs" +:+ ".") with "$inputs.". change ("$subject" +:+ ".") with "$subject.".
  destruct (Js.endsWith w "$inputs.") eqn:Ei.
  - split.
    + intros [= <-]. split; [by left|]. by apply Hi.
    + intros ([<- | [<- | []]] & Hname); [done|].
      exfalso. apply Hs in Hname. apply JsFacts.endsWith_iff in Hname as [p Hp].
      apply JsFacts.endsWith_iff in Ei as [q Hq]. rewrite Hp in Hq.
      change "$subject." with ("$" +:+ "subject.") in Hq.
      rewrite <- JsFacts.append_assoc in Hq.
      by destruct (append_inj_length _ _ _ _ Hq ltac:(
        apply (f_equal String.length) in Hq;
        rewrite !JsFacts.length_append in *; cbn [String.length] in *; lia)).
  - destruct (Js.endsWith w "$subject.") eqn:Es.
    + split.
      * intros [= <-]. split; [right; by left|]. by apply Hs.
      * intros ([<- | [<- | []]] & Hname); [|done].
        apply Hi in Hname. congruence.
    + split; [done|].
      intros ([<- | [<- | []]] & Hname); [apply Hi in Hname | apply Hs in Hname];
        congruence.
Qed.

(** *** The lookups in the syntax tree *)

Lemma preorder_eq n : preorder n = n :: List.flat_map preorder (children n).
Proof. by destruct n. Qed.

Lemma Inside_preorder n : forall d, In d (preorder n) <-> Inside n d.
Proof.
  induction n as [k s e t cs ao IH] using Node_ind'. intros d.
  rewrite preorder_eq. cbn [children In]. rewrite List.in_flat_map. split.
  - intros [<- | (c & Hc & Hd)]; [constructor|].
    rewrite List.Forall_forall in IH. apply (inside_child _ c); [done|].
    by apply IH.
  - intros H. inversion H as [|n' c d' Hc Hd]; subst; [by left|].
    right. exists c. split; [done|]. rewrite List.Forall_forall in IH. by apply IH.
Qed.

Lemma find_flat_map {A B} (p : B -> bool) (g : A -> list B) (l : list A) :
  List.find p (List.flat_map g l) = Js.firstDefined (fun x => List.find p (g x)) l.
Proof.
  induction l as [|x l IH]; [done|]. cbn [List.flat_map Js.firstDefined].
  rewrite <- IH. clear IH. induction (g x) as [|y ys IHy]; [done|].
  cbn [app List.find]. by destruct (p y).
Qed.

Lemma firstDefined_ext {A B} (f g : A -> option B) (l : list A) :
  List.Forall (fun x => f x = g x) l -> Js.firstDefined f l = Js.firstDefined g l.
Proof.
  induction 1 as [|x l Hx _ IH]; [done|]. cbn [Js.firstDefined]. by rewrite Hx, IH.
Qed.

Lemma findAtPosition_preorder position n :
  findAtPosition position n = List.find (isMagicIdentifierAt position) (preorder n).
Proof.
  induction n as [k s e t cs ao IH] using Node_ind'.
  rewrite preorder_eq. cbn [findAtPosition List.find children].
  destruct (isMagicIdentifierAt position (mkNode k s e t cs ao)); [done|].
  rewrite find_flat_map. by apply firstDefined_ext.
Qed.

(** X17.  Hovering: the magic global at a position is the name of the
    first identifier node, in document order, that is named [$inputs] or
    [$subject] and spans the position; there is none exactly when no
    identifier of the file is. *)
Theorem hover_finds_the_magic_identifier_at_the_position :
  forall (sourceFile : Node) (position : nat),
    getMagicGlobalAtPosition sourceFile position
    = option_map text
        (List.find (isMagicIdentifierAt position) (preorder sourceFile))
    /\ (forall name,
          getMagicGlobalAtPosition sourceFile position = Some name ->
          In name MAGIC_GLOBALS
          /\ exists ident,
               Inside sourceFile ident /\ isKind Identifier ident = true
               /\ text ident = name /\ contains position ident = true)
    /\ (getMagicGlobalAtPosition sourceFile position = None
        <-> forall d, Inside sourceFile d -> isMagicIdentifierAt position d = false).
Proof.
  intros sourceFile position. unfold getMagicGlobalAtPosition.
  rewrite findAtPosition_preorder.
  destruct (List.find (isMagicIdentifierAt position) (preorder sourceFile))
    as [ident|] eqn:Efind.
  - split; [done|]. split.
    + intros name [= <-]. apply List.find_some in Efind as [Hin Hmagic].
      unfold isMagicIdentifierAt in Hmagic.
      apply andb_true_iff in Hmagic as [Hmagic Hpos].
      apply andb_true_iff in Hmagic as [Hid Hname].
      apply List.existsb_exists in Hname as (x & Hx & Heq).
      apply String.eqb_eq in Heq as <-.
      split; [done|]. exists ident. split; [by apply Inside_preorder | done].
    + split; [done|]. intros H. apply List.find_some in Efind as [Hin Hmagic].
      apply Inside_preorder in Hin. rewrite (H _ Hin) in Hmagic. done.
  - split; [done|]. split; [done|]. split; [|done].
    intros _ d Hd. apply Inside_preorder in Hd.
    exact (List.find_none _ _ Efind d Hd).
Qed.

(** *** The enclosing [given] *)

Lemma height_child n c : In c (children n) -> height c < height n.
Proof.
  destruct n as [k s e t cs ao]. cbn [children height]. intros Hc.
  assert (height c <= List.list_max (List.map height cs)); [|lia].
  pose proof (proj1 (List.list_max_le (List.map height cs) _) (Nat.le_refl _)) as Hall.
  rewrite List.Forall_forall in Hall. apply Hall. by apply List.in_map.
Qed.

Lemma last_child_In n b : body n = Some b -> In b (children n).
Proof.
  unfold body. intros H. apply List.in_rev.
  destruct (List.rev (children n)) as [|x l]; [done|].
  injection H as ->. by left.
Qed.

Lemma argument_In n i a : List.nth_error (arguments n) i = Some a -> In a (children n).
Proof.
  intros H. apply TransformFacts.argument_is_child. by apply List.nth_error_In in H.
Qed.

Lemma walk_eq position fuel node :
  walk position (S fuel) node
  = if enclosesAsGiven position node then
      match List.nth_error (arguments node) 1 with
      | Some callback =>
          match Js.firstDefined (walk position fuel)
                  (match body callback with
                   | Some b => children b
                   | None => []
                   end) with
          | Some deeper => Some deeper
          | None => Some callback
          end
      | None => None
      end
    else Js.firstDefined (walk position fuel) (children node).
Proof.
  cbn [walk]. unfold enclosesAsGiven.
  destruct (isKind CallExpression node && isNamed "given" (getCallName node)
            && (2 <=? length (arguments node)) && contains position node);
    cbn [andb]; [|done].
  destruct (List.nth_error (arguments node) 1) as [callback|]; [|done].
  by destruct (isFunctionLike callback && contains position callback).
Qed.

(** What the walk finds in a tree it has fuel for. *)
Lemma walk_spec position : forall fuel node,
  height node <= fuel ->
  match walk position fuel node with
  | Some callback =>
      exists call,
        Inside node call /\ enclosesAsGiven position call = true
        /\ List.nth_error (arguments call) 1 = Some callback
        /\ forall d, belowBody callback d -> enclosesAsGiven position d = false
  | None => forall d, Inside node d -> enclosesAsGiven position d = false
  end.
Proof.
  induction fuel as [|fuel IH]; intros node Hh.
  { destruct node. cbn [height] in Hh. lia. }
  assert (Hlist : forall l : list Node,
    (forall c, In c l -> height c <= fuel) ->
    match Js.firstDefined (walk position fuel) l with
    | Some callback =>
        exists c call,
          In c l /\ Inside c call /\ enclosesAsGiven position call = true
          /\ List.nth_error (arguments call) 1 = Some callback
          /\ forall d, belowBody callback d -> enclosesAsGiven position d = false
    | None => forall c d, In c l -> Inside c d -> enclosesAsGiven position d = false
    end).
  { intros l Hl. destruct (Js.firstDefined (walk position fuel) l) as [callback|] eqn:E.
    - apply JsFacts.firstDefined_Some in E as (front & c & back & -> & Hc & _).
      assert (Hin : In c (front ++ c :: back)) by (apply List.in_elt).
      pose proof (IH c (Hl c Hin)) as Hspec. rewrite Hc in Hspec.
      destruct Hspec as (call & Hcall). by exists c, call.
    - intros c d Hc Hd. pose proof (IH c (Hl c Hc)) as Hspec.
      rewrite (proj1 (JsFacts.firstDefined_None _ _) E c Hc) in Hspec. by apply Hspec. }
  rewrite walk_eq. destruct (enclosesAsGiven position node) eqn:Eenc.
  - assert (Hcb : exists callback, List.nth_error (arguments node) 1 = Some callback).
    { unfold enclosesAsGiven in Eenc. apply andb_true_iff in Eenc as [_ Eenc].
      destruct (List.nth_error (arguments node) 1) as [callback|]; [by exists callback | done]. }
    destruct Hcb as [callback Hcb]. rewrite Hcb.
    pose proof (height_child _ _ (argument_In _ _ _ Hcb)) as Hhcb.
    specialize (Hlist (match body callback with Some b => children b | None => [] end)).
    destruct (Js.firstDefined (walk position fuel)
                (match body callback with Some b => children b | None => [] end))
      as [deeper|] eqn:E.
    + destruct Hlist as (c & call & Hc & Hinside & Henc & Harg & Hbelow).
      { intros c Hc. destruct (body callback) as [b|] eqn:Eb; [|done].
        pose proof (height_child _ _ (last_child_In _ _ Eb)).
        pose proof (height_child _ _ Hc). lia. }
      exists call. split; [|done].
      destruct (body callback) as [b|] eqn:Eb; [|done].
      apply (inside_child _ callback); [exact (argument_In _ _ _ Hcb)|].
      apply (inside_child _ b); [exact (last_child_In _ _ Eb)|].
      by apply (inside_child _ c).
    + exists node. split; [constructor|]. split; [done|]. split; [done|].
      intros d (b & c & Hb & Hc & Hd). rewrite Hb in Hlist. apply (Hlist
        ltac:(intros c' Hc'; pose proof (height_child _ _ (last_child_In _ _ Hb));
              pose proof (height_child _ _ Hc'); lia) c d Hc Hd).
  - specialize (Hlist (children node)
      ltac:(intros c Hc; pose proof (height_child _ _ Hc); lia)).
    destruct (Js.firstDefined (walk position fuel) (children node)) as [callback|].
    + destruct Hlist as (c & call & Hc & Hinside & Hrest).
      exists call. split; [by apply (inside_child _ c) | done].
    + intros d Hd. inversion Hd as [|n' c d' Hc Hd']; subst; [done|].
      by apply (Hlist c).
Qed.

(** X18.  The callback the language-service plugin takes for the
    enclosing [given] of a position is the inline function in second place
    of a [given] call of the file, with the position inside the call and
    inside the function, and it is a nearest one: no such call lies below
    the body of that function.  It finds none exactly when the file has no
    such call. *)
Theorem enclosing_given_is_a_nearest_one :
  forall (sourceFile : Node) (position : nat),
    (forall callback,
        findEnclosingGivenCallback sourceFile position = Some callback ->
        exists call,
          Inside sourceFile call /\ enclosesAsGiven position call = true
          /\ List.nth_error (arguments call) 1 = Some callback
          /\ isFunctionLike callback = true /\ contains position callback = true
          /\ forall d, belowBody callback d -> enclosesAsGiven position d = false)
    /\ (findEnclosingGivenCallback sourceFile position = None
        <-> forall d, Inside sourceFile d -> enclosesAsGiven position d = false).
Proof.
  intros sourceFile position. unfold findEnclosingGivenCallback.
  pose proof (walk_spec position (height sourceFile) sourceFile (Nat.le_refl _)) as Hspec.
  destruct (walk position (height sourceFile) sourceFile) as [found|].
  - destruct Hspec as (call & Hinside & Henc & Harg & Hbelow). split.
    + intros callback [= <-]. exists call.
      split; [done|]. split; [done|]. split; [done|].
      unfold enclosesAsGiven in Henc. rewrite Harg in Henc.
      apply andb_true_iff in Henc as [_ Hcb]. apply andb_true_iff in Hcb as [Hfn Hpos].
      done.
    + split; [done|]. intros H. rewrite (H call Hinside) in Henc. done.
  - split; [done|]. done.
Qed.

(** *** The facts above on the example files *)

(** The skipped [given] of the example file is a [given] for the
    language-service plugin. *)
Lemma editor_names_every_recognized_call_witness :
  getCallName (node (Sources.collected MoreSources.reassigned 0)) = Some "given".
Proof.
  apply (editor_names_every_recognized_call
           (node (Sources.collected MoreSources.reassigned 0)) given (Some skip)).
  vm_compute. reflexivity.
Defined.

(** With the cursor after [$inputs.] completion is offered for
    [$inputs]. *)
Lemma dot_completion_reads_the_text_before_the_cursor_witness :
  getMagicGlobalAtDot "x = $inputs." 12 = Some "$inputs".
Proof.
  apply (dot_completion_reads_the_text_before_the_cursor "x = $inputs." 12 "$inputs").
  - vm_compute. reflexivity.
  - split; [by left|]. exists "x = ", "". split; reflexivity.
Defined.

(** In Scenario A a position inside the [when] block has the callback of
    the [given] as its enclosing one; in the file that assigns [$inputs]
    twice the language-service plugin reads the first assignment, the
    transform the second. *)
Example lookups_on_the_example_files :
  findEnclosingGivenCallback (Fixture.tree Sources.scenarioA) 200
  = Some (Sources.callbackOf (Sources.collected Sources.scenarioA 0))
  /\ findEnclosingGivenCallback (Fixture.tree Sources.scenarioA) 3 = None
  /\ getMagicGlobalAtPosition (Fixture.tree Sources.scenarioA) 27 = Some "$inputs"
  /\ (let call := Sources.collected MoreSources.reassigned 0 in
      let src := Fixture.source MoreSources.reassigned in
      match body (Sources.callbackOf call) with
      | Some b => option_map (getNodeText src) (findMagicAssignment b "$inputs")
      | None => None
      end = Some "{ value: 0 }"
      /\ List.map (slotBody src "$inputs")
           (List.filter isInputsAssignment (Sources.callbackStatements call))
         = ["({ value: 0 })"; "({ value: 1 })"]).
Proof. vm_compute. done. Qed.

(** A [given] with a type argument: the callback is its second argument
    proper. *)
Example lookup_in_a_typed_given :
  findEnclosingGivenCallback (Fixture.tree MoreSources.typedGiven) 35
  = Some (Sources.callbackOf (Sources.collected MoreSources.typedGiven 0))
  /\ start (Sources.callbackOf (Sources.collected MoreSources.typedGiven 0)) = 20.
Proof. vm_compute. done. Qed.

End TsPluginFacts.

(* ===================================================================== *)
(** ** Facts about the test body of index.ts *)
(* ===================================================================== *)

Module LegacyFacts.
Import Legacy.

Section WithValues.
Context {V W : Type}.
Variable createWorldState : gmap string V -> W.




Lemma readsOnly_runs modifier : ReadsOnly modifier -> forall vars,
  exists vars', runModifier createWorldState modifier vars = inr vars'.
Proof.
  induction 1 as [|prop next _ IH|next _ IH]; intros vars; cbn [runModifier].
  - by exists vars.
  - apply IH.
  - destruct (getState createWorldState vars) as [w vars']. apply IH.
Qed.

Lemma wellOrdered_runs performed modifier :
  WellOrdered performed modifier -> forall vars,
  worldState vars = None ->
  (performed = false -> _performFn vars = None) ->
  exists vars', runModifier createWorldState modifier vars = inr vars'.
Proof.
  induction 1 as [performed|performed prop value next _ IH|performed prop next _ IH
                  |performed next Hreads|performFn next _ IH];
    intros vars Hw Hp; cbn [runModifier].
  - by exists vars.
  - rewrite Hw. by apply IH.
  - by apply IH.
  - destruct (getState createWorldState vars) as [w vars']. by apply readsOnly_runs.
  - rewrite Hw, (Hp eq_refl). by apply IH.
Qed.

(** X20.  A modifier that sets inputs and calls [perform] at most once
    before it first reads the state, and only reads from then on, never
    makes a helper throw: the test body finishes. *)
Theorem well_ordered_modifier_never_throws :
  forall (inputs : gmap string V) (modifier : Modifier V W)
         (_cleanupFn : option string) (testFn : string),
    WellOrdered false modifier ->
    exists events,
      testBody createWorldState inputs modifier _cleanupFn testFn = Finished events.
Proof.
  intros inputs modifier _cleanupFn testFn Hordered. unfold testBody.
  destruct (wellOrdered_runs false modifier Hordered (mkVars inputs None None [])
              eq_refl (fun _ => eq_refl)) as [vars ->].
  destruct (getState createWorldState vars) as [finalState vars']. by eexists.
Qed.

End WithValues.

(** A modifier that sets an input, registers a perform function and then
    reads the state. *)
Lemma well_ordered_modifier_never_throws_witness :
  exists events,
    testBody (V := nat) (W := nat)
      (fun testInputs => default 0 (testInputs !! "initialValue"))
      {["initialValue" := 0]}
      (SetInput "initialValue" 5 (Perform "click" (GetState (fun _ => Return))))
      (Some "unmount") "has value 5"
    = Finished events.
Proof.
  apply (well_ordered_modifier_never_throws (V := nat) (W := nat)).
  apply ordered_set, ordered_perform, ordered_state. intros w. constructor.
Defined.

(** The events of three test bodies: one that finishes, one whose modifier
    sets an input after it read the state, one whose modifier calls
    [perform] twice. *)
Example test_bodies :
  let create : gmap string nat -> nat :=
    fun testInputs => default 0 (testInputs !! "initialValue") in
  let inputs : gmap string nat := {["initialValue" := 0]} in
  testBody create inputs
    (SetInput "initialValue" 5 (Perform "click" (GetState (fun _ => Return))))
    (Some "unmount") "has value 5"
  = Finished [CreateWorldState (<["initialValue" := 5]> inputs); RunPerform "click";
              RunTest "has value 5" 5; RunCleanup "unmount"]
  /\ testBody create inputs
       (GetState (fun _ => SetInput "initialValue" 5 Return)) (Some "unmount") "late"
     = Threw InputsModifiedAfterState [CreateWorldState inputs]
  /\ testBody create inputs
       (Perform "click" (Perform "again" Return)) (Some "unmount") "twice"
     = Threw PerformCalledTwice [].
Proof. repeat split. Qed.

End LegacyFacts.
